(** * Generation orchestration of the self-exciting generative loop

    A shallow embedding of the session store
    ([src/lib/salience/store/session-store.ts]), the event helpers
    ([src/lib/salience/events.ts]), the generation pipeline and its job
    queue ([src/lib/salience/pipeline.ts]) and the generate route
    ([src/app/api/salience/session/[sessionId]/generate/route.ts]).

    Conventions of the embedding.
    - A JavaScript [number] is an exact rational kept in lowest terms.  Every
      arithmetic result the modelled code computes (integers, multiples of
      one half below 100) is exactly representable in binary64.
    - A [Date] is its time value in milliseconds since the epoch.
    - [Map] and [Set] are insertion-ordered, as in JavaScript.
    - [async] store methods only await promises that are already settled, so
      each call runs to completion before any timer or I/O callback: a store
      method is one atomic state transformer.
    - The environment (clock, fresh identifiers, the outcome and duration of
      every external call) is an explicit input. *)

From Stdlib Require Import ZArith QArith List String Ascii Bool Lia.
From stdpp Require Import base option list strings pretty gmap.
Import ListNotations.
Open Scope string_scope.
Open Scope list_scope.
Open Scope Z_scope.
Set Warnings "-register-all".

(* ================================================================== *)
(** * Numbers *)
(* ================================================================== *)

Module Num.

Definition number : Type := Q.

Definition of_Z (z : Z) : number := inject_Z z.
Definition of_nat (n : nat) : number := inject_Z (Z.of_nat n).

Definition add (a b : number) : number := Qred (a + b).
Definition sub (a b : number) : number := Qred (a - b).
Definition mul (a b : number) : number := Qred (a * b).
Definition div (a b : number) : number := Qred (a / b).

Definition leb (a b : number) : bool := Qle_bool a b.
Definition ltb (a b : number) : bool := negb (Qle_bool b a).
Definition gtb (a b : number) : bool := ltb b a.
Definition eqb (a b : number) : bool := Qeq_bool a b.

(** [Math.min] *)
Definition min (a b : number) : number := if leb a b then a else b.

Definition half : number := (1 # 2)%Q.

End Num.

Abbreviation number := Num.number.

(* ================================================================== *)
(** * Dates *)
(* ================================================================== *)

Module JsDate.

(** A [Date] object: a time value, or the invalid date (time value NaN). *)
Inductive Date : Type :=
| Time (ms : Z)
| Invalid.

(** [Date.prototype.getTime]; [None] stands for NaN. *)
Definition getTime (d : Date) : option Z :=
  match d with Time ms => Some ms | Invalid => None end.

Definition msPerDay : Z := 86400000.

(** Proleptic Gregorian calendar: days since the epoch of a civil date. *)
Definition days_from_civil (y m d : Z) : Z :=
  let y := if m <=? 2 then y - 1 else y in
  let era := y / 400 in
  let yoe := y - era * 400 in
  let mp := if 2 <? m then m - 3 else m + 9 in
  let doy := (153 * mp + 2) / 5 + d - 1 in
  let doe := yoe * 365 + yoe / 4 - yoe / 100 + doy in
  era * 146097 + doe - 719468.

(** Civil date (year, month, day) of a day number. *)
Definition civil_from_days (z : Z) : Z * Z * Z :=
  let z := z + 719468 in
  let era := z / 146097 in
  let doe := z - era * 146097 in
  let yoe := (doe - doe / 1460 + doe / 36524 - doe / 146096) / 365 in
  let y := yoe + era * 400 in
  let doy := doe - (365 * yoe + yoe / 4 - yoe / 100) in
  let mp := (5 * doy + 2) / 153 in
  let d := doy - (153 * mp + 2) / 5 + 1 in
  let m := if mp <? 10 then mp + 3 else mp - 9 in
  ((if m <=? 2 then y + 1 else y), m, d).

Definition digit (n : Z) : ascii := ascii_of_nat (48 + Z.to_nat (n mod 10)).

(** [n] written with exactly [k] decimal digits (leading zeros). *)
Fixpoint pad (k : nat) (n : Z) : string :=
  match k with
  | O => EmptyString
  | S k' => pad k' (n / 10) +:+ String (digit n) EmptyString
  end.

(** The year of an ISO string: four digits in 0..9999, otherwise the
    expanded form with a sign and six digits. *)
Definition year_string (y : Z) : string :=
  if (0 <=? y) && (y <=? 9999) then pad 4 y
  else if 0 <=? y then "+" +:+ pad 6 y
  else "-" +:+ pad 6 (- y).

(** [Date.prototype.toISOString] on a valid time value. *)
Definition toISOString (ms : Z) : string :=
  let day := ms / msPerDay in
  let tod := ms mod msPerDay in
  let '(y, m, d) := civil_from_days day in
  year_string y +:+ "-" +:+ pad 2 m +:+ "-" +:+ pad 2 d +:+ "T" +:+
  pad 2 (tod / 3600000) +:+ ":" +:+ pad 2 (tod / 60000 mod 60) +:+ ":" +:+
  pad 2 (tod / 1000 mod 60) +:+ "." +:+ pad 3 (tod mod 1000) +:+ "Z".

Definition is_digit (c : ascii) : bool :=
  let n := nat_of_ascii c in (48 <=? n)%nat && (n <=? 57)%nat.

Definition digit_val (c : ascii) : Z := Z.of_nat (nat_of_ascii c) - 48.

(** Value of a string of decimal digits; [None] if another character
    occurs. *)
Fixpoint digits_val (acc : Z) (s : string) : option Z :=
  match s with
  | EmptyString => Some acc
  | String c s' =>
      if is_digit c then digits_val (acc * 10 + digit_val c) s' else None
  end.

Definition is_leap (y : Z) : bool :=
  ((y mod 4 =? 0) && negb (y mod 100 =? 0)) || (y mod 400 =? 0).

Definition days_in_month (y m : Z) : Z :=
  if m =? 2 then (if is_leap y then 29 else 28)
  else if (m =? 4) || (m =? 6) || (m =? 9) || (m =? 11) then 30
  else 31.

(** [new Date(s)] for the date-time form that [toISOString] produces,
    [YYYY-MM-DDTHH:mm:ss.sssZ].  Other forms are parsed by host-defined
    rules that depend on the local time zone; they are mapped to the
    invalid date here, and nothing below relies on them. *)
Definition parse (s : string) : Date :=
  if negb (String.length s =? 24)%nat then Invalid else
  let field i n := digits_val 0 (substring i n s) in
  let sep i c := bool_decide (substring i 1 s = c) in
  if negb (sep 4%nat "-" && sep 7%nat "-" && sep 10%nat "T" &&
           sep 13%nat ":" && sep 16%nat ":" && sep 19%nat "." &&
           sep 23%nat "Z")
  then Invalid else
  match field 0%nat 4%nat, field 5%nat 2%nat, field 8%nat 2%nat,
        field 11%nat 2%nat, field 14%nat 2%nat, field 17%nat 2%nat,
        field 20%nat 3%nat with
  | Some y, Some m, Some d, Some hh, Some mm, Some ss, Some ms =>
      if (1 <=? m) && (m <=? 12) && (1 <=? d) && (d <=? days_in_month y m)
         && (hh <=? 23) && (mm <=? 59) && (ss <=? 59)
      then Time (days_from_civil y m d * msPerDay
                 + hh * 3600000 + mm * 60000 + ss * 1000 + ms)
      else Invalid
  | _, _, _, _, _, _, _ => Invalid
  end.

End JsDate.

Abbreviation Date := JsDate.Date.

(* ================================================================== *)
(** * Domain types ([src/types/salience.ts]) *)
(* ================================================================== *)

Module SessionState.
Inductive t : Type :=
| initializing | references_uploaded | analyzing | directions_planned
| generating | idle | error.
#[global] Instance SessionState_eq_dec : EqDecision t.
Proof. solve_decision. Defined.
End SessionState.

Module SessionMode.
Inductive t : Type :=
| character_design | assets | story_frames | evolutionary_progress | pm_flow.
#[global] Instance SessionMode_eq_dec : EqDecision t.
Proof. solve_decision. Defined.
End SessionMode.

Module NodeStatus.
Inductive t : Type := pending | queued | generating | complete | error.
#[global] Instance NodeStatus_eq_dec : EqDecision t.
Proof. solve_decision. Defined.
End NodeStatus.

Module MediaType.
Inductive t : Type := image | video.
#[global] Instance MediaType_eq_dec : EqDecision t.
Proof. solve_decision. Defined.
End MediaType.

Module ModelType.
Inductive t : Type := gpt_image_1_5 | sora_2.
End ModelType.

Module JobStatus.
Inductive t : Type := queued | processing | completed | failed.
#[global] Instance JobStatus_eq_dec : EqDecision t.
Proof. solve_decision. Defined.
End JobStatus.

Module SalienceAxis.
Record t : Type := mk {
  name : string;
  weight : number;
  value : number;
  polarities : string * string }.
End SalienceAxis.

Module SalienceProfile.
Record t : Type := mk {
  axes : list SalienceAxis.t;
  styleTags : list string;
  avoidTags : list string;
  compositionNotes : list string;
  moodNotes : list string;
  colorNotes : list string;
  explanationShort : string;
  extractedAt : Date }.
End SalienceProfile.

Module AxisDelta.
Record t : Type := mk { axis : string; strength : number }.
End AxisDelta.

Module DirectionVector.
Record t : Type := mk {
  pushAxes : list AxisDelta.t;
  pullAxes : list AxisDelta.t;
  styleTags : list string;
  avoidTags : list string }.
End DirectionVector.

Module PromptSkeleton.
Record t : Type := mk {
  coreSubject : string;
  sceneComposition : string;
  styleAndMood : string;
  constraints : list string }.
End PromptSkeleton.

Module PromptMeta.
Record t : Type := mk {
  aspectRatio : string;
  seed : number;
  styleStrength : number;
  guidance : number;
  duration : option number;
  fps : option number }.
End PromptMeta.

Module GenerationNode.
Record t : Type := mk {
  id : string;
  directionId : string;
  depth : number;
  status : NodeStatus.t;
  mediaType : MediaType.t;
  model : ModelType.t;
  prompt : option string;
  promptMeta : option PromptMeta.t;
  negative : list string;
  explanationShort : option string;
  outputUrl : option string;
  thumbnailUrl : option string;
  progress : number;
  streamingContent : option string;
  error : option string;
  isPinned : bool;
  parentNodeId : option string;
  salienceDelta : list AxisDelta.t;
  createdAt : Date;
  completedAt : option Date }.
End GenerationNode.

(** [Partial<GenerationNode>]: [None] is an absent key.  A nullable field
    carries its own [option]. *)
Module NodePatch.
Record t : Type := mk {
  id : option string;
  directionId : option string;
  depth : option number;
  status : option NodeStatus.t;
  mediaType : option MediaType.t;
  model : option ModelType.t;
  prompt : option (option string);
  promptMeta : option (option PromptMeta.t);
  negative : option (list string);
  explanationShort : option (option string);
  outputUrl : option (option string);
  thumbnailUrl : option (option string);
  progress : option number;
  streamingContent : option (option string);
  error : option (option string);
  isPinned : option bool;
  parentNodeId : option (option string);
  salienceDelta : option (list AxisDelta.t);
  createdAt : option Date;
  completedAt : option (option Date) }.

(** The patch with no key. *)
Definition empty : t :=
  mk None None None None None None None None None None
     None None None None None None None None None None.

(** [{ ...n, ...updates }] *)
Definition merge (n : GenerationNode.t) (u : t) : GenerationNode.t :=
  GenerationNode.mk
    (default (GenerationNode.id n) (id u))
    (default (GenerationNode.directionId n) (directionId u))
    (default (GenerationNode.depth n) (depth u))
    (default (GenerationNode.status n) (status u))
    (default (GenerationNode.mediaType n) (mediaType u))
    (default (GenerationNode.model n) (model u))
    (default (GenerationNode.prompt n) (prompt u))
    (default (GenerationNode.promptMeta n) (promptMeta u))
    (default (GenerationNode.negative n) (negative u))
    (default (GenerationNode.explanationShort n) (explanationShort u))
    (default (GenerationNode.outputUrl n) (outputUrl u))
    (default (GenerationNode.thumbnailUrl n) (thumbnailUrl u))
    (default (GenerationNode.progress n) (progress u))
    (default (GenerationNode.streamingContent n) (streamingContent u))
    (default (GenerationNode.error n) (error u))
    (default (GenerationNode.isPinned n) (isPinned u))
    (default (GenerationNode.parentNodeId n) (parentNodeId u))
    (default (GenerationNode.salienceDelta n) (salienceDelta u))
    (default (GenerationNode.createdAt n) (createdAt u))
    (default (GenerationNode.completedAt n) (completedAt u)).
End NodePatch.

Module Direction.
Record t : Type := mk {
  id : string;
  index : number;
  label : string;
  intent : string;
  vector : DirectionVector.t;
  promptSkeleton : PromptSkeleton.t;
  nodes : list GenerationNode.t;
  createdAt : Date }.

(** [{ ...d, nodes }] *)
Definition with_nodes (d : t) (ns : list GenerationNode.t) : t :=
  mk (id d) (index d) (label d) (intent d) (vector d) (promptSkeleton d)
     ns (createdAt d).
End Direction.

Module PreferenceState.
Record t : Type := mk {
  weights : list (string * number);
  explorationRate : number;
  styleAffinities : list (string * number);
  updatedAt : Date }.
End PreferenceState.

Module Session.
Record t : Type := mk {
  id : string;
  mode : SessionMode.t;
  state : SessionState.t;
  referenceUrls : list string;
  caption : string;
  salienceProfile : option SalienceProfile.t;
  directions : list Direction.t;
  preferences : PreferenceState.t;
  createdAt : Date;
  updatedAt : Date }.
End Session.

(** [Partial<Session>] *)
Module SessionPatch.
Record t : Type := mk {
  id : option string;
  mode : option SessionMode.t;
  state : option SessionState.t;
  referenceUrls : option (list string);
  caption : option string;
  salienceProfile : option (option SalienceProfile.t);
  directions : option (list Direction.t);
  preferences : option PreferenceState.t;
  createdAt : option Date;
  updatedAt : option Date }.

Definition empty : t :=
  mk None None None None None None None None None None.

(** [{ ...session, ...updates, updatedAt: new Date() }] *)
Definition merge (now : Date) (s : Session.t) (u : t) : Session.t :=
  Session.mk
    (default (Session.id s) (id u))
    (default (Session.mode s) (mode u))
    (default (Session.state s) (state u))
    (default (Session.referenceUrls s) (referenceUrls u))
    (default (Session.caption s) (caption u))
    (default (Session.salienceProfile s) (salienceProfile u))
    (default (Session.directions s) (directions u))
    (default (Session.preferences s) (preferences u))
    (default (Session.createdAt s) (createdAt u))
    now.
End SessionPatch.

(** [Partial<PreferenceState>] *)
Module PreferencePatch.
Record t : Type := mk {
  weights : option (list (string * number));
  explorationRate : option number;
  styleAffinities : option (list (string * number));
  updatedAt : option Date }.

(** [{ ...preferences, ...updates, updatedAt: new Date() }] *)
Definition merge (now : Date) (p : PreferenceState.t) (u : t)
    : PreferenceState.t :=
  PreferenceState.mk
    (default (PreferenceState.weights p) (weights u))
    (default (PreferenceState.explorationRate p) (explorationRate u))
    (default (PreferenceState.styleAffinities p) (styleAffinities u))
    now.
End PreferencePatch.

(* ================================================================== *)
(** * Insertion-ordered [Map] and [Set] *)
(* ================================================================== *)

Module JsMap.
Section Ops.
Context {K V : Type} `{EqDecision K}.

Definition t : Type := list (K * V).

Fixpoint get (k : K) (m : t) : option V :=
  match m with
  | [] => None
  | (k', v) :: m' => if decide (k' = k) then Some v else get k m'
  end.

Definition has (k : K) (m : t) : bool :=
  match get k m with Some _ => true | None => false end.

(** [Map.prototype.set]: an existing key keeps its position, a new key goes
    last. *)
Fixpoint set (k : K) (v : V) (m : t) : t :=
  match m with
  | [] => [(k, v)]
  | (k', v') :: m' =>
      if decide (k' = k) then (k, v) :: m' else (k', v') :: set k v m'
  end.

Definition delete (k : K) (m : t) : t := filter (fun p => p.1 <> k) m.

Definition values (m : t) : list V := map snd m.

End Ops.
End JsMap.

Module JsSet.
Section Ops.
Context {K : Type} `{EqDecision K}.

Definition t : Type := list K.

Definition has (k : K) (s : t) : bool := bool_decide (k ∈ s).

Definition add (k : K) (s : t) : t := if has k s then s else s ++ [k].

Definition delete (k : K) (s : t) : t := filter (fun k' => k' <> k) s.

Definition clear (s : t) : t := [].

Definition size (s : t) : nat := length s.

End Ops.
End JsSet.

(* ================================================================== *)
(** * JSON documents and JavaScript values *)
(* ================================================================== *)

(** The tree that [JSON.stringify] writes and [JSON.parse] reads back.  The
    text between the two is not modelled: parsing the text of a tree gives
    the tree. *)
Module Json.
Inductive t : Type :=
| Null
| Bool (b : bool)
| Number (n : number)
| Str (s : string)
| Arr (l : list t)
| Obj (fields : list (string * t)).
End Json.

Module JsValue.

(** The values a session is made of. *)
Inductive value : Type :=
| VNull
| VBool (b : bool)
| VNum (n : number)
| VStr (s : string)
| VDate (d : Date)
| VArr (l : list value)
| VObj (fields : list (string * value)).

(** [JSON.stringify]: a [Date] is written through [toJSON], that is, as its
    ISO string, or as [null] when it is invalid. *)
Fixpoint stringify (v : value) : Json.t :=
  match v with
  | VNull => Json.Null
  | VBool b => Json.Bool b
  | VNum n => Json.Number n
  | VStr s => Json.Str s
  | VDate (JsDate.Time ms) => Json.Str (JsDate.toISOString ms)
  | VDate JsDate.Invalid => Json.Null
  | VArr l => Json.Arr (map stringify l)
  | VObj fs => Json.Obj (map (fun p => (p.1, stringify p.2)) fs)
  end.

(** One element of a pattern: a digit [\d] or a literal character. *)
Inductive pat : Type := D | C (c : ascii).

Fixpoint matches_prefix (p : list pat) (s : string) : bool :=
  match p, s with
  | [], _ => true
  | _ :: _, EmptyString => false
  | D :: p', String c s' => JsDate.is_digit c && matches_prefix p' s'
  | C c0 :: p', String c s' => bool_decide (c = c0) && matches_prefix p' s'
  end.

(** [/^\d{4}-\d{2}-\d{2}T\d{2}:\d{2}:\d{2}/] *)
Definition date_pattern : list pat :=
  [D; D; D; D; C "-"; D; D; C "-"; D; D; C "T";
   D; D; C ":"; D; D; C ":"; D; D]%char.

(** The test of [reviver]: [typeof value === 'string'] and the pattern
    matches. *)
Definition date_like (s : string) : bool := matches_prefix date_pattern s.

(** [JSON.parse(content, this.reviver)]: the reviver is applied to every
    value of the tree, children first; it ignores the key. *)
Fixpoint revive (j : Json.t) : value :=
  match j with
  | Json.Null => VNull
  | Json.Bool b => VBool b
  | Json.Number n => VNum n
  | Json.Str s => if date_like s then VDate (JsDate.parse s) else VStr s
  | Json.Arr l => VArr (map revive l)
  | Json.Obj fs => VObj (map (fun p => (p.1, revive p.2)) fs)
  end.

(** Property access [v.k]; [None] is [undefined]. *)
Definition prop (k : string) (v : value) : option value :=
  match v with
  | VObj fs => JsMap.get k fs
  | _ => None
  end.

End JsValue.

Abbreviation value := JsValue.value.

(** The JavaScript value of each typed record: one property per field, in
    the order of the object literals that build it; a [?:] field that is
    absent has no property. *)
Module Encode.
Import JsValue.

Definition str (s : string) : value := VStr s.
Definition num (n : number) : value := VNum n.
Definition strs (l : list string) : value := VArr (map VStr l).
Definition nullable {A} (f : A -> value) (o : option A) : value :=
  match o with Some a => f a | None => VNull end.
Definition optional {A} (k : string) (f : A -> value) (o : option A)
    : list (string * value) :=
  match o with Some a => [(k, f a)] | None => [] end.
Definition record (kv : list (string * number)) : value :=
  VObj (map (fun p => (p.1, VNum p.2)) kv).

Definition sessionState (s : SessionState.t) : value :=
  VStr match s with
       | SessionState.initializing => "initializing"
       | SessionState.references_uploaded => "references_uploaded"
       | SessionState.analyzing => "analyzing"
       | SessionState.directions_planned => "directions_planned"
       | SessionState.generating => "generating"
       | SessionState.idle => "idle"
       | SessionState.error => "error"
       end.

Definition sessionMode (m : SessionMode.t) : value :=
  VStr match m with
       | SessionMode.character_design => "character_design"
       | SessionMode.assets => "assets"
       | SessionMode.story_frames => "story_frames"
       | SessionMode.evolutionary_progress => "evolutionary_progress"
       | SessionMode.pm_flow => "pm_flow"
       end.

Definition nodeStatus (s : NodeStatus.t) : value :=
  VStr match s with
       | NodeStatus.pending => "pending"
       | NodeStatus.queued => "queued"
       | NodeStatus.generating => "generating"
       | NodeStatus.complete => "complete"
       | NodeStatus.error => "error"
       end.

Definition mediaType (m : MediaType.t) : value :=
  VStr match m with
       | MediaType.image => "image"
       | MediaType.video => "video"
       end.

Definition modelType (m : ModelType.t) : value :=
  VStr match m with
       | ModelType.gpt_image_1_5 => "gpt-image-1.5-2025-12-16"
       | ModelType.sora_2 => "sora-2-2025-10-06"
       end.

Definition salienceAxis (a : SalienceAxis.t) : value :=
  VObj [("name", str (SalienceAxis.name a));
        ("weight", num (SalienceAxis.weight a));
        ("value", num (SalienceAxis.value a));
        ("polarities", VArr [str (SalienceAxis.polarities a).1;
                             str (SalienceAxis.polarities a).2])].

Definition salienceProfile (p : SalienceProfile.t) : value :=
  VObj [("axes", VArr (map salienceAxis (SalienceProfile.axes p)));
        ("styleTags", strs (SalienceProfile.styleTags p));
        ("avoidTags", strs (SalienceProfile.avoidTags p));
        ("compositionNotes", strs (SalienceProfile.compositionNotes p));
        ("moodNotes", strs (SalienceProfile.moodNotes p));
        ("colorNotes", strs (SalienceProfile.colorNotes p));
        ("explanationShort", str (SalienceProfile.explanationShort p));
        ("extractedAt", VDate (SalienceProfile.extractedAt p))].

Definition axisDelta (a : AxisDelta.t) : value :=
  VObj [("axis", str (AxisDelta.axis a));
        ("strength", num (AxisDelta.strength a))].

Definition directionVector (v : DirectionVector.t) : value :=
  VObj [("pushAxes", VArr (map axisDelta (DirectionVector.pushAxes v)));
        ("pullAxes", VArr (map axisDelta (DirectionVector.pullAxes v)));
        ("styleTags", strs (DirectionVector.styleTags v));
        ("avoidTags", strs (DirectionVector.avoidTags v))].

Definition promptSkeleton (k : PromptSkeleton.t) : value :=
  VObj [("coreSubject", str (PromptSkeleton.coreSubject k));
        ("sceneComposition", str (PromptSkeleton.sceneComposition k));
        ("styleAndMood", str (PromptSkeleton.styleAndMood k));
        ("constraints", strs (PromptSkeleton.constraints k))].

Definition promptMeta (m : PromptMeta.t) : value :=
  VObj ([("aspectRatio", str (PromptMeta.aspectRatio m));
         ("seed", num (PromptMeta.seed m));
         ("styleStrength", num (PromptMeta.styleStrength m));
         ("guidance", num (PromptMeta.guidance m))]
        ++ optional "duration" num (PromptMeta.duration m)
        ++ optional "fps" num (PromptMeta.fps m)).

Definition generationNode (n : GenerationNode.t) : value :=
  VObj ([("id", str (GenerationNode.id n));
         ("directionId", str (GenerationNode.directionId n));
         ("depth", num (GenerationNode.depth n));
         ("status", nodeStatus (GenerationNode.status n));
         ("mediaType", mediaType (GenerationNode.mediaType n));
         ("model", modelType (GenerationNode.model n));
         ("prompt", nullable str (GenerationNode.prompt n));
         ("promptMeta", nullable promptMeta (GenerationNode.promptMeta n));
         ("negative", strs (GenerationNode.negative n));
         ("explanationShort",
            nullable str (GenerationNode.explanationShort n));
         ("outputUrl", nullable str (GenerationNode.outputUrl n));
         ("thumbnailUrl", nullable str (GenerationNode.thumbnailUrl n));
         ("progress", num (GenerationNode.progress n));
         ("error", nullable str (GenerationNode.error n));
         ("isPinned", VBool (GenerationNode.isPinned n));
         ("parentNodeId", nullable str (GenerationNode.parentNodeId n));
         ("salienceDelta",
            VArr (map axisDelta (GenerationNode.salienceDelta n)));
         ("createdAt", VDate (GenerationNode.createdAt n));
         ("completedAt", nullable VDate (GenerationNode.completedAt n))]
        ++ optional "streamingContent" str
             (GenerationNode.streamingContent n)).

Definition direction (d : Direction.t) : value :=
  VObj [("id", str (Direction.id d));
        ("index", num (Direction.index d));
        ("label", str (Direction.label d));
        ("intent", str (Direction.intent d));
        ("vector", directionVector (Direction.vector d));
        ("promptSkeleton", promptSkeleton (Direction.promptSkeleton d));
        ("nodes", VArr (map generationNode (Direction.nodes d)));
        ("createdAt", VDate (Direction.createdAt d))].

Definition preferenceState (p : PreferenceState.t) : value :=
  VObj [("weights", record (PreferenceState.weights p));
        ("explorationRate", num (PreferenceState.explorationRate p));
        ("styleAffinities", record (PreferenceState.styleAffinities p));
        ("updatedAt", VDate (PreferenceState.updatedAt p))].

Definition session (s : Session.t) : value :=
  VObj [("id", str (Session.id s));
        ("mode", sessionMode (Session.mode s));
        ("state", sessionState (Session.state s));
        ("referenceUrls", strs (Session.referenceUrls s));
        ("caption", str (Session.caption s));
        ("salienceProfile",
           nullable salienceProfile (Session.salienceProfile s));
        ("directions", VArr (map direction (Session.directions s)));
        ("preferences", preferenceState (Session.preferences s));
        ("createdAt", VDate (Session.createdAt s));
        ("updatedAt", VDate (Session.updatedAt s))].

End Encode.

(* ================================================================== *)
(** * Calls that may throw *)
(* ================================================================== *)

(** How a call ends: it returns, or it throws an [Error] with a message. *)
Inductive outcome (A : Type) : Type :=
| Returned (a : A)
| Thrown (message : string).
Arguments Returned {A} a.
Arguments Thrown {A} message.

(* ================================================================== *)
(** * The session store ([session-store.ts]) *)
(* ================================================================== *)

Module SessionStore.

Record Store : Type := mkStore {
  sessions : list (string * Session.t);
  dirty : list string;
  initialized : bool }.

(** The store as constructed: nothing loaded. *)
Definition fresh : Store := mkStore [] [] false.

(** A store method: a transformer of the store with a result. *)
Definition St (A : Type) : Type := Store -> A * Store.

Definition ret {A} (a : A) : St A := fun st => (a, st).

Definition bind {A B} (m : St A) (k : A -> St B) : St B :=
  fun st => let '(a, st') := m st in k a st'.

Notation "'do' x <- m ; k" := (bind m (fun x => k))
  (at level 10, x name, m at level 100, k at level 200).
Notation "m ;; k" := (bind m (fun _ => k))
  (at level 100, right associativity).

Definition set_session (k : string) (s : Session.t) : St unit :=
  fun st => (tt, mkStore (JsMap.set k s (sessions st)) (dirty st)
                         (initialized st)).

Definition mark_dirty (k : string) : St unit :=
  fun st => (tt, mkStore (sessions st) (JsSet.add k (dirty st))
                         (initialized st)).

Definition lookup_session (k : string) : St (option Session.t) :=
  fun st => (JsMap.get k (sessions st), st).

(** The files of the data directory: path to document. *)
Abbreviation Disk := (gmap string Json.t).

Section WithDisk.

(** The sessions read back by [loadAll]: for each [.json] file of the data
    directory that parses, in directory order, the document as a
    [Session]. *)
Variable persisted : list Session.t.

(** [loadAll], on the in-memory map: [this.sessions.set(session.id,
    session)] for every document. *)
Definition loadAll (m : list (string * Session.t)) : list (string * Session.t) :=
  fold_left (fun m s => JsMap.set (Session.id s) s m) persisted m.

(** [ensureInitialized]; the interval timer it starts is the periodic call
    of [flushDirty]. *)
Definition ensureInitialized : St unit :=
  fun st =>
    if initialized st then (tt, st)
    else (tt, mkStore (loadAll (sessions st)) (dirty st) true).

Definition create (uuid : string) (now : Date)
    (mode : SessionMode.t) (caption : string) : St Session.t :=
  ensureInitialized ;;
  let session :=
    Session.mk uuid mode SessionState.initializing [] caption None []
      (PreferenceState.mk [] (3 # 10)%Q [] now) now now in
  set_session (Session.id session) session ;;
  mark_dirty (Session.id session) ;;
  ret session.

Definition get (sessionId : string) : St (option Session.t) :=
  ensureInitialized ;;
  lookup_session sessionId.

Definition update (now : Date) (sessionId : string)
    (updates : SessionPatch.t) : St (option Session.t) :=
  ensureInitialized ;;
  do session <- lookup_session sessionId ;
  match session with
  | None => ret None
  | Some session =>
      let updated := SessionPatch.merge now session updates in
      set_session sessionId updated ;;
      mark_dirty sessionId ;;
      ret (Some updated)
  end.

Definition setState (now : Date) (sessionId : string)
    (state : SessionState.t) : St (option Session.t) :=
  update now sessionId
    (SessionPatch.mk None None (Some state) None None None None None None None).

Definition setReferences (now : Date) (sessionId : string)
    (urls : list string) : St (option Session.t) :=
  do session <- get sessionId ;
  match session with
  | None => ret None
  | Some session =>
      update now sessionId
        (SessionPatch.mk None None
           (Some (if (0 <? length urls)%nat
                  then SessionState.references_uploaded
                  else Session.state session))
           (Some urls) None None None None None None)
  end.

Definition setSalienceProfile (now : Date) (sessionId : string)
    (profile : SalienceProfile.t) : St (option Session.t) :=
  update now sessionId
    (SessionPatch.mk None None None None None (Some (Some profile))
       None None None None).

Definition setDirections (now : Date) (sessionId : string)
    (directions : list Direction.t) : St (option Session.t) :=
  update now sessionId
    (SessionPatch.mk None None (Some SessionState.directions_planned) None
       None None (Some directions) None None None).

Definition directions_patch (directions : list Direction.t) : SessionPatch.t :=
  SessionPatch.mk None None None None None None (Some directions)
    None None None.

Definition addNode (now : Date) (sessionId directionId : string)
    (node : GenerationNode.t) : St (option Session.t) :=
  do session <- get sessionId ;
  match session with
  | None => ret None
  | Some session =>
      let directions :=
        map (fun d =>
               if decide (Direction.id d = directionId)
               then Direction.with_nodes d (Direction.nodes d ++ [node])
               else d)
            (Session.directions session) in
      update now sessionId (directions_patch directions)
  end.

Definition updateNode (now : Date) (sessionId nodeId : string)
    (updates : NodePatch.t) : St (option Session.t) :=
  do session <- get sessionId ;
  match session with
  | None => ret None
  | Some session =>
      let directions :=
        map (fun d =>
               Direction.with_nodes d
                 (map (fun n =>
                         if decide (GenerationNode.id n = nodeId)
                         then NodePatch.merge n updates else n)
                      (Direction.nodes d)))
            (Session.directions session) in
      update now sessionId (directions_patch directions)
  end.

Definition deleteNode (now : Date) (sessionId nodeId : string)
    : St (option Session.t) :=
  do session <- get sessionId ;
  match session with
  | None => ret None
  | Some session =>
      let directions :=
        map (fun d =>
               Direction.with_nodes d
                 (filter (fun n => GenerationNode.id n <> nodeId)
                         (Direction.nodes d)))
            (Session.directions session) in
      update now sessionId (directions_patch directions)
  end.

(** [for (const direction of directions) { const node = nodes.find(..); if
    (node) return node }] *)
Fixpoint find_node (nodeId : string) (ds : list Direction.t)
    : option GenerationNode.t :=
  match ds with
  | [] => None
  | d :: ds' =>
      match List.find (fun n => bool_decide (GenerationNode.id n = nodeId))
                      (Direction.nodes d) with
      | Some n => Some n
      | None => find_node nodeId ds'
      end
  end.

Definition getNode (sessionId nodeId : string)
    : St (option GenerationNode.t) :=
  do session <- get sessionId ;
  match session with
  | None => ret None
  | Some session => ret (find_node nodeId (Session.directions session))
  end.

Definition find_direction (directionId : string) (ds : list Direction.t)
    : option Direction.t :=
  List.find (fun d => bool_decide (Direction.id d = directionId)) ds.

Definition getDirection (sessionId directionId : string)
    : St (option Direction.t) :=
  do session <- get sessionId ;
  match session with
  | None => ret None
  | Some session =>
      ret (find_direction directionId (Session.directions session))
  end.

Definition updatePreferences (now : Date) (sessionId : string)
    (updates : PreferencePatch.t) : St (option Session.t) :=
  do session <- get sessionId ;
  match session with
  | None => ret None
  | Some session =>
      update now sessionId
        (SessionPatch.mk None None None None None None None
           (Some (PreferencePatch.merge now (Session.preferences session)
                    updates))
           None None)
  end.

(** ** Persistence *)

(** [path.join(process.cwd(), 'data', 'sessions')], relative to the working
    directory. *)
Definition DATA_DIR : string := "data/sessions".

Definition path_join (dir file : string) : string := dir +:+ "/" +:+ file.

(** [path.join(DATA_DIR, `${sessionId}.json`)] *)
Definition session_path (sessionId : string) : string :=
  path_join DATA_DIR (sessionId +:+ ".json").

(** [JSON.stringify(session, null, 2)] *)
Definition document (s : Session.t) : Json.t :=
  JsValue.stringify (Encode.session s).

(** The loop of [flushDirty] over [toFlush]; [write_ok path] tells whether
    [writeFile] to [path] succeeds in this cycle. *)
Fixpoint flush_loop (write_ok : string -> bool)
    (toFlush : list string) (sessions : list (string * Session.t))
    (dirty : list string) (disk : Disk) : list string * Disk :=
  match toFlush with
  | [] => (dirty, disk)
  | sessionId :: rest =>
      match JsMap.get sessionId sessions with
      | Some session =>
          let filePath := session_path sessionId in
          if write_ok filePath
          then flush_loop write_ok rest sessions dirty
                 (<[filePath := document session]> disk)
          else flush_loop write_ok rest sessions
                 (JsSet.add sessionId dirty) disk
      | None => flush_loop write_ok rest sessions dirty disk
      end
  end.

(** [flushDirty]; [mkdir_ok] tells whether creating the data directory
    succeeds. *)
Definition flushDirty (mkdir_ok : bool) (write_ok : string -> bool)
    (st : Store) (disk : Disk) : outcome unit * Store * Disk :=
  if (JsSet.size (dirty st) =? 0)%nat then (Returned tt, st, disk)
  else if negb mkdir_ok then (Thrown "mkdir failed", st, disk)
  else
    let toFlush := dirty st in
    let '(dirty', disk') :=
      flush_loop write_ok toFlush (sessions st) (JsSet.clear (dirty st)) disk in
    (Returned tt, mkStore (sessions st) dirty' (initialized st), disk').

(** The periodic task: [this.flushDirty().catch(console.error)]. *)
Definition periodic_flush (mkdir_ok : bool) (write_ok : string -> bool)
    (st : Store) (disk : Disk) : Store * Disk :=
  let '(_, st', disk') := flushDirty mkdir_ok write_ok st disk in (st', disk').

(** [unlink]: it throws when the file is missing or when the call fails
    ([unlink_ok = false]). *)
Definition unlink (unlink_ok : bool) (filePath : string) (disk : Disk)
    : outcome Disk :=
  match disk !! filePath with
  | Some _ =>
      if unlink_ok then Returned (base.delete filePath disk)
      else Thrown "unlink failed"
  | None => Thrown "ENOENT"
  end.

Definition delete (unlink_ok : bool) (sessionId : string)
    (st : Store) (disk : Disk) : bool * Store * Disk :=
  let '(_, st) := ensureInitialized st in
  let exists_ := JsMap.has sessionId (sessions st) in
  if negb exists_ then (false, st, disk)
  else
    let st := mkStore (JsMap.delete sessionId (sessions st))
                      (JsSet.delete sessionId (dirty st)) (initialized st) in
    let disk :=
      match unlink unlink_ok (session_path sessionId) disk with
      | Returned disk' => disk'
      | Thrown _ => disk
      end in
    (true, st, disk).

(** ** Reloading at the level of documents

    [loadAll] casts what [JSON.parse(content, this.reviver)] returns to
    [Session]: the value kept in memory is the revived tree. *)

Fixpoint ends_with_aux (suffix s : string) (n : nat) : bool :=
  match n with
  | O => bool_decide (s = suffix)
  | S n' =>
      match s with
      | EmptyString => false
      | String _ s' => ends_with_aux suffix s' n'
      end
  end.

(** [file.endsWith(suffix)] *)
Definition endsWith (s suffix : string) : bool :=
  ends_with_aux suffix s (String.length s - String.length suffix).

(** Key equality of a [Map] (SameValueZero); [None] is [undefined].  Objects,
    arrays and dates are compared by identity, and every parse makes new
    ones. *)
Definition sameValueZero (a b : option value) : bool :=
  match a, b with
  | None, None => true
  | Some JsValue.VNull, Some JsValue.VNull => true
  | Some (JsValue.VBool x), Some (JsValue.VBool y) => Bool.eqb x y
  | Some (JsValue.VNum x), Some (JsValue.VNum y) => Num.eqb x y
  | Some (JsValue.VStr x), Some (JsValue.VStr y) => bool_decide (x = y)
  | _, _ => false
  end.

Definition Loaded : Type := list (option value * value).

Fixpoint loaded_set (k : option value) (v : value) (m : Loaded) : Loaded :=
  match m with
  | [] => [(k, v)]
  | (k', v') :: m' =>
      if sameValueZero k' k then (k, v) :: m' else (k', v') :: loaded_set k v m'
  end.

Fixpoint loaded_get (k : option value) (m : Loaded) : option value :=
  match m with
  | [] => None
  | (k', v) :: m' => if sameValueZero k' k then Some v else loaded_get k m'
  end.

(** [loadAll] over the listing [files] returned by [readdir]; a file that
    cannot be read is skipped. *)
Fixpoint loadAll_documents (files : list string) (disk : Disk)
    (m : Loaded) : Loaded :=
  match files with
  | [] => m
  | file :: rest =>
      if endsWith file ".json" then
        match disk !! path_join DATA_DIR file with
        | Some content =>
            let session := JsValue.revive content in
            loadAll_documents rest disk
              (loaded_set (JsValue.prop "id" session) session m)
        | None => loadAll_documents rest disk m
        end
      else loadAll_documents rest disk m
  end.

(** The comparator of [list]: [b.createdAt.getTime() -
    a.createdAt.getTime()]; [None] is NaN. *)
Definition newest_first (a b : Session.t) : option Z :=
  match JsDate.getTime (Session.createdAt b),
        JsDate.getTime (Session.createdAt a) with
  | Some tb, Some ta => Some (tb - ta)
  | _, _ => None
  end.

Definition positive (r : option Z) : bool :=
  match r with Some z => 0 <? z | None => false end.

(** [Array.prototype.sort] is stable: [x] moves behind [y] only when the
    comparator is positive on [(x, y)]. *)
Fixpoint sort_insert {A} (cmp : A -> A -> option Z) (x : A) (l : list A)
    : list A :=
  match l with
  | [] => [x]
  | y :: l' =>
      if positive (cmp x y) then y :: sort_insert cmp x l' else x :: l
  end.

Definition sort {A} (cmp : A -> A -> option Z) (l : list A) : list A :=
  foldr (sort_insert cmp) [] l.

Definition list : St (Datatypes.list Session.t) :=
  ensureInitialized ;;
  fun st => (sort newest_first (JsMap.values (sessions st)), st).

End WithDisk.
End SessionStore.

(* ================================================================== *)
(** * Events ([events.ts]) *)
(* ================================================================== *)

Module Events.

Inductive StreamEventType : Type :=
| session_update | salience_extracted | directions_planned | job_queued
| generation_progress | generation_complete | node_created | error
| heartbeat.

#[global] Instance StreamEventType_eq_dec : EqDecision StreamEventType.
Proof. solve_decision. Defined.

(** The event name under which a type is emitted. *)
Definition name (t : StreamEventType) : string :=
  match t with
  | session_update => "session_update"
  | salience_extracted => "salience_extracted"
  | directions_planned => "directions_planned"
  | job_queued => "job_queued"
  | generation_progress => "generation_progress"
  | generation_complete => "generation_complete"
  | node_created => "node_created"
  | error => "error"
  | heartbeat => "heartbeat"
  end.

Inductive Stage : Type := queued | composing | gating | generating | saving.

(** The payloads the helpers build. *)
Inductive Payload : Type :=
| Progress (nodeId directionId : string) (progress : number)
    (stage : Stage) (message : string)
| Complete (nodeId directionId outputUrl : string)
    (thumbnailUrl : option string) (explanationShort : string)
| Error (nodeId : option string) (error : string)
| NodeCreated (nodeId directionId : string) (depth : number)
| SessionUpdate (state : string) (message : option string).

Record StreamEvent : Type := mkEvent {
  type : StreamEventType;
  sessionId : string;
  timestamp : Date;
  payload : Payload }.

(** The node an event is about. *)
Definition node_of (e : StreamEvent) : option string :=
  match payload e with
  | Progress n _ _ _ _ => Some n
  | Complete n _ _ _ _ => Some n
  | Error n _ => n
  | NodeCreated n _ _ => Some n
  | SessionUpdate _ _ => None
  end.

(** The emitters of all sessions.  [listeners] holds one entry per
    [emitter.on(name, handler)] of a session's emitter; an emitter that was
    never asked for has none.  [emitted] records every completed
    [emitter.emit(name, event)], oldest first. *)
Record Bus : Type := mkBus {
  listeners : list (string * string);
  emitted : list (string * StreamEvent) }.

Definition has_listener (sessionId name : string) (b : Bus) : bool :=
  bool_decide ((sessionId, name) ∈ listeners b).

(** [emitter.on(name, handler)] on the emitter of [sessionId]. *)
Definition on (sessionId name : string) (b : Bus) : Bus :=
  mkBus (listeners b ++ [(sessionId, name)]) (emitted b).

(** [EventEmitter.prototype.emit] of Node.js: an ['error'] event that no
    listener is registered for is thrown instead of being delivered; any
    other call delivers to the listeners of [name] and returns. *)
Definition emit (sessionId name : string) (e : StreamEvent) (b : Bus)
    : outcome unit * Bus :=
  if bool_decide (name = "error") && negb (has_listener sessionId "error" b)
  then (Thrown "Unhandled error.", b)
  else (Returned tt, mkBus (listeners b) (emitted b ++ [(name, e)])).

(** [emitSessionEvent]: the event goes out under its own name, then under
    the wildcard ['*'] that the stream route listens to. *)
Definition emitSessionEvent (now : Date) (sessionId : string)
    (t : StreamEventType) (p : Payload) (b : Bus)
    : outcome unit * Bus :=
  let event := mkEvent t sessionId now p in
  match emit sessionId (name t) event b with
  | (Thrown m, b') => (Thrown m, b')
  | (Returned _, b') => emit sessionId "*" event b'
  end.

(** What an observer of the stream of [sessionId] receives: the events
    emitted under ['*']. *)
Definition observed (sessionId : string) (b : Bus) : list StreamEvent :=
  map snd
    (filter (fun p => p.1 = "*" /\ Events.sessionId p.2 = sessionId)
            (emitted b)).

(** The events an observer receives about one node. *)
Definition observed_for (sessionId nodeId : string) (b : Bus)
    : list StreamEvent :=
  filter (fun e => node_of e = Some nodeId) (observed sessionId b).

End Events.

(* ================================================================== *)
(** * The generation pipeline and its queue ([pipeline.ts]) *)
(* ================================================================== *)

Module PromptPackage.
Record t : Type := mk {
  modelTarget : ModelType.t;
  prompt : string;
  negative : list string;
  params : PromptMeta.t;
  explanationShort : string;
  salienceDelta : list AxisDelta.t;
  needsRevision : bool;
  issues : list string }.
End PromptPackage.

(** [GatedPackage extends PromptPackage] *)
Module GatedPackage.
Record t : Type := mk {
  package : PromptPackage.t;
  approved : bool;
  revised : bool;
  gateIssues : list string }.
End GatedPackage.

Module GenerationJob.
Record t : Type := mk {
  id : string;
  sessionId : string;
  directionId : string;
  nodeId : string;
  parentNodeId : option string;
  mediaType : MediaType.t;
  depth : number;
  status : JobStatus.t;
  error : option string }.

Definition with_status (s : JobStatus.t) (e : option string) (j : t) : t :=
  mk (id j) (sessionId j) (directionId j) (nodeId j) (parentNodeId j)
     (mediaType j) (depth j) s e.
End GenerationJob.

Module Pipeline.

(** ** The environment of one job

    Each external call is given by the number of 200 ms timer periods that
    pass while it is outstanding and by how it ends. *)

Definition call (A : Type) : Type := nat * outcome A.

(** The response of the image API: [response.data], and for each element
    its [b64_json]. *)
Definition ImageResponse : Type := option (list (option string)).

(** The response to the request that creates a video: [ok], [status],
    [errorData.error?.message] of an error body, and [createData.id] of a
    success body (reading the body may throw). *)
Record CreateResponse : Type := mkCreate {
  create_ok : bool;
  create_status : Z;
  create_error_message : option string;
  create_id : outcome string }.

(** The body of a status response: [status], [output?.[0]?.url] and
    [error?.message]. *)
Record StatusData : Type := mkStatus {
  status_status : string;
  status_url : option string;
  status_error_message : option string }.

Record StatusResponse : Type := mkStatusResponse {
  status_ok : bool;
  status_json : outcome StatusData }.

(** The download of the finished video: [ok] and how reading the body
    ends. *)
Record DownloadResponse : Type := mkDownload {
  download_ok : bool;
  download_body : outcome unit }.

Record JobEnv : Type := mkEnv {
  composePrompt : call PromptPackage.t;
  gatePrompt : call GatedPackage.t;
  image_mkdir : call unit;
  image_generate : call ImageResponse;
  image_writeFile : call unit;
  OPENAI_API_KEY : option string;
  video_mkdir : call unit;
  video_create : call CreateResponse;
  video_status : nat -> call StatusResponse;
  video_download : call DownloadResponse;
  video_writeFile : call unit }.

(** ** The state of the process *)

(** An interval timer started by [startProgressTicker]. *)
Record Ticker : Type := mkTicker {
  handle : nat;
  ticker_sessionId : string;
  ticker_nodeId : string;
  ticker_directionId : string;
  currentProgress : number;
  endProgress : number;
  step : number }.

Record World : Type := mkWorld {
  store : SessionStore.Store;
  bus : Events.Bus;
  jobQueue : list GenerationJob.t;
  isProcessing : bool;
  (** one entry per [processQueue] call that is running: the job it has
      taken from the queue and awaits *)
  workers : list GenerationJob.t;
  tickers : list Ticker;
  nextHandle : nat;
  (** [Date.now()] *)
  clock : Z;
  (** bookkeeping of the model: the store after each call of a store
      method, the jobs in the order they were pushed and taken, and the
      jobs that left the worker loop, all oldest first *)
  history : list SessionStore.Store;
  enqueued : list string;
  started : list string;
  finished : list GenerationJob.t }.

Definition initial (st : SessionStore.Store) (b : Events.Bus) (now : Z) : World :=
  mkWorld st b [] false [] [] 0%nat now [] [] [] [].

Definition with_store (st : SessionStore.Store) (w : World) : World :=
  mkWorld st (bus w) (jobQueue w) (isProcessing w) (workers w) (tickers w)
    (nextHandle w) (clock w) (history w ++ [st]) (enqueued w) (started w)
    (finished w).

Definition with_bus (b : Events.Bus) (w : World) : World :=
  mkWorld (store w) b (jobQueue w) (isProcessing w) (workers w) (tickers w)
    (nextHandle w) (clock w) (history w) (enqueued w) (started w)
    (finished w).

Definition with_tickers (ts : list Ticker) (next : nat) (w : World) : World :=
  mkWorld (store w) (bus w) (jobQueue w) (isProcessing w) (workers w) ts
    next (clock w) (history w) (enqueued w) (started w) (finished w).

Definition with_clock (t : Z) (w : World) : World :=
  mkWorld (store w) (bus w) (jobQueue w) (isProcessing w) (workers w)
    (tickers w) (nextHandle w) t (history w) (enqueued w) (started w)
    (finished w).

Definition with_queue (q : list GenerationJob.t) (p : bool)
    (ws : list GenerationJob.t) (w : World) : World :=
  mkWorld (store w) (bus w) q p ws (tickers w) (nextHandle w) (clock w)
    (history w) (enqueued w) (started w) (finished w).

Definition with_enqueued (l : list string) (w : World) : World :=
  mkWorld (store w) (bus w) (jobQueue w) (isProcessing w) (workers w)
    (tickers w) (nextHandle w) (clock w) (history w) l (started w)
    (finished w).

Definition with_started (l : list string) (w : World) : World :=
  mkWorld (store w) (bus w) (jobQueue w) (isProcessing w) (workers w)
    (tickers w) (nextHandle w) (clock w) (history w) (enqueued w) l
    (finished w).

Definition with_finished (l : list GenerationJob.t) (w : World) : World :=
  mkWorld (store w) (bus w) (jobQueue w) (isProcessing w) (workers w)
    (tickers w) (nextHandle w) (clock w) (history w) (enqueued w)
    (started w) l.

(** ** Computations that may throw *)

Definition P (A : Type) : Type := World -> outcome A * World.

Definition ret {A} (a : A) : P A := fun w => (Returned a, w).

Definition throw {A} (message : string) : P A := fun w => (Thrown message, w).

Definition bind {A B} (m : P A) (k : A -> P B) : P B :=
  fun w =>
    match m w with
    | (Returned a, w') => k a w'
    | (Thrown e, w') => (Thrown e, w')
    end.

(** [try { m } catch (error) { h(error.message) }] *)
Definition try_catch {A} (m : P A) (h : string -> P A) : P A :=
  fun w =>
    match m w with
    | (Returned a, w') => (Returned a, w')
    | (Thrown e, w') => h e w'
    end.

Notation "'do' x <- m ; k" := (bind m (fun x => k))
  (at level 10, x name, m at level 100, k at level 200).
Notation "m ;; k" := (bind m (fun _ => k))
  (at level 100, right associativity).

(** [new Date()] *)
Definition now (w : World) : Date := JsDate.Time (clock w).

(** [x] is truthy, for a string that may be [null] or [undefined]. *)
Definition truthy (x : option string) : bool :=
  match x with
  | Some s => negb (bool_decide (s = ""))
  | None => false
  end.

(** [x || fallback] *)
Definition or_else (x : option string) (fallback : string) : string :=
  match x with
  | Some s => if bool_decide (s = "") then fallback else s
  | None => fallback
  end.

Definition of_outcome {A} (o : outcome A) : P A :=
  match o with
  | Returned a => ret a
  | Thrown e => throw e
  end.

Definition emitSessionEvent (sessionId : string)
    (t : Events.StreamEventType) (p : Events.Payload) : P unit :=
  fun w =>
    let '(r, b) := Events.emitSessionEvent (now w) sessionId t p (bus w) in
    (r, with_bus b w).

Definition emitProgress (sessionId nodeId directionId : string)
    (progress : number) (stage : Events.Stage) (message : string) : P unit :=
  emitSessionEvent sessionId Events.generation_progress
    (Events.Progress nodeId directionId progress stage message).

Definition emitComplete (sessionId nodeId directionId outputUrl : string)
    (thumbnailUrl : option string) (explanationShort : string) : P unit :=
  emitSessionEvent sessionId Events.generation_complete
    (Events.Complete nodeId directionId outputUrl thumbnailUrl
       explanationShort).

Definition emitError (sessionId : string) (nodeId : option string)
    (error : string) : P unit :=
  emitSessionEvent sessionId Events.error (Events.Error nodeId error).

Definition emitNodeCreated (sessionId nodeId directionId : string)
    (depth : number) : P unit :=
  emitSessionEvent sessionId Events.node_created
    (Events.NodeCreated nodeId directionId depth).

Section WithDisk.

Variable persisted : list Session.t.

(** A call of a store method, at the current time. *)
Definition store_call {A} (m : Date -> SessionStore.St A) : P A :=
  fun w =>
    let '(a, st) := m (now w) (store w) in
    (Returned a, with_store st w).

Definition store_get (sessionId : string) : P (option Session.t) :=
  store_call (fun _ => SessionStore.get persisted sessionId).

Definition store_getNode (sessionId nodeId : string)
    : P (option GenerationNode.t) :=
  store_call (fun _ => SessionStore.getNode persisted sessionId nodeId).

Definition store_addNode (sessionId directionId : string)
    (node : GenerationNode.t) : P (option Session.t) :=
  store_call
    (fun t => SessionStore.addNode persisted t sessionId directionId node).

Definition store_updateNode (sessionId nodeId : string)
    (updates : NodePatch.t) : P (option Session.t) :=
  store_call
    (fun t => SessionStore.updateNode persisted t sessionId nodeId updates).

Definition store_setState (sessionId : string) (state : SessionState.t)
    : P (option Session.t) :=
  store_call (fun t => SessionStore.setState persisted t sessionId state).

(** ** The progress ticker *)

(** [{ progress }] *)
Definition progress_patch (p : number) : NodePatch.t :=
  NodePatch.mk None None None None None None None None None None
    None None (Some p) None None None None None None None.

Definition set_ticker (t : Ticker) (ts : list Ticker) : list Ticker :=
  map (fun t' => if decide (handle t' = handle t) then t else t') ts.

(** One run of the interval callback of [startProgressTicker]. *)
Definition fire (t : Ticker) : P unit :=
  if Num.ltb (currentProgress t) (endProgress t) then
    let p := Num.min (Num.add (currentProgress t) (step t)) (endProgress t) in
    let t' := mkTicker (handle t) (ticker_sessionId t) (ticker_nodeId t)
                (ticker_directionId t) p (endProgress t) (step t) in
    (fun w => (Returned tt,
               with_tickers (set_ticker t' (tickers w)) (nextHandle w) w)) ;;
    store_updateNode (ticker_sessionId t) (ticker_nodeId t)
      (progress_patch p) ;;
    emitProgress (ticker_sessionId t) (ticker_nodeId t)
      (ticker_directionId t) p Events.generating "Generating..."
  else ret tt.

Definition find_ticker (h : nat) (ts : list Ticker) : option Ticker :=
  List.find (fun t => bool_decide (handle t = h)) ts.

(** One timer period of 200 ms: the clock advances and every running
    ticker fires once, in the order the tickers were started. *)
Definition period (w : World) : World :=
  fold_left
    (fun w h =>
       match find_ticker h (tickers w) with
       | Some t => snd (fire t w)
       | None => w
       end)
    (map handle (tickers w))
    (with_clock (clock w + 200) w).

(** Suspension for [n] timer periods. *)
Definition sleep (n : nat) : P unit :=
  fun w => (Returned tt, Nat.iter n period w).

(** [await] of an external call. *)
Definition await {A} (c : call A) : P A :=
  sleep c.1 ;; of_outcome c.2.

Definition startProgressTicker (sessionId nodeId directionId : string)
    (startProgress endProgress : number) : P nat :=
  fun w =>
    let h := nextHandle w in
    let step := Num.div (Num.sub endProgress startProgress) (Num.of_Z 50) in
    (Returned h,
     with_tickers
       (tickers w ++ [mkTicker h sessionId nodeId directionId startProgress
                        endProgress step])
       (S h) w).

(** [ticker.stop()] *)
Definition stop (h : nat) : P unit :=
  fun w =>
    (Returned tt,
     with_tickers (filter (fun t => handle t <> h) (tickers w))
       (nextHandle w) w).

(** ** Image generation *)

Definition generateImage (env : JobEnv) (sessionId nodeId directionId : string)
    (pkg : GatedPackage.t) : P string :=
  do ticker <- startProgressTicker sessionId nodeId directionId
                 (Num.of_Z 40) (Num.of_Z 90) ;
  try_catch
    (await (image_mkdir env) ;;
     emitProgress sessionId nodeId directionId (Num.of_Z 50)
       Events.generating "Creating image..." ;;
     do response <- await (image_generate env) ;
     stop ticker ;;
     emitProgress sessionId nodeId directionId (Num.of_Z 85)
       Events.saving "Saving image..." ;;
     match response with
     | None | Some [] => throw "No image data returned from API"
     | Some (b64_json :: _) =>
         if negb (truthy b64_json)
         then throw "No base64 image data returned from API"
         else
           await (image_writeFile env) ;;
           ret ("/uploads/generated/" +:+ sessionId +:+ "/" +:+ nodeId
                +:+ ".png")
     end)
    (fun message =>
       stop ticker ;;
       throw ("Image generation failed: " +:+ message)).

(** ** Video generation *)

Definition maxAttempts : nat := 120.

(** The polling loop, [remaining] iterations before [attempts] reaches
    [maxAttempts]; the result is [videoUrl]. *)
Fixpoint poll (env : JobEnv) (sessionId nodeId directionId : string)
    (remaining attempts : nat) : P (option string) :=
  match remaining with
  | O => ret None
  | S remaining' =>
      sleep 25 ;;
      let attempts := S attempts in
      let progress :=
        Num.add (Num.of_Z 50)
          (Num.min (Num.of_Z 35) (Num.mul (Num.of_nat attempts) Num.half)) in
      emitProgress sessionId nodeId directionId progress Events.generating
        "Rendering video..." ;;
      do statusResponse <- await (video_status env attempts) ;
      if negb (status_ok statusResponse)
      then poll env sessionId nodeId directionId remaining' attempts
      else
        do statusData <- of_outcome (status_json statusResponse) ;
        if bool_decide (status_status statusData = "completed")
           && truthy (status_url statusData)
        then ret (status_url statusData)
        else if bool_decide (status_status statusData = "failed")
        then throw (or_else (status_error_message statusData)
                      "Video generation failed")
        else poll env sessionId nodeId directionId remaining' attempts
  end.

Definition generateVideo (env : JobEnv) (sessionId nodeId directionId : string)
    (pkg : GatedPackage.t) : P string :=
  do ticker <- startProgressTicker sessionId nodeId directionId
                 (Num.of_Z 40) (Num.of_Z 90) ;
  if negb (truthy (OPENAI_API_KEY env))
  then throw "OPENAI_API_KEY is not configured"
  else
    try_catch
      (await (video_mkdir env) ;;
       emitProgress sessionId nodeId directionId (Num.of_Z 45)
         Events.generating "Initiating video generation..." ;;
       do createResponse <- await (video_create env) ;
       (if negb (create_ok createResponse)
        then throw (or_else (create_error_message createResponse)
                      ("API error: " +:+ pretty (create_status createResponse)))
        else ret tt) ;;
       do jobId <- of_outcome (create_id createResponse) ;
       emitProgress sessionId nodeId directionId (Num.of_Z 50)
         Events.generating "Video rendering in progress..." ;;
       do videoUrl <- poll env sessionId nodeId directionId maxAttempts 0 ;
       match videoUrl with
       | None => throw "Video generation timed out"
       | Some _ =>
           stop ticker ;;
           emitProgress sessionId nodeId directionId (Num.of_Z 88)
             Events.saving "Downloading video..." ;;
           do videoResponse <- await (video_download env) ;
           if negb (download_ok videoResponse)
           then throw "Failed to download generated video"
           else
             of_outcome (download_body videoResponse) ;;
             await (video_writeFile env) ;;
             ret ("/uploads/generated/" +:+ sessionId +:+ "/" +:+ nodeId
                  +:+ ".mp4")
       end)
      (fun message =>
         stop ticker ;;
         throw ("Video generation failed: " +:+ message)).

(** ** One job *)

(** [{ status: 'generating', progress: 5 }] *)
Definition generating_patch : NodePatch.t :=
  NodePatch.mk None None None (Some NodeStatus.generating) None None None
    None None None None None (Some (Num.of_Z 5)) None None None None None
    None None.

(** [{ prompt, promptMeta, negative, explanationShort, salienceDelta,
    progress: 40 }] *)
Definition prompt_patch (g : GatedPackage.t) : NodePatch.t :=
  let pkg := GatedPackage.package g in
  NodePatch.mk None None None None None None
    (Some (Some (PromptPackage.prompt pkg)))
    (Some (Some (PromptPackage.params pkg)))
    (Some (PromptPackage.negative pkg))
    (Some (Some (PromptPackage.explanationShort pkg)))
    None None (Some (Num.of_Z 40)) None None None None
    (Some (PromptPackage.salienceDelta pkg)) None None.

(** [{ status: 'complete', outputUrl, thumbnailUrl: outputUrl,
    progress: 100, completedAt: new Date() }] *)
Definition complete_patch (outputUrl : string) (t : Date) : NodePatch.t :=
  NodePatch.mk None None None (Some NodeStatus.complete) None None None
    None None None (Some (Some outputUrl)) (Some (Some outputUrl))
    (Some (Num.of_Z 100)) None None None None None None (Some (Some t)).

(** [{ status: 'error', error }] *)
Definition error_patch (message : string) : NodePatch.t :=
  NodePatch.mk None None None (Some NodeStatus.error) None None None
    None None None None None None None (Some (Some message)) None None None
    None None.

Definition processJob (env : JobEnv) (job : GenerationJob.t) : P unit :=
  let sessionId := GenerationJob.sessionId job in
  let nodeId := GenerationJob.nodeId job in
  let directionId := GenerationJob.directionId job in
  do session <- store_get sessionId ;
  match session with
  | None => throw "Session not found"
  | Some session =>
  match SessionStore.find_direction directionId (Session.directions session)
  with
  | None => throw "Direction not found"
  | Some direction =>
      store_updateNode sessionId nodeId generating_patch ;;
      emitProgress sessionId nodeId directionId (Num.of_Z 5)
        Events.composing "Composing prompt..." ;;
      do parentNode <-
        (match GenerationJob.parentNodeId job with
         | Some parent =>
             if truthy (Some parent) then store_getNode sessionId parent
             else ret None
         | None => ret None
         end) ;
      emitProgress sessionId nodeId directionId (Num.of_Z 15)
        Events.composing "Composing prompt..." ;;
      do promptPackage <- await (composePrompt env) ;
      if PromptPackage.needsRevision promptPackage
      then throw ("Prompt composition failed: "
                  +:+ String.concat "; " (PromptPackage.issues promptPackage))
      else
        emitProgress sessionId nodeId directionId (Num.of_Z 30)
          Events.gating "Validating prompt..." ;;
        do gatedPackage <- await (gatePrompt env) ;
        if negb (GatedPackage.approved gatedPackage)
        then throw ("Prompt rejected: "
                    +:+ String.concat "; "
                          (GatedPackage.gateIssues gatedPackage))
        else
          store_updateNode sessionId nodeId (prompt_patch gatedPackage) ;;
          emitProgress sessionId nodeId directionId (Num.of_Z 40)
            Events.generating "Generating..." ;;
          do outputUrl <-
            (match GenerationJob.mediaType job with
             | MediaType.image =>
                 generateImage env sessionId nodeId directionId gatedPackage
             | MediaType.video =>
                 generateVideo env sessionId nodeId directionId gatedPackage
             end) ;
          emitProgress sessionId nodeId directionId (Num.of_Z 95)
            Events.saving "Saving..." ;;
          (fun w =>
             store_updateNode sessionId nodeId
               (complete_patch outputUrl (now w)) w) ;;
          emitComplete sessionId nodeId directionId outputUrl
            (Some outputUrl)
            (PromptPackage.explanationShort
               (GatedPackage.package gatedPackage))
  end
  end.

(** ** The worker loop *)

(** The head of the [while] loop of the [processQueue] call number [i]:
    with a job in the queue, [jobQueue.shift()] and [job.status =
    'processing'], up to [await processJob(job)]; with an empty queue,
    [isProcessing = false] and the call returns. *)
Definition take_next (i : nat) (w : World) : World :=
  match jobQueue w with
  | [] => with_queue [] false (base.delete i (workers w)) w
  | job :: rest =>
      let job := GenerationJob.with_status JobStatus.processing
                   (GenerationJob.error job) job in
      with_started (started w ++ [GenerationJob.id job])
        (with_queue rest (isProcessing w) (<[i := job]> (workers w)) w)
  end.

(** A call of [processQueue], up to its first [await]. *)
Definition processQueue (w : World) : World :=
  if isProcessing w then w
  else
    match jobQueue w with
    | [] => with_queue [] false (workers w) w
    | job :: rest =>
        let job := GenerationJob.with_status JobStatus.processing
                     (GenerationJob.error job) job in
        with_started (started w ++ [GenerationJob.id job])
          (with_queue rest true (workers w ++ [job]) w)
    end.

(** The [processQueue] call number [i] resumes: it runs its job to the end
    ([try { await processJob(job) } catch { ... }]) and goes back to the
    head of the loop.  When the [catch] block itself throws, the call ends
    there: its promise is rejected and logged by
    [.catch(console.error)]. *)
Definition worker_step (env : JobEnv) (i : nat) (w : World) : World :=
  match workers w !! i with
  | None => w
  | Some job =>
      match processJob env job w with
      | (Returned _, w1) =>
          let job := GenerationJob.with_status JobStatus.completed
                       (GenerationJob.error job) job in
          take_next i (with_finished (finished w1 ++ [job]) w1)
      | (Thrown message, w1) =>
          let job := GenerationJob.with_status JobStatus.failed
                       (Some message) job in
          let w1 := with_finished (finished w1 ++ [job]) w1 in
          match (store_updateNode (GenerationJob.sessionId job)
                   (GenerationJob.nodeId job) (error_patch message) ;;
                 emitError (GenerationJob.sessionId job)
                   (Some (GenerationJob.nodeId job)) message) w1 with
          | (Returned _, w2) => take_next i w2
          | (Thrown _, w2) =>
              with_queue (jobQueue w2) (isProcessing w2)
                (base.delete i (workers w2)) w2
          end
      end
  end.

(** ** Enqueueing *)

Definition new_node (nodeId directionId : string) (depth : number)
    (mediaType : MediaType.t) (parentNodeId : option string) (t : Date)
    : GenerationNode.t :=
  GenerationNode.mk nodeId directionId depth NodeStatus.queued mediaType
    (match mediaType with
     | MediaType.image => ModelType.gpt_image_1_5
     | MediaType.video => ModelType.sora_2
     end)
    None None [] None None None (Num.of_Z 0) None None false parentNodeId []
    t None.

(** [enqueueGeneration]; [nodeId] and [jobId] are the two values that
    [crypto.randomUUID()] returns. *)
Definition enqueueGeneration (nodeId jobId : string)
    (sessionId directionId : string) (parentNodeId : option string)
    (mediaType : MediaType.t) (depth : number) : P (string * string) :=
  do session <- store_get sessionId ;
  match session with
  | None => throw "Session not found"
  | Some session =>
  match SessionStore.find_direction directionId (Session.directions session)
  with
  | None => throw "Direction not found"
  | Some direction =>
      (fun w =>
         store_addNode sessionId directionId
           (new_node nodeId directionId depth mediaType parentNodeId (now w))
           w) ;;
      emitNodeCreated sessionId nodeId directionId depth ;;
      let job := GenerationJob.mk jobId sessionId directionId nodeId
                   parentNodeId mediaType depth JobStatus.queued None in
      (fun w =>
         (Returned tt,
          with_enqueued (enqueued w ++ [jobId])
            (with_queue (jobQueue w ++ [job]) (isProcessing w) (workers w)
               w))) ;;
      (fun w => (Returned tt, processQueue w)) ;;
      ret (nodeId, jobId)
  end
  end.

(** ** The route [POST /api/salience/session/[sessionId]/generate] *)

Record GenerateRequest : Type := mkRequest {
  req_directionId : option string;
  req_parentNodeId : option string;
  req_mediaType : option MediaType.t;
  req_depth : option number }.

Inductive ResponseBody : Type :=
| ErrorBody (error : string) (message : option string)
| GeneratedBody (nodeId jobId directionId : string) (depth : number)
    (mediaType : MediaType.t).

Record Response : Type := mkResponse {
  status : Z;
  body : ResponseBody }.

Definition respond (status : Z) (body : ResponseBody) : P Response :=
  ret (mkResponse status body).

Definition POST_generate (nodeId jobId : string) (sessionId : string)
    (request : GenerateRequest) : World -> Response * World :=
  fun w =>
  let handler : P Response :=
    let mediaType := default MediaType.image (req_mediaType request) in
    if negb (truthy (req_directionId request))
    then respond 400 (ErrorBody "directionId is required" None)
    else
      let directionId := default "" (req_directionId request) in
      do session <- store_get sessionId ;
      match session with
      | None => respond 404 (ErrorBody "Session not found" None)
      | Some session =>
      if negb (bool_decide (is_Some (Session.salienceProfile session)))
         || (length (Session.directions session) =? 0)%nat
      then respond 400
             (ErrorBody "Session must be analyzed before generation" None)
      else
      match SessionStore.find_direction directionId
              (Session.directions session) with
      | None => respond 404 (ErrorBody "Direction not found" None)
      | Some direction =>
          let actualDepth :=
            match req_depth request with
            | Some depth => depth
            | None =>
                Num.add (Num.of_nat (length (Direction.nodes direction)))
                  (Num.of_Z 1)
            end in
          if Num.gtb actualDepth (Num.of_Z 5)
          then respond 400
                 (ErrorBody "Maximum depth reached"
                    (Some "Depth 5/5 reached. Branch from any node to continue."))
          else
            do parentOk <-
              (if truthy (req_parentNodeId request)
               then
                 do parentNode <-
                   store_getNode sessionId
                     (default "" (req_parentNodeId request)) ;
                 ret (bool_decide (is_Some parentNode))
               else ret true) ;
            if negb parentOk
            then respond 404 (ErrorBody "Parent node not found" None)
            else
              do ids <- enqueueGeneration nodeId jobId sessionId directionId
                          (req_parentNodeId request) mediaType actualDepth ;
              store_setState sessionId SessionState.generating ;;
              respond 200
                (GeneratedBody ids.1 ids.2 directionId actualDepth mediaType)
      end
      end in
  match handler w with
  | (Returned r, w') => (r, w')
  | (Thrown message, w') => (mkResponse 500 (ErrorBody message None), w')
  end.

(** ** Interleavings

    What may happen next in the process: a request handler enqueues a job,
    a running [processQueue] call resumes, timers fire while everything
    else is suspended, or a handler calls a store method. *)
Inductive moves : World -> World -> Prop :=
| step_enqueue (w : World) (nodeId jobId sessionId directionId : string)
    (parentNodeId : option string) (mediaType : MediaType.t)
    (depth : number) :
    moves w (enqueueGeneration nodeId jobId sessionId directionId
              parentNodeId mediaType depth w).2
| step_worker (w : World) (env : JobEnv) (i : nat) :
    moves w (worker_step env i w)
| step_timers (w : World) (n : nat) :
    moves w (sleep n w).2
| step_store (w : World) (A : Type) (m : Date -> SessionStore.St A) :
    moves w (store_call m w).2.

(** The worlds the process can be in, from a start with no job. *)
Inductive reachable (w0 : World) : World -> Prop :=
| reach_start : reachable w0 w0
| reach_step (w w' : World) : reachable w0 w -> moves w w' -> reachable w0 w'.

End WithDisk.
End Pipeline.

(* ================================================================== *)
(** * Sample values *)
(* ================================================================== *)

Module Sample.

Definition t0 : Date := JsDate.Time 1700000000000.
Definition t1 : Date := JsDate.Time 1700000060000.

Definition profile : SalienceProfile.t :=
  SalienceProfile.mk
    [SalienceAxis.mk "cinematic_scale" (4 # 5)%Q (7 # 10)%Q
       ("intimate", "epic")]
    ["cinematic"] ["flat_lighting"] [] [] [] "Moody, wide shots." t0.

Definition direction (id : string) (nodes : list GenerationNode.t)
    : Direction.t :=
  Direction.mk id (Num.of_Z 0) "Cinematic escalation" "Push the scale"
    (DirectionVector.mk [AxisDelta.mk "cinematic_scale" (1 # 5)%Q] []
       ["epic"] [])
    (PromptSkeleton.mk "a lighthouse" "wide shot" "moody" [])
    nodes t0.

Definition node (id : string) (depth : Z) : GenerationNode.t :=
  GenerationNode.mk id "dir-1" (Num.of_Z depth) NodeStatus.complete
    MediaType.image ModelType.gpt_image_1_5 (Some "a lighthouse") None []
    None (Some "/uploads/generated/s-1/n.png") None (Num.of_Z 100) None None
    false None [] t0 (Some t0).

Definition session (state : SessionState.t) (caption : string)
    (directions : list Direction.t) : Session.t :=
  Session.mk "s-1" SessionMode.character_design state
    ["https://example.com/a.png"] caption (Some profile) directions
    (PreferenceState.mk [] (3 # 10)%Q [] t0) t0 t0.

(** A session whose directions are planned, with one empty direction. *)
Definition planned : Session.t :=
  session SessionState.directions_planned "a lighthouse at dusk"
    [direction "dir-1" []].

Definition store_of (s : Session.t) : SessionStore.Store :=
  SessionStore.mkStore [(Session.id s, s)] [] true.

(** The process right after start, with one observer connected to the
    stream of the session. *)
Definition world_of (s : Session.t) : Pipeline.World :=
  Pipeline.initial (store_of s) (Events.mkBus [(Session.id s, "*")] [])
    1700000060000.

(** A request that names a depth. *)
Definition request_depth_3 : Pipeline.GenerateRequest :=
  Pipeline.mkRequest (Some "dir-1") None None (Some (Num.of_Z 3)).

(** A request that leaves the depth out. *)
Definition request_no_depth : Pipeline.GenerateRequest :=
  Pipeline.mkRequest (Some "dir-1") None None None.

(** A session whose direction already holds five nodes. *)
Definition full : Session.t :=
  session SessionState.generating "a lighthouse at dusk"
    [direction "dir-1" [node "n-a" 1; node "n-b" 2; node "n-c" 3;
                        node "n-d" 4; node "n-e" 5]].

Definition package : PromptPackage.t :=
  PromptPackage.mk ModelType.gpt_image_1_5 "a lighthouse, wide shot" []
    (PromptMeta.mk "16:9" (Num.of_Z 7) (1 # 2)%Q (Num.of_Z 6) None None)
    "Wider and moodier." [AxisDelta.mk "cinematic_scale" (1 # 10)%Q]
    false [].

Definition gated : GatedPackage.t := GatedPackage.mk package true false [].

(** Calls that are not reached in the samples. *)
Definition unused {A} : Pipeline.call A := (0%nat, Thrown "not reached").

(** An image job in which every call succeeds; composing and gating take
    one timer period each and the image API two. *)
Definition image_succeeds : Pipeline.JobEnv :=
  Pipeline.mkEnv (1%nat, Returned package) (1%nat, Returned gated)
    (0%nat, Returned tt) (2%nat, Returned (Some [Some "iVBORw0KGgo="]))
    (0%nat, Returned tt)
    None unused unused (fun _ => unused) unused unused.

(** A job whose composition asks for a revision. *)
Definition needs_revision : Pipeline.JobEnv :=
  Pipeline.mkEnv
    (1%nat,
     Returned
       (PromptPackage.mk ModelType.gpt_image_1_5 "" []
          (PromptMeta.mk "1:1" (Num.of_Z 0) (Num.of_Z 0) (Num.of_Z 1)
             None None)
          "" [] true ["subject unclear"; "no style"]))
    unused unused unused unused None unused unused (fun _ => unused) unused
    unused.

(** The world after one accepted request for the first node of
    [planned]. *)
Definition one_enqueued : Pipeline.World :=
  (Pipeline.POST_generate [] "n-1" "j-1" "s-1" request_no_depth
     (world_of planned)).2.

(** The job of that request, as the worker loop holds it, and its node as
    the store holds it. *)
Definition taken_job : GenerationJob.t :=
  GenerationJob.mk "j-1" "s-1" "dir-1" "n-1" None MediaType.image
    (Num.of_Z 1) JobStatus.processing None.

Definition taken_node : GenerationNode.t :=
  Pipeline.new_node "n-1" "dir-1" (Num.of_Z 1) MediaType.image None t1.

(** The world after a second accepted request. *)
Definition two_enqueued : Pipeline.World :=
  (Pipeline.POST_generate [] "n-2" "j-2" "s-1" request_no_depth
     one_enqueued).2.

(** A session whose caption is a date-time string. *)
Definition dated_caption : Session.t :=
  session SessionState.initializing "2024-01-01T00:00:00.000Z" [].

End Sample.

(* ================================================================== *)
(** * Notions used to state the properties *)
(* ================================================================== *)

(** The store once [ensureInitialized] has run. *)
Definition loaded (persisted : list Session.t) (st : SessionStore.Store) : SessionStore.Store :=
  (SessionStore.ensureInitialized persisted st).2.

(** The store after a successful [update]. *)
Definition updated_store (sessionId : string) (s : Session.t)
    (st : SessionStore.Store) : SessionStore.Store :=
  SessionStore.mkStore
    (JsMap.set sessionId s (SessionStore.sessions st))
    (JsSet.add sessionId (SessionStore.dirty st))
    (SessionStore.initialized st).

(** What [updateNode] does to the directions of a session. *)
Definition patched_directions (nodeId : string) (updates : NodePatch.t)
    (ds : list Direction.t) : list Direction.t :=
  map (fun d =>
         Direction.with_nodes d
           (map (fun n =>
                   if decide (GenerationNode.id n = nodeId)
                   then NodePatch.merge n updates else n)
                (Direction.nodes d)))
      ds.

(** What [addNode] does to the directions of a session. *)
Definition extended_directions (directionId : string)
    (node : GenerationNode.t) (ds : list Direction.t) : list Direction.t :=
  map (fun d =>
         if decide (Direction.id d = directionId)
         then Direction.with_nodes d (Direction.nodes d ++ [node])
         else d)
      ds.

(** Every session is stored under its own id, as [create] and [loadAll]
    store it. *)
Definition keyed_by_id (st : SessionStore.Store) : Prop :=
  forall k s, (k, s) ∈ SessionStore.sessions st -> Session.id s = k.

(** ** The order of events that the specification claims for one node *)

Definition progress_of (e : Events.StreamEvent) : option number :=
  match Events.payload e with
  | Events.Progress _ _ p _ _ => Some p
  | _ => None
  end.

Fixpoint nondecreasing (l : list number) : bool :=
  match l with
  | a :: (b :: _) as rest => Num.leb a b && nondecreasing rest
  | _ => true
  end.

Definition is_terminal (e : Events.StreamEvent) : bool :=
  bool_decide (Events.type e = Events.generation_complete)
  || bool_decide (Events.type e = Events.error).

Definition is_progress (e : Events.StreamEvent) : bool :=
  bool_decide (Events.type e = Events.generation_progress).

(** One [node_created], then [generation_progress] events with
    non-decreasing values, then exactly one [generation_complete] or
    [error]. *)
Definition in_claimed_order (l : list Events.StreamEvent) : bool :=
  match l with
  | first :: rest =>
      bool_decide (Events.type first = Events.node_created)
      && match rev rest with
         | last :: middle =>
             is_terminal last
             && forallb is_progress middle
             && nondecreasing (omap progress_of (rev middle))
         | [] => false
         end
  | [] => false
  end.

(** ** Invariants of computations *)

(** [m] keeps [I]: from a world in [I] it ends, returning or throwing, in
    a world in [I]. *)
Definition keeps {A} (I : Pipeline.World -> Prop) (m : Pipeline.P A) : Prop :=
  forall w, I w -> I (m w).2.

(** The part of the world that belongs to the queue. *)
Definition queue_view (w : Pipeline.World)
    : list GenerationJob.t * bool * list GenerationJob.t * list string
      * list string :=
  (Pipeline.jobQueue w, Pipeline.isProcessing w, Pipeline.workers w,
   Pipeline.enqueued w, Pipeline.started w).

(** The jobs that are being processed. *)
Definition processing (w : Pipeline.World) : list GenerationJob.t :=
  Pipeline.workers w.

(** A start of the process: no job, no worker loop. *)
Definition idle_start (w : Pipeline.World) : Prop :=
  Pipeline.jobQueue w = [] /\ Pipeline.isProcessing w = false /\
  Pipeline.workers w = [] /\ Pipeline.enqueued w = [] /\
  Pipeline.started w = [].

(** The invariant of the queue: at most one job is being processed; it has
    status [processing], and the flag is set while it runs; the jobs taken
    so far followed by the jobs still queued are the jobs pushed so far;
    the queued jobs have status [queued]. *)
Definition queue_ok (w : Pipeline.World) : Prop :=
  (length (processing w) <= 1)%nat /\
  Forall (fun j => GenerationJob.status j = JobStatus.processing)
    (processing w) /\
  (processing w <> [] -> Pipeline.isProcessing w = true) /\
  Pipeline.started w ++ map GenerationJob.id (Pipeline.jobQueue w)
  = Pipeline.enqueued w /\
  Forall (fun j => GenerationJob.status j = JobStatus.queued)
    (Pipeline.jobQueue w).

(** ** The stored node of a job *)

(** The node [nodeId] of the session [sessionId], as [getNode] finds it. *)
Definition node_at (sessionId nodeId : string) (st : SessionStore.Store)
    : option GenerationNode.t :=
  match JsMap.get sessionId (SessionStore.sessions st) with
  | Some s => SessionStore.find_node nodeId (Session.directions s)
  | None => None
  end.

(** Progress is 100 exactly when the status is [complete]. *)
Definition full_iff_complete (n : GenerationNode.t) : Prop :=
  (GenerationNode.progress n == 100)%Q
  <-> GenerationNode.status n = NodeStatus.complete.

(** The ticker reports on the node [nodeId] of the session [sessionId]. *)
Definition ticker_for (sessionId nodeId : string) (t : Pipeline.Ticker)
    : Prop :=
  Pipeline.ticker_sessionId t = sessionId /\ Pipeline.ticker_nodeId t = nodeId.

(** Timer handles are distinct and were all handed out already. *)
Definition tickers_wf (w : Pipeline.World) : Prop :=
  NoDup (map Pipeline.handle (Pipeline.tickers w)) /\
  Forall (fun t => (Pipeline.handle t < Pipeline.nextHandle w)%nat)
    (Pipeline.tickers w).

(** The states of the node in a run of stores that starts with the node in
    state [n0]: the node is in every store, its progress never goes back
    from one store to the next, and progress is 100 exactly when the status
    is [complete].  The last argument is the last state. *)
Inductive trail (sessionId nodeId : string) (n0 : GenerationNode.t)
    : list SessionStore.Store -> GenerationNode.t -> Prop :=
| trail_nil : full_iff_complete n0 -> trail sessionId nodeId n0 [] n0
| trail_snoc (l : list SessionStore.Store) (n : GenerationNode.t)
    (st : SessionStore.Store) (n' : GenerationNode.t) :
    trail sessionId nodeId n0 l n ->
    node_at sessionId nodeId st = Some n' ->
    (GenerationNode.progress n <= GenerationNode.progress n')%Q ->
    full_iff_complete n' ->
    trail sessionId nodeId n0 (l ++ [st]) n'.

(** The part of the world that the node of a job depends on. *)
Definition core (w : Pipeline.World)
    : SessionStore.Store * list SessionStore.Store * list Pipeline.Ticker
      * nat :=
  (Pipeline.store w, Pipeline.history w, Pipeline.tickers w,
   Pipeline.nextHandle w).

Section Phases.
Variables (sessionId nodeId : string).
Variable history0 : list SessionStore.Store.
Variable n0 : GenerationNode.t.

(** The node is in the store in state [n], the store is initialised, the
    history since [history0] is a trail from [n0] to [n], and the timers
    are well formed. *)
Definition good (w : Pipeline.World) (n : GenerationNode.t) : Prop :=
  (exists new, Pipeline.history w = history0 ++ new
               /\ trail sessionId nodeId n0 new n) /\
  node_at sessionId nodeId (Pipeline.store w) = Some n /\
  SessionStore.initialized (Pipeline.store w) = true /\
  tickers_wf w.

(** The node is in a good state [n] that satisfies [Q] together with the
    running tickers. *)
Definition phase (Q : GenerationNode.t -> list Pipeline.Ticker -> Prop)
    (w : Pipeline.World) : Prop :=
  exists n, good w n /\ Q n (Pipeline.tickers w).

(** No ticker runs for the node, which is not complete and has progress at
    most [b]. *)
Definition Open (b : number) : Pipeline.World -> Prop :=
  phase (fun n ts =>
    GenerationNode.status n <> NodeStatus.complete /\
    (GenerationNode.progress n <= b)%Q /\
    Forall (fun t => ~ ticker_for sessionId nodeId t) ts).

(** The ticker with handle [h], and no other, runs for the node, which is
    not complete; the ticker is at or ahead of the stored progress and
    stays at or below 90. *)
Definition Running (h : nat) : Pipeline.World -> Prop :=
  phase (fun n ts =>
    GenerationNode.status n <> NodeStatus.complete /\
    (forall t', t' ∈ ts -> ticker_for sessionId nodeId t' ->
                Pipeline.handle t' = h) /\
    exists t, t ∈ ts /\ Pipeline.handle t = h /\
      ticker_for sessionId nodeId t /\
      (GenerationNode.progress n <= Pipeline.currentProgress t)%Q /\
      (Pipeline.currentProgress t <= 90)%Q /\
      (Pipeline.endProgress t <= 90)%Q /\
      (0 <= Pipeline.step t)%Q).

(** The node is complete with progress 100 and no ticker runs for it. *)
Definition Done : Pipeline.World -> Prop :=
  phase (fun n ts =>
    GenerationNode.status n = NodeStatus.complete /\
    (GenerationNode.progress n == 100)%Q /\
    Forall (fun t => ~ ticker_for sessionId nodeId t) ts).

(** While the [try] block of a generator runs, the ticker runs or was
    stopped. *)
Definition Mid (h : nat) (w : Pipeline.World) : Prop :=
  Running h w \/ Open (Num.of_Z 90) w.

(** The job has thrown: its ticker was stopped or never started, or it is
    still running. *)
Definition Failed (w : Pipeline.World) : Prop :=
  Open (Num.of_Z 90) w \/ exists h, Running h w.

(** The job has left the worker loop. *)
Definition Settled (w : Pipeline.World) : Prop := Done w \/ Failed w.

End Phases.

(** [m] started in [Pre] returns in [Post] or throws in [Exc]. *)
Definition hoare {A} (Pre : Pipeline.World -> Prop) (m : Pipeline.P A)
    (Post : A -> Pipeline.World -> Prop) (Exc : Pipeline.World -> Prop)
    : Prop :=
  forall w, Pre w ->
    match m w with
    | (Returned a, w') => Post a w'
    | (Thrown _, w') => Exc w'
    end.

(* ================================================================== *)
(** * The session routes ([src/app/api/salience/session/...]) *)
(* ================================================================== *)

Module Routes.

(** The agents that the analyze route calls: how long each call is
    outstanding and how it ends, by the arguments it is given.
    [extractSalience(referenceUrls, caption, mode, weights)] and
    [planDirections(salienceProfile, n, mode)]. *)
Record AnalyzeEnv : Type := mkAnalyzeEnv {
  extractSalience :
    list string -> string -> SessionMode.t -> list (string * number) ->
    Pipeline.call SalienceProfile.t;
  planDirections :
    SalienceProfile.t -> number -> SessionMode.t ->
    Pipeline.call (list Direction.t) }.

(** The entry of a direction in the answer of [GET .../analyze]. *)
Record DirectionSummary : Type := mkDirectionSummary {
  summary_id : string;
  summary_index : number;
  summary_label : string;
  summary_intent : string;
  summary_nodeCount : nat }.

(** The entry of a node in the answer of [GET .../generate]. *)
Record NodeSummary : Type := mkNodeSummary {
  node_id : string;
  node_directionId : string;
  node_directionLabel : string;
  node_depth : number;
  node_status : NodeStatus.t;
  node_progress : number;
  node_mediaType : MediaType.t;
  node_outputUrl : option string;
  node_createdAt : Date;
  node_completedAt : option Date }.

(** The entry of a session in the answer of [GET /api/salience/session]. *)
Record SessionSummary : Type := mkSessionSummary {
  session_id : string;
  session_mode : SessionMode.t;
  session_state : SessionState.t;
  session_referenceCount : nat;
  session_directionCount : nat;
  session_createdAt : Date;
  session_updatedAt : Date }.

(** The JSON bodies of the answers; [InvalidMode] is the body with
    [error: 'Invalid mode'].  The stack trace that the analyze route adds to
    its error body is left out. *)
Inductive Body : Type :=
| ErrorBody (error : string)
| InvalidMode (validModes : list string)
| Created (sessionId : string) (session : Session.t)
| Sessions (sessions : list SessionSummary)
| Details (session : Session.t)
| Deleted
| ReferencesAdded (session : option Session.t) (addedCount totalCount : nat)
| References (references : list string) (count : nat)
| ReferencesRemoved (session : option Session.t) (remainingCount : nat)
| Cached (session : Session.t)
| Analyzed (session : option Session.t) (salienceProfile : SalienceProfile.t)
    (directions : list Direction.t)
| Analysis (hasProfile hasDirections : bool)
    (salienceProfile : option SalienceProfile.t) (directionsCount : nat)
    (directions : list DirectionSummary)
| Generations (totalNodes generating complete : nat)
    (nodes : list NodeSummary).

Record Response : Type := mkResponse {
  status : Z;
  body : Body }.

Definition respond (status : Z) (body : Body) : Pipeline.P Response :=
  Pipeline.ret (mkResponse status body).

(** [try { ... } catch (error) { return 500 with error.message }] *)
Definition route (handler : Pipeline.P Response)
    : Pipeline.World -> Response * Pipeline.World :=
  fun w =>
    match handler w with
    | (Returned r, w') => (r, w')
    | (Thrown message, w') => (mkResponse 500 (ErrorBody message), w')
    end.

Definition VALID_MODES : list string :=
  ["character_design"; "assets"; "story_frames"; "evolutionary_progress";
   "pm_flow"].

(** [VALID_MODES.includes(mode)], with the mode it names. *)
Definition valid_mode (mode : string) : option SessionMode.t :=
  if bool_decide (mode = "character_design")
  then Some SessionMode.character_design
  else if bool_decide (mode = "assets") then Some SessionMode.assets
  else if bool_decide (mode = "story_frames")
  then Some SessionMode.story_frames
  else if bool_decide (mode = "evolutionary_progress")
  then Some SessionMode.evolutionary_progress
  else if bool_decide (mode = "pm_flow") then Some SessionMode.pm_flow
  else None.

(** [[...new Set(urls)]]: the distinct elements, in the order of their
    first occurrence. *)
Definition distinct (urls : list string) : list string :=
  fold_left (fun s u => JsSet.add u s) urls [].

(** [Math.max] and the clamp [Math.min(Math.max(n, 3), 8)]. *)
Definition max (a b : number) : number := if Num.leb a b then b else a.

Definition clamp (n : number) : number :=
  Num.min (max n (Num.of_Z 3)) (Num.of_Z 8).

Notation "'do' x <- m ; k" := (Pipeline.bind m (fun x => k))
  (at level 10, x name, m at level 100, k at level 200).
Notation "m ;; k" := (Pipeline.bind m (fun _ => k))
  (at level 100, right associativity).

Section WithDisk.
Variable persisted : list Session.t.

Definition store_create (uuid : string) (mode : SessionMode.t)
    (caption : string) : Pipeline.P Session.t :=
  Pipeline.store_call
    (fun t => SessionStore.create persisted uuid t mode caption).

Definition store_list : Pipeline.P (list Session.t) :=
  Pipeline.store_call (fun _ => SessionStore.list persisted).

Definition store_setReferences (sessionId : string) (urls : list string)
    : Pipeline.P (option Session.t) :=
  Pipeline.store_call
    (fun t => SessionStore.setReferences persisted t sessionId urls).

Definition store_setSalienceProfile (sessionId : string)
    (profile : SalienceProfile.t) : Pipeline.P (option Session.t) :=
  Pipeline.store_call
    (fun t => SessionStore.setSalienceProfile persisted t sessionId profile).

Definition store_setDirections (sessionId : string)
    (directions : list Direction.t) : Pipeline.P (option Session.t) :=
  Pipeline.store_call
    (fun t => SessionStore.setDirections persisted t sessionId directions).

(** ** [POST /api/salience/session]; [uuid] is the value that
    [crypto.randomUUID()] returns. *)
Definition POST_session (uuid : string) (mode caption : option string)
    : Pipeline.World -> Response * Pipeline.World :=
  route
    (match mode with
     | Some name =>
         if negb (Pipeline.truthy mode)
         then respond 400 (InvalidMode VALID_MODES)
         else
           match valid_mode name with
           | None => respond 400 (InvalidMode VALID_MODES)
           | Some m =>
               do session <- store_create uuid m (default "" caption) ;
               respond 200 (Created (Session.id session) session)
           end
     | None => respond 400 (InvalidMode VALID_MODES)
     end).

(** ** [GET /api/salience/session] *)
Definition GET_sessions : Pipeline.World -> Response * Pipeline.World :=
  route
    (do sessions <- store_list ;
     respond 200
       (Sessions
          (map (fun s =>
                  mkSessionSummary (Session.id s) (Session.mode s)
                    (Session.state s) (length (Session.referenceUrls s))
                    (length (Session.directions s)) (Session.createdAt s)
                    (Session.updatedAt s))
               sessions))).

(** ** [GET /api/salience/session/[sessionId]] *)
Definition GET_session (sessionId : string)
    : Pipeline.World -> Response * Pipeline.World :=
  route
    (do session <- Pipeline.store_get persisted sessionId ;
     match session with
     | None => respond 404 (ErrorBody "Session not found")
     | Some session => respond 200 (Details session)
     end).

(** ** [DELETE /api/salience/session/[sessionId]]; the files are part of
    the state here. *)
Definition DELETE_session (unlink_ok : bool) (sessionId : string)
    (w : Pipeline.World) (disk : SessionStore.Disk)
    : Response * Pipeline.World * SessionStore.Disk :=
  let '(deleted, st, disk') :=
    SessionStore.delete persisted unlink_ok sessionId (Pipeline.store w) disk
  in
  (if negb deleted then mkResponse 404 (ErrorBody "Session not found")
   else mkResponse 200 Deleted,
   Pipeline.with_store st w, disk').

(** ** [POST .../references]; [urls] is absent when the body has no array
    under that key. *)
Definition POST_references (sessionId : string)
    (urls : option (list string))
    : Pipeline.World -> Response * Pipeline.World :=
  route
    (match urls with
     | None => respond 400 (ErrorBody "urls array is required")
     | Some urls =>
         do session <- Pipeline.store_get persisted sessionId ;
         match session with
         | None => respond 404 (ErrorBody "Session not found")
         | Some session =>
             let allUrls := distinct (Session.referenceUrls session ++ urls) in
             do updated <- store_setReferences sessionId allUrls ;
             respond 200
               (ReferencesAdded updated (length urls) (length allUrls))
         end
     end).

(** ** [GET .../references] *)
Definition GET_references (sessionId : string)
    : Pipeline.World -> Response * Pipeline.World :=
  route
    (do session <- Pipeline.store_get persisted sessionId ;
     match session with
     | None => respond 404 (ErrorBody "Session not found")
     | Some session =>
         respond 200
           (References (Session.referenceUrls session)
              (length (Session.referenceUrls session)))
     end).

(** ** [DELETE .../references] *)
Definition DELETE_references (sessionId : string) (url : option string)
    : Pipeline.World -> Response * Pipeline.World :=
  route
    (do session <- Pipeline.store_get persisted sessionId ;
     match session with
     | None => respond 404 (ErrorBody "Session not found")
     | Some session =>
         let urls :=
           if Pipeline.truthy url
           then filter (fun u => u <> default "" url)
                  (Session.referenceUrls session)
           else [] in
         do updated <- store_setReferences sessionId urls ;
         respond 200 (ReferencesRemoved updated (length urls))
     end).

(** ** [POST .../analyze]; a body that is not JSON counts as [{}]. *)
Definition POST_analyze (env : AnalyzeEnv) (sessionId : string)
    (numDirections : option number) (force : option bool)
    : Pipeline.World -> Response * Pipeline.World :=
  let numDirections := default (Num.of_Z 6) numDirections in
  let force := default false force in
  route
    (do session <- Pipeline.store_get persisted sessionId ;
     match session with
     | None => respond 404 (ErrorBody "Session not found")
     | Some session =>
         if (length (Session.referenceUrls session) =? 0)%nat
         then respond 400
                (ErrorBody
                   "No references uploaded. Upload at least one reference first.")
         else if bool_decide (is_Some (Session.salienceProfile session))
                 && (0 <? length (Session.directions session))%nat
                 && negb force
         then respond 200 (Cached session)
         else
           Pipeline.store_setState persisted sessionId SessionState.analyzing ;;
           Pipeline.try_catch
             (do salienceProfile <-
                Pipeline.await persisted
                  (extractSalience env (Session.referenceUrls session)
                     (Session.caption session) (Session.mode session)
                     (PreferenceState.weights (Session.preferences session))) ;
              store_setSalienceProfile sessionId salienceProfile ;;
              do directions <-
                Pipeline.await persisted
                  (planDirections env salienceProfile (clamp numDirections)
                     (Session.mode session)) ;
              do updatedSession <- store_setDirections sessionId directions ;
              respond 200 (Analyzed updatedSession salienceProfile directions))
             (fun message =>
                Pipeline.store_setState persisted sessionId
                  SessionState.error ;;
                Pipeline.throw message)
     end).

(** ** [GET .../analyze] *)
Definition GET_analyze (sessionId : string)
    : Pipeline.World -> Response * Pipeline.World :=
  route
    (do session <- Pipeline.store_get persisted sessionId ;
     match session with
     | None => respond 404 (ErrorBody "Session not found")
     | Some session =>
         respond 200
           (Analysis
              (bool_decide (is_Some (Session.salienceProfile session)))
              (0 <? length (Session.directions session))%nat
              (Session.salienceProfile session)
              (length (Session.directions session))
              (map (fun d =>
                      mkDirectionSummary (Direction.id d) (Direction.index d)
                        (Direction.label d) (Direction.intent d)
                        (length (Direction.nodes d)))
                   (Session.directions session)))
     end).

(** ** [GET .../generate] *)
Definition allNodes (session : Session.t) : list NodeSummary :=
  flat_map
    (fun d =>
       map (fun n =>
              mkNodeSummary (GenerationNode.id n) (Direction.id d)
                (Direction.label d) (GenerationNode.depth n)
                (GenerationNode.status n) (GenerationNode.progress n)
                (GenerationNode.mediaType n) (GenerationNode.outputUrl n)
                (GenerationNode.createdAt n) (GenerationNode.completedAt n))
           (Direction.nodes d))
    (Session.directions session).

Definition GET_generations (sessionId : string)
    : Pipeline.World -> Response * Pipeline.World :=
  route
    (do session <- Pipeline.store_get persisted sessionId ;
     match session with
     | None => respond 404 (ErrorBody "Session not found")
     | Some session =>
         let nodes := allNodes session in
         respond 200
           (Generations (length nodes)
              (length
                 (filter (fun n => node_status n = NodeStatus.generating)
                         nodes))
              (length
                 (filter (fun n => node_status n = NodeStatus.complete) nodes))
              nodes)
     end).

End WithDisk.
End Routes.

(* ================================================================== *)
(** * Notions used to state further properties *)
(* ================================================================== *)

(** What [deleteNode] does to the directions of a session. *)
Definition pruned_directions (nodeId : string) (ds : list Direction.t)
    : list Direction.t :=
  map (fun d =>
         Direction.with_nodes d
           (filter (fun n => GenerationNode.id n <> nodeId)
                   (Direction.nodes d)))
      ds.

(** The time at which a session was created; [None] for an invalid date. *)
Definition created (s : Session.t) : option Z :=
  JsDate.getTime (Session.createdAt s).

(** [a] may be listed before [b]: it was created at the same time or
    later. *)
Definition not_older (a b : Session.t) : Prop :=
  match created a, created b with
  | Some ta, Some tb => tb <= ta
  | _, _ => False
  end.

(** The sessions created at time [t], in the order of the list. *)
Definition created_at (t : Z) (l : list Session.t) : list Session.t :=
  filter (fun s => created s = Some t) l.

(** No session of the list comes before one that was created later. *)
Definition newest_first_order (l : list Session.t) : Prop :=
  forall i j a b, (i < j)%nat -> l !! i = Some a -> l !! j = Some b ->
                  not_older a b.

(** ** Dates and documents *)

(** The time values whose ISO string has a four-digit year: from
    0000-01-01T00:00:00.000Z to 9999-12-31T23:59:59.999Z. *)
Definition four_digit_year (ms : Z) : bool :=
  (-62167219200000 <=? ms) && (ms <=? 253402300799999).

(** A value that holds no text that looks like a date and no date that is
    invalid or outside the four-digit years. *)
Fixpoint restorable (v : value) : bool :=
  match v with
  | JsValue.VNull | JsValue.VBool _ | JsValue.VNum _ => true
  | JsValue.VStr s => negb (JsValue.date_like s)
  | JsValue.VDate (JsDate.Time ms) => four_digit_year ms
  | JsValue.VDate JsDate.Invalid => false
  | JsValue.VArr l => forallb restorable l
  | JsValue.VObj fs => forallb (fun p => restorable p.2) fs
  end.

(** The part of [civil_from_days] that depends only on the day within the
    era of 400 years: year of the era (from March), month and day. *)
Definition civil_of_doe (doe : Z) : Z * Z * Z :=
  let yoe := (doe - doe / 1460 + doe / 36524 - doe / 146096) / 365 in
  let doy := doe - (365 * yoe + yoe / 4 - yoe / 100) in
  let mp := (5 * doy + 2) / 153 in
  let d := doy - (153 * mp + 2) / 5 + 1 in
  let m := if mp <? 10 then mp + 3 else mp - 9 in
  (yoe, m, d).

(** The part of [days_from_civil] within the era. *)
Definition doe_of_civil (yoe m d : Z) : Z :=
  let mp := if 2 <? m then m - 3 else m + 9 in
  let doy := (153 * mp + 2) / 5 + d - 1 in
  yoe * 365 + yoe / 4 - yoe / 100 + doy.

(** What the two agree on for one day of the era. *)
Definition era_day_ok (doe : Z) : bool :=
  let '(yoe, m, d) := civil_of_doe doe in
  let y := if m <=? 2 then yoe + 1 else yoe in
  (0 <=? yoe) && (yoe <=? 399) && (1 <=? m) && (m <=? 12) && (1 <=? d)
  && (d <=? JsDate.days_in_month y m)
  && (doe_of_civil yoe m d =? doe)
  && implb (146037 <=? doe) (400 <=? y)
  && implb (doe <=? 146036) (y <=? 399).

(** [p] holds for the [n] integers from [z] on. *)
Fixpoint all_from (p : Z -> bool) (n : nat) (z : Z) : bool :=
  match n with
  | O => true
  | S n' => p z && all_from p n' (z + 1)
  end.

(** The text that [toISOString] writes for a civil date and a time of
    day. *)
Definition iso_string (y m d hh mi ss ms : Z) : string :=
  JsDate.year_string y +:+ "-" +:+ JsDate.pad 2 m +:+ "-" +:+
  JsDate.pad 2 d +:+ "T" +:+ JsDate.pad 2 hh +:+ ":" +:+ JsDate.pad 2 mi
  +:+ ":" +:+ JsDate.pad 2 ss +:+ "." +:+ JsDate.pad 3 ms +:+ "Z".

(** ** The worker loop *)

(** The ['error'] events that an observer of the stream has received. *)
Definition error_events (sessionId : string) (b : Events.Bus)
    : list Events.StreamEvent :=
  filter (fun e => Events.type e = Events.error)
    (Events.observed sessionId b).

(** What the head of the worker loop does after a job: it takes the next
    job of the queue, or, with an empty queue, ends and clears the flag. *)
Definition next_taken (i : nat) (w w' : Pipeline.World) : Prop :=
  match Pipeline.jobQueue w with
  | [] =>
      Pipeline.workers w' = base.delete i (Pipeline.workers w) /\
      Pipeline.isProcessing w' = false /\ Pipeline.jobQueue w' = [] /\
      Pipeline.started w' = Pipeline.started w
  | next :: rest =>
      Pipeline.workers w'
      = <[i := GenerationJob.with_status JobStatus.processing
                 (GenerationJob.error next) next]> (Pipeline.workers w) /\
      Pipeline.isProcessing w' = Pipeline.isProcessing w /\
      Pipeline.jobQueue w' = rest /\
      Pipeline.started w' = Pipeline.started w ++ [GenerationJob.id next]
  end.

(** What a job leaves alone in the emitters: the listeners, and the
    ['error'] events received on a stream. *)
Definition quiet (sessionId : string) (ls : list (string * string))
    (es : list Events.StreamEvent) (w : Pipeline.World) : Prop :=
  Events.listeners (Pipeline.bus w) = ls /\
  error_events sessionId (Pipeline.bus w) = es.

(** ** Progress tickers *)

(** The handles of the interval timers that are running. *)
Definition handles (w : Pipeline.World) : list nat :=
  map Pipeline.handle (Pipeline.tickers w).

(** The timers running are those with the handles [hs]. *)
Definition running (hs : list nat) (w : Pipeline.World) : Prop :=
  handles w = hs.

(** ** The outcome of a job *)

(** The store is initialised and holds the node. *)
Definition present (sessionId nodeId : string) (w : Pipeline.World) : Prop :=
  SessionStore.initialized (Pipeline.store w) = true /\
  is_Some (node_at sessionId nodeId (Pipeline.store w)).

(** The public URL under which a generator saves the medium of a node. *)
Definition output_path (sessionId nodeId : string) (m : MediaType.t)
    : string :=
  "/uploads/generated/" +:+ sessionId +:+ "/" +:+ nodeId
  +:+ match m with MediaType.image => ".png" | MediaType.video => ".mp4" end.

(** The stored node is complete, with progress 100 and [url] as its output
    and its thumbnail. *)
Definition completed (sessionId nodeId url : string) (w : Pipeline.World)
    : Prop :=
  exists n t,
    node_at sessionId nodeId (Pipeline.store w) = Some n /\
    GenerationNode.status n = NodeStatus.complete /\
    GenerationNode.progress n = Num.of_Z 100 /\
    GenerationNode.outputUrl n = Some url /\
    GenerationNode.thumbnailUrl n = Some url /\
    GenerationNode.completedAt n = Some t.

(** The last event on the stream says that the node is complete, with
    [url]. *)
Definition announced (sessionId nodeId directionId url : string)
    (w : Pipeline.World) : Prop :=
  exists earlier t explanation,
    Events.observed sessionId (Pipeline.bus w)
    = earlier
      ++ [Events.mkEvent Events.generation_complete sessionId t
            (Events.Complete nodeId directionId url (Some url) explanation)].

(** ** The routes *)

Definition without_nodes (d : Direction.t) : Direction.t :=
  Direction.with_nodes d [].

(** [s'] is [s] up to the nodes of its directions and the time of its last
    update: what the progress timers of running jobs may change while a
    route awaits. *)
Definition same_but_nodes (s s' : Session.t) : Prop :=
  Session.id s' = Session.id s /\
  Session.mode s' = Session.mode s /\
  Session.state s' = Session.state s /\
  Session.referenceUrls s' = Session.referenceUrls s /\
  Session.caption s' = Session.caption s /\
  Session.salienceProfile s' = Session.salienceProfile s /\
  Session.preferences s' = Session.preferences s /\
  Session.createdAt s' = Session.createdAt s /\
  map without_nodes (Session.directions s')
  = map without_nodes (Session.directions s).

(** The store is initialised and holds, under [sessionId], the session [s]
    up to nodes. *)
Definition holds (sessionId : string) (s : Session.t) (w : Pipeline.World)
    : Prop :=
  SessionStore.initialized (Pipeline.store w) = true /\
  exists s',
    JsMap.get sessionId (SessionStore.sessions (Pipeline.store w)) = Some s' /\
    same_but_nodes s s'.

(** [session] with the fields that the analyze route writes. *)
Definition analysed (session : Session.t) (state : SessionState.t)
    (profile : option SalienceProfile.t) (directions : list Direction.t)
    : Session.t :=
  Session.mk (Session.id session) (Session.mode session) state
    (Session.referenceUrls session) (Session.caption session) profile
    directions (Session.preferences session) (Session.createdAt session)
    (Session.updatedAt session).

(** The analyze route does not answer from what is stored. *)
Definition not_cached (session : Session.t) (force : option bool) : Prop :=
  Session.salienceProfile session = None \/
  Session.directions session = [] \/
  force = Some true.

(** Agents that answer after one and two timer periods. *)
Definition sample_agents (plan : outcome (list Direction.t))
    : Routes.AnalyzeEnv :=
  Routes.mkAnalyzeEnv
    (fun _ _ _ _ => (1%nat, Returned Sample.profile))
    (fun _ _ _ => (2%nat, plan)).

(** A session with a reference and no analysis yet. *)
Definition sample_uploaded : Session.t :=
  Session.mk "s-1" SessionMode.character_design
    SessionState.references_uploaded ["https://example.com/a.png"]
    "a lighthouse at dusk" None []
    (PreferenceState.mk [] (3 # 10)%Q [] Sample.t0) Sample.t0 Sample.t0.

(** The answer of the routes of a session that the store does not hold. *)
Definition not_found : Routes.Response :=
  Routes.mkResponse 404 (Routes.ErrorBody "Session not found").

(* ================================================================== *)
(** * Properties of the session store *)
(* ================================================================== *)

Section MapFacts.
Context {K V : Type} `{EqDecision K}.
Implicit Types (m : list (K * V)) (k : K) (v : V).

Lemma JsMap_get_set_eq m k v : JsMap.get k (JsMap.set k v m) = Some v.
Proof.
  induction m as [|[k' v'] m IH]; simpl.
  - by rewrite decide_True.
  - destruct (decide (k' = k)) as [->|Hne]; simpl.
    + by rewrite decide_True.
    + by rewrite decide_False.
Qed.

Lemma JsMap_get_set_ne m k k' v :
  k' <> k -> JsMap.get k' (JsMap.set k v m) = JsMap.get k' m.
Proof.
  intros Hne. induction m as [|[k0 v0] m IH]; simpl.
  - by rewrite decide_False.
  - destruct (decide (k0 = k)) as [->|Hne0]; simpl.
    + by rewrite !decide_False.
    + destruct (decide (k0 = k')); [done|apply IH].
Qed.

Lemma JsMap_get_delete_eq m k : JsMap.get k (JsMap.delete k m) = None.
Proof.
  unfold JsMap.delete. induction m as [|[k' v'] m IH]; [done|].
  cbn. destruct (decide (k' <> k)) as [Hne|Heq]; simpl.
  - by rewrite decide_False.
  - apply IH.
Qed.

Lemma JsMap_get_elem m k v : JsMap.get k m = Some v -> (k, v) ∈ m.
Proof.
  induction m as [|[k' v'] m IH]; simpl; [done|].
  destruct (decide (k' = k)) as [->|Hne]; intros Hg.
  - injection Hg as ->. apply list_elem_of_here.
  - apply list_elem_of_further, IH, Hg.
Qed.

Lemma JsMap_elem_delete m k k' v :
  (k', v) ∈ JsMap.delete k m <-> (k', v) ∈ m /\ k' <> k.
Proof. unfold JsMap.delete. rewrite list_elem_of_filter. simpl. tauto. Qed.

Lemma JsMap_set_elem m k v k' v' :
  (k', v') ∈ JsMap.set k v m -> (k' = k /\ v' = v) \/ (k', v') ∈ m.
Proof.
  induction m as [|[k0 v0] m IH]; simpl.
  - rewrite list_elem_of_singleton. intros [= -> ->]. by left.
  - destruct (decide (k0 = k)) as [->|Hne]; rewrite !elem_of_cons.
    + intros [[= -> ->]|Hin]; [by left|]. right. by right.
    + intros [Heq|Hin]; [right; by left|].
      destruct (IH Hin) as [?|?]; [by left|]. right. by right.
Qed.

End MapFacts.

Section SetFacts.
Context {K : Type} `{EqDecision K}.

Lemma JsSet_elem_add (k k' : K) (s : list K) :
  k' ∈ JsSet.add k s <-> k' = k \/ k' ∈ s.
Proof.
  unfold JsSet.add, JsSet.has. case_bool_decide as Hin.
  - split; [by right|]. intros [->|?]; done.
  - rewrite elem_of_app, list_elem_of_singleton. tauto.
Qed.

Lemma JsSet_elem_delete (k k' : K) (s : list K) :
  k' ∈ JsSet.delete k s <-> k' ∈ s /\ k' <> k.
Proof. unfold JsSet.delete. rewrite list_elem_of_filter. tauto. Qed.

End SetFacts.

Section StoreFacts.
Variable persisted : list Session.t.
Local Abbreviation loaded := (loaded persisted).

Lemma loaded_initialized st : SessionStore.initialized (loaded st) = true.
Proof.
  unfold loaded, SessionStore.ensureInitialized.
  by destruct (SessionStore.initialized st) eqn:E.
Qed.

Lemma loaded_id st : SessionStore.initialized st = true -> loaded st = st.
Proof.
  intros E. unfold loaded, SessionStore.ensureInitialized. by rewrite E.
Qed.

Lemma loaded_loaded st : loaded (loaded st) = loaded st.
Proof. apply loaded_id, loaded_initialized. Qed.


Lemma ensureInitialized_spec st :
  SessionStore.ensureInitialized persisted st = (tt, loaded st).
Proof.
  unfold loaded. by destruct (SessionStore.ensureInitialized persisted st) as [[] ?].
Qed.

Lemma get_spec sessionId st :
  SessionStore.get persisted sessionId st
  = (JsMap.get sessionId (SessionStore.sessions (loaded st)), loaded st).
Proof.
  unfold SessionStore.get, SessionStore.bind, SessionStore.lookup_session.
  by rewrite ensureInitialized_spec.
Qed.

Lemma update_spec now sessionId updates st :
  SessionStore.update persisted now sessionId updates st
  = match JsMap.get sessionId (SessionStore.sessions (loaded st)) with
    | Some s =>
        (Some (SessionPatch.merge now s updates),
         updated_store sessionId (SessionPatch.merge now s updates) (loaded st))
    | None => (None, loaded st)
    end.
Proof.
  unfold SessionStore.update, SessionStore.bind, SessionStore.lookup_session.
  rewrite ensureInitialized_spec.
  by destruct (JsMap.get sessionId (SessionStore.sessions (loaded st))).
Qed.

Lemma setReferences_spec now sessionId urls st :
  SessionStore.setReferences persisted now sessionId urls st
  = match JsMap.get sessionId (SessionStore.sessions (loaded st)) with
    | Some s =>
        let s' :=
          SessionPatch.merge now s
            (SessionPatch.mk None None
               (Some (if (0 <? length urls)%nat
                      then SessionState.references_uploaded
                      else Session.state s))
               (Some urls) None None None None None None) in
        (Some s', updated_store sessionId s' (loaded st))
    | None => (None, loaded st)
    end.
Proof.
  unfold SessionStore.setReferences, SessionStore.bind.
  rewrite get_spec.
  destruct (JsMap.get sessionId (SessionStore.sessions (loaded st))) eqn:E;
    [|done].
  rewrite update_spec, loaded_loaded, E. done.
Qed.

Lemma updateNode_spec now sessionId nodeId updates st :
  SessionStore.updateNode persisted now sessionId nodeId updates st
  = match JsMap.get sessionId (SessionStore.sessions (loaded st)) with
    | Some s =>
        let s' :=
          SessionPatch.merge now s
            (SessionStore.directions_patch
               (patched_directions nodeId updates (Session.directions s))) in
        (Some s', updated_store sessionId s' (loaded st))
    | None => (None, loaded st)
    end.
Proof.
  unfold SessionStore.updateNode, SessionStore.bind.
  rewrite get_spec.
  destruct (JsMap.get sessionId (SessionStore.sessions (loaded st))) eqn:E;
    [|done].
  rewrite update_spec, loaded_loaded, E. done.
Qed.

Lemma with_nodes_same d : Direction.with_nodes d (Direction.nodes d) = d.
Proof. by destruct d. Qed.

Lemma patched_nodes_absent nodeId updates (ns : list GenerationNode.t) :
  (forall n, n ∈ ns -> GenerationNode.id n <> nodeId) ->
  map (fun n => if decide (GenerationNode.id n = nodeId)
                then NodePatch.merge n updates else n) ns = ns.
Proof.
  induction ns as [|n ns IH]; intros Habs; [done|]. simpl.
  rewrite decide_False by (apply Habs, list_elem_of_here).
  f_equal. apply IH. intros n' Hn'. apply Habs. by apply list_elem_of_further.
Qed.

Lemma patched_directions_absent nodeId updates ds :
  (forall d n, d ∈ ds -> n ∈ Direction.nodes d -> GenerationNode.id n <> nodeId) ->
  patched_directions nodeId updates ds = ds.
Proof.
  unfold patched_directions.
  induction ds as [|d ds IH]; intros Habs; [done|]. simpl. f_equal.
  - rewrite patched_nodes_absent; [apply with_nodes_same|].
    intros n Hn. apply (Habs d); [apply list_elem_of_here|done].
  - apply IH. intros d' n Hd'. apply Habs. by apply list_elem_of_further.
Qed.

End StoreFacts.

(** ** Sorting and paths *)

Lemma sort_insert_elem {A} (cmp : A -> A -> option Z) (x y : A) (l : list A) :
  y ∈ SessionStore.sort_insert cmp x l <-> y = x \/ y ∈ l.
Proof.
  induction l as [|z l IH]; simpl.
  - rewrite list_elem_of_singleton, elem_of_nil. tauto.
  - destruct (SessionStore.positive (cmp x z)).
    + rewrite !elem_of_cons, IH. tauto.
    + rewrite !elem_of_cons. tauto.
Qed.

Lemma sort_elem {A} (cmp : A -> A -> option Z) (y : A) (l : list A) :
  y ∈ SessionStore.sort cmp l <-> y ∈ l.
Proof.
  unfold SessionStore.sort. induction l as [|x l IH]; simpl; [done|].
  rewrite sort_insert_elem, elem_of_cons, IH. tauto.
Qed.

Lemma list_ascii_of_string_app (s1 s2 : string) :
  list_ascii_of_string (s1 +:+ s2)
  = list_ascii_of_string s1 ++ list_ascii_of_string s2.
Proof. induction s1 as [|c s1 IH]; [done|]. cbn. by rewrite <- IH. Qed.

Lemma append_inj_r (s1 s2 x : string) : s1 +:+ x = s2 +:+ x -> s1 = s2.
Proof.
  intros H. apply (f_equal list_ascii_of_string) in H.
  rewrite !list_ascii_of_string_app in H. apply app_inv_tail in H.
  rewrite <- (string_of_list_ascii_of_string s1),
          <- (string_of_list_ascii_of_string s2).
  by rewrite H.
Qed.

Lemma session_path_inj (a b : string) :
  SessionStore.session_path a = SessionStore.session_path b -> a = b.
Proof.
  unfold SessionStore.session_path, SessionStore.path_join. intros H.
  apply String.app_inj in H. apply String.app_inj in H.
  by apply append_inj_r in H.
Qed.

(** ** The flush loop *)

Section FlushFacts.
Variable write_ok : string -> bool.
Variable sessions : list (string * Session.t).

Lemma flush_loop_dirty toFlush dirty disk id :
  id ∈ (SessionStore.flush_loop write_ok toFlush sessions dirty disk).1
  <-> id ∈ dirty
      \/ (id ∈ toFlush /\ is_Some (JsMap.get id sessions)
          /\ write_ok (SessionStore.session_path id) = false).
Proof.
  revert dirty disk. induction toFlush as [|x rest IH]; intros dirty disk.
  - simpl. rewrite elem_of_nil. tauto.
  - simpl. destruct (JsMap.get x sessions) as [s|] eqn:Hx.
    + destruct (write_ok (SessionStore.session_path x)) eqn:Hw.
      * rewrite IH, elem_of_cons. split; [tauto|].
        intros [?|([->|?] & ? & Hf)]; [tauto|congruence|tauto].
      * rewrite IH, JsSet_elem_add, elem_of_cons. split.
        -- intros [[->|?]|?]; [|tauto..]. right. rewrite Hx. eauto.
        -- intros [?|([->|?] & ? & ?)]; tauto.
    + rewrite IH, elem_of_cons. split; [tauto|].
      intros [?|([->|?] & Hs & ?)]; [tauto| |tauto].
      rewrite Hx in Hs. by destruct Hs.
Qed.

Lemma flush_loop_keeps toFlush dirty (disk : SessionStore.Disk) p v :
  disk !! p = Some v ->
  (forall id s, id ∈ toFlush -> JsMap.get id sessions = Some s ->
                SessionStore.session_path id = p ->
                SessionStore.document s = v) ->
  (SessionStore.flush_loop write_ok toFlush sessions dirty disk).2 !! p
  = Some v.
Proof.
  revert dirty disk. induction toFlush as [|x rest IH]; intros dirty disk Hp Hsame;
    [done|].
  assert (Hrest : forall id s, id ∈ rest -> JsMap.get id sessions = Some s ->
                    SessionStore.session_path id = p ->
                    SessionStore.document s = v).
  { intros id s Hin. apply Hsame. by apply list_elem_of_further. }
  simpl. destruct (JsMap.get x sessions) as [s|] eqn:Hx; [|by apply IH].
  destruct (write_ok (SessionStore.session_path x)); [|by apply IH].
  apply IH; [|done].
  destruct (decide (SessionStore.session_path x = p)) as [Heq|Hne].
  - rewrite Heq, lookup_insert_eq. f_equal.
    apply (Hsame x s); [apply list_elem_of_here|done..].
  - by rewrite lookup_insert_ne.
Qed.

Lemma flush_loop_written toFlush dirty (disk : SessionStore.Disk) id s :
  id ∈ toFlush -> JsMap.get id sessions = Some s ->
  write_ok (SessionStore.session_path id) = true ->
  (SessionStore.flush_loop write_ok toFlush sessions dirty disk).2
    !! SessionStore.session_path id
  = Some (SessionStore.document s).
Proof.
  revert dirty disk. induction toFlush as [|x rest IH]; intros dirty disk Hin Hs Hw.
  - by apply elem_of_nil in Hin.
  - simpl. destruct (decide (x = id)) as [->|Hne].
    + rewrite Hs, Hw. apply flush_loop_keeps; [apply lookup_insert_eq|].
      intros id' s' _ Hs' Hpath. apply session_path_inj in Hpath. subst id'.
      congruence.
    + apply elem_of_cons in Hin as [?|Hin]; [congruence|].
      destruct (JsMap.get x sessions); [|by apply IH].
      destruct (write_ok (SessionStore.session_path x)); by apply IH.
Qed.

Lemma flush_loop_other toFlush dirty (disk : SessionStore.Disk) p :
  (forall id, id ∈ toFlush -> SessionStore.session_path id <> p) ->
  (SessionStore.flush_loop write_ok toFlush sessions dirty disk).2 !! p
  = disk !! p.
Proof.
  revert dirty disk. induction toFlush as [|x rest IH]; intros dirty disk Hno;
    [done|].
  assert (Hrest : forall id, id ∈ rest -> SessionStore.session_path id <> p).
  { intros id Hin. apply Hno. by apply list_elem_of_further. }
  simpl. destruct (JsMap.get x sessions); [|by apply IH].
  destruct (write_ok (SessionStore.session_path x)); [|by apply IH].
  rewrite IH by done. apply lookup_insert_ne, Hno, list_elem_of_here.
Qed.

End FlushFacts.

(* ================================================================== *)
(** * Basic facts about the pipeline *)
(* ================================================================== *)

Section PipelineFacts.
Variable persisted : list Session.t.
Local Abbreviation loaded := (loaded persisted).

Lemma store_get_spec sessionId w :
  Pipeline.store_get persisted sessionId w
  = (Returned (JsMap.get sessionId
                 (SessionStore.sessions (loaded (Pipeline.store w)))),
     Pipeline.with_store (loaded (Pipeline.store w)) w).
Proof.
  unfold Pipeline.store_get, Pipeline.store_call. by rewrite get_spec.
Qed.

Lemma getNode_spec sessionId nodeId st :
  SessionStore.getNode persisted sessionId nodeId st
  = (match JsMap.get sessionId (SessionStore.sessions (loaded st)) with
     | Some s => SessionStore.find_node nodeId (Session.directions s)
     | None => None
     end, loaded st).
Proof.
  unfold SessionStore.getNode, SessionStore.bind. rewrite get_spec.
  by destruct (JsMap.get sessionId _).
Qed.

(** What [addNode] does to the directions of a session. *)
Lemma addNode_spec now sessionId directionId node st :
  SessionStore.addNode persisted now sessionId directionId node st
  = match JsMap.get sessionId (SessionStore.sessions (loaded st)) with
    | Some s =>
        let s' :=
          SessionPatch.merge now s
            (SessionStore.directions_patch
               (extended_directions directionId node (Session.directions s))) in
        (Some s', updated_store sessionId s' (loaded st))
    | None => (None, loaded st)
    end.
Proof.
  unfold SessionStore.addNode, SessionStore.bind. rewrite get_spec.
  destruct (JsMap.get sessionId (SessionStore.sessions (loaded st))) eqn:E;
    [|done].
  rewrite update_spec, loaded_loaded, E. done.
Qed.

Lemma setState_spec now sessionId state st :
  SessionStore.setState persisted now sessionId state st
  = match JsMap.get sessionId (SessionStore.sessions (loaded st)) with
    | Some s =>
        let s' :=
          SessionPatch.merge now s
            (SessionPatch.mk None None (Some state) None None None None None
               None None) in
        (Some s', updated_store sessionId s' (loaded st))
    | None => (None, loaded st)
    end.
Proof. unfold SessionStore.setState. apply update_spec. Qed.

(** Emitting an event other than ['error'] never throws and only extends
    the record of emitted events. *)
Lemma emitSessionEvent_returns sessionId t p w :
  t <> Events.error ->
  Pipeline.emitSessionEvent sessionId t p w
  = (Returned tt,
     Pipeline.with_bus
       (Events.mkBus (Events.listeners (Pipeline.bus w))
          (Events.emitted (Pipeline.bus w)
           ++ [(Events.name t,
                Events.mkEvent t sessionId (Pipeline.now w) p);
               ("*", Events.mkEvent t sessionId (Pipeline.now w) p)]))
       w).
Proof.
  intros Ht. unfold Pipeline.emitSessionEvent, Events.emitSessionEvent.
  unfold Events.emit at 1.
  assert (bool_decide (Events.name t = "error") = false) as ->.
  { apply bool_decide_eq_false. by destruct t. }
  cbn [andb]. unfold Events.emit. cbn [andb bool_decide decide_rel].
  rewrite bool_decide_eq_false_2 by done. cbn. by rewrite <- app_assoc.
Qed.

End PipelineFacts.

(* ================================================================== *)
(** * Invariants along the pipeline *)
(* ================================================================== *)

Section Keeps.
Variable persisted : list Session.t.
Variable I : Pipeline.World -> Prop.

Lemma keeps_ret {A} (a : A) : keeps I (Pipeline.ret a).
Proof. by intros w. Qed.

Lemma keeps_throw {A} (e : string) : keeps I (@Pipeline.throw A e).
Proof. by intros w. Qed.

Lemma keeps_bind {A B} (m : Pipeline.P A) (k : A -> Pipeline.P B) :
  keeps I m -> (forall a, keeps I (k a)) -> keeps I (Pipeline.bind m k).
Proof.
  intros Hm Hk w Hw. unfold Pipeline.bind. specialize (Hm w Hw).
  destruct (m w) as [[a|e] w']; cbn in *; [by apply Hk|done].
Qed.

Lemma keeps_try_catch {A} (m : Pipeline.P A) (h : string -> Pipeline.P A) :
  keeps I m -> (forall e, keeps I (h e)) -> keeps I (Pipeline.try_catch m h).
Proof.
  intros Hm Hh w Hw. unfold Pipeline.try_catch. specialize (Hm w Hw).
  destruct (m w) as [[a|e] w']; cbn in *; [done|by apply Hh].
Qed.

Lemma keeps_of_outcome {A} (o : outcome A) : keeps I (Pipeline.of_outcome o).
Proof. destruct o; [apply keeps_ret|apply keeps_throw]. Qed.

(** What the primitive steps must keep. *)
Hypothesis keeps_store :
  forall A (m : Date -> SessionStore.St A), keeps I (Pipeline.store_call m).
Hypothesis keeps_emit :
  forall sessionId t p, keeps I (Pipeline.emitSessionEvent sessionId t p).
Hypothesis keeps_clock :
  forall w, I w -> I (Pipeline.with_clock (Pipeline.clock w + 200) w).
Hypothesis keeps_fire :
  forall t w, I w -> t ∈ Pipeline.tickers w -> I (Pipeline.fire persisted t w).2.
Hypothesis keeps_start :
  forall sessionId nodeId directionId a b,
    keeps I (Pipeline.startProgressTicker sessionId nodeId directionId a b).
Hypothesis keeps_stop : forall h, keeps I (Pipeline.stop h).

Lemma keeps_period w : I w -> I (Pipeline.period persisted w).
Proof.
  intros Hw. unfold Pipeline.period.
  generalize (map Pipeline.handle (Pipeline.tickers w)).
  intros hs. apply keeps_clock in Hw. revert Hw.
  generalize (Pipeline.with_clock (Pipeline.clock w + 200) w).
  induction hs as [|h hs IH]; intros w' Hw'; [done|].
  cbn [fold_left]. apply IH.
  destruct (Pipeline.find_ticker h (Pipeline.tickers w')) as [t|] eqn:Hf;
    [|done].
  apply keeps_fire; [done|].
  unfold Pipeline.find_ticker in Hf. apply find_some in Hf as [Hin _].
  by apply list_elem_of_In.
Qed.

Lemma keeps_sleep n : keeps I (Pipeline.sleep persisted n).
Proof.
  intros w Hw. unfold Pipeline.sleep. cbn [snd].
  induction n as [|n IH]; [done|]. cbn [Nat.iter]. by apply keeps_period.
Qed.

Lemma keeps_await {A} (c : Pipeline.call A) :
  keeps I (Pipeline.await persisted c).
Proof.
  unfold Pipeline.await. apply keeps_bind; [apply keeps_sleep|].
  intros _. apply keeps_of_outcome.
Qed.

Lemma keeps_emitProgress sessionId nodeId directionId p stage message :
  keeps I (Pipeline.emitProgress sessionId nodeId directionId p stage message).
Proof. apply keeps_emit. Qed.

Lemma keeps_poll env sessionId nodeId directionId remaining attempts :
  keeps I (Pipeline.poll persisted env sessionId nodeId directionId
             remaining attempts).
Proof.
  revert attempts. induction remaining as [|r IH]; intros attempts;
    [apply keeps_ret|].
  cbn [Pipeline.poll].
  apply keeps_bind; [apply keeps_sleep|intros _].
  apply keeps_bind; [apply keeps_emitProgress|intros _].
  apply keeps_bind; [apply keeps_await|intros resp].
  destruct (negb (Pipeline.status_ok resp)); [apply IH|].
  apply keeps_bind; [apply keeps_of_outcome|intros data].
  destruct (_ && _); [apply keeps_ret|].
  destruct (bool_decide _); [apply keeps_throw|apply IH].
Qed.

Lemma keeps_generateImage env sessionId nodeId directionId pkg :
  keeps I (Pipeline.generateImage persisted env sessionId nodeId directionId
             pkg).
Proof.
  unfold Pipeline.generateImage.
  apply keeps_bind; [apply keeps_start|intros h].
  apply keeps_try_catch.
  - apply keeps_bind; [apply keeps_await|intros _].
    apply keeps_bind; [apply keeps_emitProgress|intros _].
    apply keeps_bind; [apply keeps_await|intros resp].
    apply keeps_bind; [apply keeps_stop|intros _].
    apply keeps_bind; [apply keeps_emitProgress|intros _].
    destruct resp as [[|b64 ?]|]; try apply keeps_throw.
    destruct (negb _); [apply keeps_throw|].
    apply keeps_bind; [apply keeps_await|intros _]. apply keeps_ret.
  - intros e. apply keeps_bind; [apply keeps_stop|intros _].
    apply keeps_throw.
Qed.

Lemma keeps_generateVideo env sessionId nodeId directionId pkg :
  keeps I (Pipeline.generateVideo persisted env sessionId nodeId directionId
             pkg).
Proof.
  unfold Pipeline.generateVideo.
  apply keeps_bind; [apply keeps_start|intros h].
  destruct (negb _); [apply keeps_throw|].
  apply keeps_try_catch.
  - apply keeps_bind; [apply keeps_await|intros _].
    apply keeps_bind; [apply keeps_emitProgress|intros _].
    apply keeps_bind; [apply keeps_await|intros resp].
    apply keeps_bind.
    { destruct (negb _); [apply keeps_throw|apply keeps_ret]. }
    intros _. apply keeps_bind; [apply keeps_of_outcome|intros jobId].
    apply keeps_bind; [apply keeps_emitProgress|intros _].
    apply keeps_bind; [apply keeps_poll|intros url].
    destruct url; [|apply keeps_throw].
    apply keeps_bind; [apply keeps_stop|intros _].
    apply keeps_bind; [apply keeps_emitProgress|intros _].
    apply keeps_bind; [apply keeps_await|intros dl].
    destruct (negb _); [apply keeps_throw|].
    apply keeps_bind; [apply keeps_of_outcome|intros _].
    apply keeps_bind; [apply keeps_await|intros _]. apply keeps_ret.
  - intros e. apply keeps_bind; [apply keeps_stop|intros _].
    apply keeps_throw.
Qed.

Lemma keeps_processJob env job : keeps I (Pipeline.processJob persisted env job).
Proof.
  unfold Pipeline.processJob.
  apply keeps_bind; [apply keeps_store|intros session].
  destruct session as [session|]; [|apply keeps_throw].
  destruct (SessionStore.find_direction _ _); [|apply keeps_throw].
  apply keeps_bind; [apply keeps_store|intros _].
  apply keeps_bind; [apply keeps_emitProgress|intros _].
  apply keeps_bind.
  { destruct (GenerationJob.parentNodeId job); [|apply keeps_ret].
    destruct (Pipeline.truthy _); [apply keeps_store|apply keeps_ret]. }
  intros parentNode.
  apply keeps_bind; [apply keeps_emitProgress|intros _].
  apply keeps_bind; [apply keeps_await|intros pkg].
  destruct (PromptPackage.needsRevision pkg); [apply keeps_throw|].
  apply keeps_bind; [apply keeps_emitProgress|intros _].
  apply keeps_bind; [apply keeps_await|intros gated].
  destruct (negb _); [apply keeps_throw|].
  apply keeps_bind; [apply keeps_store|intros _].
  apply keeps_bind; [apply keeps_emitProgress|intros _].
  apply keeps_bind.
  { destruct (GenerationJob.mediaType job);
      [apply keeps_generateImage|apply keeps_generateVideo]. }
  intros outputUrl.
  apply keeps_bind; [apply keeps_emitProgress|intros _].
  apply keeps_bind; [|intros _; apply keeps_emit].
  intros w Hw. apply (keeps_store _ _ w Hw).
Qed.

End Keeps.

(* ================================================================== *)
(** * Claims about the session store *)
(* ================================================================== *)

(** C7, as the specification states it, does not hold: a session whose
    directions are already planned goes back to [references_uploaded] when
    [setReferences] is given a non-empty list. *)
Lemma C7_counterexample :
  Session.state Sample.planned = SessionState.directions_planned /\
  exists updated,
    (SessionStore.setReferences [] Sample.t1 "s-1"
       ["https://example.com/b.png"] (Sample.store_of Sample.planned)).1
    = Some updated /\
    Session.state updated = SessionState.references_uploaded /\
    Session.state updated <> Session.state Sample.planned.
Proof.
  split; [reflexivity|]. eexists. split; [vm_compute; reflexivity|].
  split; [reflexivity|discriminate].
Qed.

(** C7, amended: for every session of the store, [setReferences] with an
    empty list leaves [state] as it was, and [setReferences] with a
    non-empty list sets [state] to [references_uploaded] whatever the state
    was before; in both cases the list becomes the session's
    [referenceUrls] and the updated session is the one stored. *)
Theorem C7_setReferences_state
    (persisted : list Session.t) (now : Date) (sessionId : string)
    (urls : list string) (st : SessionStore.Store) (session : Session.t) :
  JsMap.get sessionId (SessionStore.sessions (loaded persisted st))
    = Some session ->
  exists updated,
    (SessionStore.setReferences persisted now sessionId urls st).1
      = Some updated /\
    JsMap.get sessionId
      (SessionStore.sessions
         (SessionStore.setReferences persisted now sessionId urls st).2)
      = Some updated /\
    Session.referenceUrls updated = urls /\
    (urls = [] -> Session.state updated = Session.state session) /\
    (urls <> [] ->
     Session.state updated = SessionState.references_uploaded).
Proof.
  intros Hget. rewrite setReferences_spec, Hget. cbn [fst snd].
  eexists. split; [reflexivity|]. split.
  { unfold updated_store. cbn. apply JsMap_get_set_eq. }
  split; [reflexivity|]. split.
  - intros ->. reflexivity.
  - intros Hne. destruct urls; [done|]. reflexivity.
Qed.

Lemma C7_setReferences_state_witness :
  exists updated,
    (SessionStore.setReferences [] Sample.t1 "s-1" []
       (Sample.store_of Sample.planned)).1 = Some updated /\
    JsMap.get "s-1"
      (SessionStore.sessions
         (SessionStore.setReferences [] Sample.t1 "s-1" []
            (Sample.store_of Sample.planned)).2) = Some updated /\
    Session.referenceUrls updated = [] /\
    (@nil string = [] ->
     Session.state updated = Session.state Sample.planned) /\
    (@nil string <> [] ->
     Session.state updated = SessionState.references_uploaded).
Proof.
  apply (C7_setReferences_state [] Sample.t1 "s-1" []
           (Sample.store_of Sample.planned) Sample.planned).
  reflexivity.
Defined.

(** C10: for an existing session and a node id that no direction of the
    session holds, [updateNode] returns the session (not [null]); the
    session it returns and stores is the old one with a new [updatedAt]
    only, so every direction and every node list is unchanged; and the
    session is marked dirty. *)
Theorem C10_updateNode_absent_node
    (persisted : list Session.t) (now : Date) (sessionId nodeId : string)
    (updates : NodePatch.t) (st : SessionStore.Store) (session : Session.t) :
  JsMap.get sessionId (SessionStore.sessions (loaded persisted st))
    = Some session ->
  (forall d n, d ∈ Session.directions session -> n ∈ Direction.nodes d ->
               GenerationNode.id n <> nodeId) ->
  let r := SessionStore.updateNode persisted now sessionId nodeId updates st in
  exists updated,
    r.1 = Some updated /\
    Session.directions updated = Session.directions session /\
    Session.updatedAt updated = now /\
    updated = SessionPatch.merge now session SessionPatch.empty /\
    JsMap.get sessionId (SessionStore.sessions r.2) = Some updated /\
    sessionId ∈ SessionStore.dirty r.2.
Proof.
  intros Hget Habs r. subst r. rewrite updateNode_spec, Hget. cbn [fst snd].
  rewrite (patched_directions_absent _ _ _ Habs).
  eexists. split; [reflexivity|]. split; [reflexivity|].
  split; [reflexivity|]. split; [reflexivity|]. split.
  - unfold updated_store. cbn. apply JsMap_get_set_eq.
  - unfold updated_store. cbn. apply JsSet_elem_add. by left.
Qed.

Lemma C10_updateNode_absent_node_witness :
  exists updated,
    (SessionStore.updateNode [] Sample.t1 "s-1" "no-such-node"
       Pipeline.generating_patch (Sample.store_of Sample.planned)).1
      = Some updated /\
    Session.directions updated = Session.directions Sample.planned /\
    Session.updatedAt updated = Sample.t1.
Proof.
  destruct (C10_updateNode_absent_node [] Sample.t1 "s-1" "no-such-node"
              Pipeline.generating_patch (Sample.store_of Sample.planned)
              Sample.planned)
    as (updated & H1 & H2 & H3 & _).
  - reflexivity.
  - intros d n Hd Hn. vm_compute in Hd.
    apply list_elem_of_singleton in Hd. subst d. vm_compute in Hn.
    by apply elem_of_nil in Hn.
  - exists updated. auto.
Defined.

(** C9: for a session id that the store does not hold, [delete] returns
    false and leaves the store (every session, every dirty flag) and the
    files as they were; for a session id that the store holds, [delete]
    returns true, the id is no longer found by [get], no session listed by
    [list] has that id while every other session is still listed, the id is
    no longer dirty, and this is so whether or not the session's file
    exists or can be removed: a missing file leaves the files untouched. *)
Theorem C9_delete
    (persisted : list Session.t) (unlink_ok : bool) (sessionId : string)
    (st : SessionStore.Store) (disk : SessionStore.Disk) :
  let st0 := loaded persisted st in
  let r := SessionStore.delete persisted unlink_ok sessionId st disk in
  (JsMap.get sessionId (SessionStore.sessions st0) = None ->
   r = (false, st0, disk)) /\
  (forall deleted,
     JsMap.get sessionId (SessionStore.sessions st0) = Some deleted ->
     r.1.1 = true /\
     (SessionStore.get persisted sessionId r.1.2).1 = None /\
     (forall s, s ∈ (SessionStore.list persisted r.1.2).1 <->
                exists k, k <> sessionId /\
                          (k, s) ∈ SessionStore.sessions st0) /\
     (keyed_by_id st0 ->
      forall s, s ∈ (SessionStore.list persisted r.1.2).1 ->
                Session.id s <> sessionId) /\
     (sessionId ∉ SessionStore.dirty r.1.2) /\
     (disk !! SessionStore.session_path sessionId = None -> r.2 = disk)).
Proof.
  intros st0 r. subst r. unfold SessionStore.delete.
  rewrite ensureInitialized_spec. fold st0. unfold JsMap.has.
  assert (Hinit : SessionStore.initialized st0 = true)
    by apply loaded_initialized.
  split.
  - intros ->. reflexivity.
  - intros deleted ->. cbn [negb fst snd].
    assert (Hlist : forall s,
      s ∈ (SessionStore.list persisted
             (SessionStore.mkStore
                (JsMap.delete sessionId (SessionStore.sessions st0))
                (JsSet.delete sessionId (SessionStore.dirty st0))
                (SessionStore.initialized st0))).1
      <-> exists k, k <> sessionId /\ (k, s) ∈ SessionStore.sessions st0).
    { intros s. unfold SessionStore.list, SessionStore.bind.
      rewrite ensureInitialized_spec, loaded_id by done. cbn [fst snd].
      rewrite sort_elem. unfold JsMap.values.
      change (map snd ?l) with (snd <$> l). rewrite list_elem_of_fmap. split.
      - intros ([k s'] & -> & Hin). apply JsMap_elem_delete in Hin as [? ?].
        by exists k.
      - intros (k & Hne & Hin). exists (k, s). split; [done|].
        by apply JsMap_elem_delete. }
    split; [reflexivity|]. split.
    { rewrite get_spec, loaded_id by done. cbn. apply JsMap_get_delete_eq. }
    split; [exact Hlist|]. split.
    { intros Hwf s Hs. apply Hlist in Hs as (k & Hne & Hin).
      by rewrite (Hwf k s Hin). }
    split.
    { cbn. rewrite JsSet_elem_delete. tauto. }
    intros Hnone. unfold SessionStore.unlink. by rewrite Hnone.
Qed.

Lemma C9_delete_witness :
  SessionStore.delete [] true "no-such-session"
    (Sample.store_of Sample.planned) ∅
  = (false, Sample.store_of Sample.planned, ∅) /\
  (SessionStore.delete [] true "s-1"
     (Sample.store_of Sample.planned) ∅).1.1 = true /\
  (forall s,
     s ∈ (SessionStore.list []
            (SessionStore.delete [] true "s-1"
               (Sample.store_of Sample.planned) ∅).1.2).1 ->
     Session.id s <> "s-1").
Proof.
  split.
  - apply (C9_delete [] true "no-such-session"
             (Sample.store_of Sample.planned) ∅).
    reflexivity.
  - destruct (C9_delete [] true "s-1" (Sample.store_of Sample.planned) ∅)
      as [_ H].
    destruct (H Sample.planned) as (H1 & _ & _ & H4 & _); [reflexivity|].
    split; [exact H1|]. apply H4.
    intros k s Hin. vm_compute in Hin.
    apply list_elem_of_singleton in Hin. by injection Hin as -> ->.
Defined.

(** C6: one run of the periodic flush.  Whatever fails, the sessions in
    memory are untouched, so a later mutation gives the same result as
    without the flush.  When the data directory can be created the run
    ends without an error, and each dirty session of the store is either
    written to its own file [data/sessions/<id>.json] and no longer dirty
    (its write succeeded) or dirty again for the next run (its write
    failed); a flag is therefore cleared only when the file holds the
    session.  When the directory cannot be created nothing is written and
    every flag stays.  No flag appears that was not there, and files of
    other paths are untouched. *)
Theorem C6_flushDirty
    (mkdir_ok : bool) (write_ok : string -> bool)
    (st : SessionStore.Store) (disk : SessionStore.Disk) :
  let r := SessionStore.flushDirty mkdir_ok write_ok st disk in
  SessionStore.sessions r.1.2 = SessionStore.sessions st /\
  SessionStore.initialized r.1.2 = SessionStore.initialized st /\
  (forall persisted now sessionId updates,
     (SessionStore.update persisted now sessionId updates r.1.2).1
     = (SessionStore.update persisted now sessionId updates st).1) /\
  (mkdir_ok = true -> r.1.1 = Returned tt) /\
  (forall sessionId session,
     sessionId ∈ SessionStore.dirty st ->
     JsMap.get sessionId (SessionStore.sessions st) = Some session ->
     if mkdir_ok && write_ok (SessionStore.session_path sessionId)
     then r.2 !! SessionStore.session_path sessionId
            = Some (SessionStore.document session)
          /\ sessionId ∉ SessionStore.dirty r.1.2
     else sessionId ∈ SessionStore.dirty r.1.2) /\
  (mkdir_ok = false -> r.2 = disk /\ r.1.2 = st) /\
  (forall sessionId,
     sessionId ∈ SessionStore.dirty r.1.2 ->
     sessionId ∈ SessionStore.dirty st) /\
  (forall path,
     (forall sessionId, sessionId ∈ SessionStore.dirty st ->
                        SessionStore.session_path sessionId <> path) ->
     r.2 !! path = disk !! path).
Proof.
  intros r. subst r. unfold SessionStore.flushDirty, JsSet.size.
  destruct (SessionStore.dirty st) as [|d0 ds] eqn:Hdirty.
  { cbn. repeat split; try done.
    - intros ? ? Hin. by apply elem_of_nil in Hin.
    - by destruct st; cbn in *; subst. }
  cbn [length Nat.eqb].
  destruct mkdir_ok; cbn [negb andb].
  2:{ cbn. rewrite Hdirty. repeat split; try done. }
  destruct (SessionStore.flush_loop write_ok (d0 :: ds)
              (SessionStore.sessions st) (JsSet.clear (d0 :: ds)) disk)
    as [dirty' disk'] eqn:Hloop.
  cbn [fst snd SessionStore.sessions SessionStore.initialized
       SessionStore.dirty].
  assert (Hd : forall id, id ∈ dirty' <->
            id ∈ d0 :: ds /\ is_Some (JsMap.get id (SessionStore.sessions st))
            /\ write_ok (SessionStore.session_path id) = false).
  { intros id. replace dirty' with
      (SessionStore.flush_loop write_ok (d0 :: ds) (SessionStore.sessions st)
         (JsSet.clear (d0 :: ds)) disk).1 by by rewrite Hloop.
    rewrite flush_loop_dirty. unfold JsSet.clear. rewrite elem_of_nil. tauto. }
  split; [done|]. split; [done|]. split.
  { intros persisted now sessionId updates. rewrite !update_spec.
    unfold loaded, SessionStore.ensureInitialized. cbn.
    destruct (SessionStore.initialized st); cbn;
      by destruct (JsMap.get sessionId _). }
  split; [done|]. split.
  { intros sessionId session Hin Hs.
    destruct (write_ok (SessionStore.session_path sessionId)) eqn:Hw.
    - split.
      + replace disk' with
          (SessionStore.flush_loop write_ok (d0 :: ds)
             (SessionStore.sessions st) (JsSet.clear (d0 :: ds)) disk).2
          by by rewrite Hloop.
        by apply flush_loop_written.
      + rewrite Hd. intros (_ & _ & Hf). congruence.
    - apply Hd. rewrite Hs. eauto. }
  split; [done|]. split.
  { intros sessionId Hin. by apply Hd in Hin as [? _]. }
  intros path Hno.
  replace disk' with
    (SessionStore.flush_loop write_ok (d0 :: ds)
       (SessionStore.sessions st) (JsSet.clear (d0 :: ds)) disk).2
    by by rewrite Hloop.
  by apply flush_loop_other.
Qed.

Lemma C6_flushDirty_witness :
  let st := SessionStore.mkStore [("s-1", Sample.planned)] ["s-1"] true in
  (SessionStore.flushDirty true (fun _ => true) st ∅).1.1 = Returned tt /\
  (SessionStore.flushDirty true (fun _ => true) st ∅).2
    !! SessionStore.session_path "s-1"
  = Some (SessionStore.document Sample.planned) /\
  ("s-1" ∉ SessionStore.dirty
             (SessionStore.flushDirty true (fun _ => true) st ∅).1.2) /\
  ("s-1" ∈ SessionStore.dirty
             (SessionStore.flushDirty true (fun _ => false) st ∅).1.2).
Proof.
  intros st.
  destruct (C6_flushDirty true (fun _ => true) st ∅)
    as (_ & _ & _ & Hret & Hwritten & _).
  destruct (C6_flushDirty true (fun _ => false) st ∅)
    as (_ & _ & _ & _ & Hfailed & _).
  split; [by apply Hret|].
  assert (Hin : "s-1" ∈ SessionStore.dirty st) by apply list_elem_of_here.
  assert (Hs : JsMap.get "s-1" (SessionStore.sessions st) = Some Sample.planned)
    by reflexivity.
  destruct (Hwritten "s-1" Sample.planned Hin Hs) as [H1 H2].
  split; [exact H1|]. split; [exact H2|].
  exact (Hfailed "s-1" Sample.planned Hin Hs).
Defined.

(* ================================================================== *)
(** * The generate route *)
(* ================================================================== *)

(** C1, as the specification states it, does not hold: a request may name
    its depth, and the node is then created with that depth.  Here the
    direction holds no node and the request asks for depth 3: the request
    is accepted and the node has depth 3, not 0 + 1. *)
Lemma C1_counterexample :
  let r := Pipeline.POST_generate [] "n-1" "j-1" "s-1"
             Sample.request_depth_3 (Sample.world_of Sample.planned) in
  Pipeline.status r.1 = 200 /\
  SessionStore.find_direction "dir-1" (Session.directions Sample.planned)
    = Some (Sample.direction "dir-1" []) /\
  exists session' node,
    JsMap.get "s-1" (SessionStore.sessions (Pipeline.store r.2))
      = Some session' /\
    SessionStore.find_node "n-1" (Session.directions session') = Some node /\
    (GenerationNode.depth node == 3)%Q /\
    ~ (GenerationNode.depth node == inject_Z (Z.of_nat 0) + 1)%Q.
Proof.
  cbn zeta. split; [vm_compute; reflexivity|]. split; [reflexivity|].
  eexists _, _. split; [vm_compute; reflexivity|].
  split; [vm_compute; reflexivity|]. split; [reflexivity|].
  intros H. vm_compute in H. discriminate H.
Qed.

Section Generate.
Variable persisted : list Session.t.
Local Abbreviation loaded := (loaded persisted).

(** C1, amended: for a request that names an existing direction of an
    analyzed session, the effective depth is the depth the request names
    or, when it names none, the number of nodes already in the direction
    plus 1.  When the effective depth exceeds 5 the request is answered
    with status 400 and nothing happens but the lazy initialisation of the
    store: no node, no event, no job.  Otherwise, when the parent node (if
    one is named) exists, the request is answered with status 200 and a
    node with the effective depth has been appended to the direction. *)
Theorem C1_generate_depth
    (nodeId jobId sessionId : string) (request : Pipeline.GenerateRequest)
    (w : Pipeline.World)
    (directionId : string) (session : Session.t) (direction : Direction.t) :
  Pipeline.req_directionId request = Some directionId ->
  directionId <> "" ->
  JsMap.get sessionId (SessionStore.sessions (loaded (Pipeline.store w)))
    = Some session ->
  is_Some (Session.salienceProfile session) ->
  SessionStore.find_direction directionId (Session.directions session)
    = Some direction ->
  let r := Pipeline.POST_generate persisted nodeId jobId sessionId request w in
  let mediaType := default MediaType.image (Pipeline.req_mediaType request) in
  let actualDepth :=
    match Pipeline.req_depth request with
    | Some depth => depth
    | None => Num.add (Num.of_nat (length (Direction.nodes direction)))
                (Num.of_Z 1)
    end in
  (Num.gtb actualDepth (Num.of_Z 5) = true ->
   Pipeline.status r.1 = 400 /\
   r.2 = Pipeline.with_store (loaded (Pipeline.store w)) w) /\
  (Num.gtb actualDepth (Num.of_Z 5) = false ->
   (Pipeline.truthy (Pipeline.req_parentNodeId request) = true ->
    is_Some (SessionStore.find_node
               (default "" (Pipeline.req_parentNodeId request))
               (Session.directions session))) ->
   r.1 = Pipeline.mkResponse 200
           (Pipeline.GeneratedBody nodeId jobId directionId actualDepth
              mediaType) /\
   exists session' now,
     JsMap.get sessionId (SessionStore.sessions (Pipeline.store r.2))
       = Some session' /\
     Session.directions session'
     = extended_directions directionId
         (Pipeline.new_node nodeId directionId actualDepth mediaType
            (Pipeline.req_parentNodeId request) now)
         (Session.directions session) /\
     GenerationNode.depth
       (Pipeline.new_node nodeId directionId actualDepth mediaType
          (Pipeline.req_parentNodeId request) now) = actualDepth).
Proof.
  intros Hdir Hne Hget Hprof Hfind r mediaType actualDepth.
  assert (Hinit : SessionStore.initialized (loaded (Pipeline.store w)) = true)
    by apply loaded_initialized.
  assert (Hnonempty : (length (Session.directions session) =? 0)%nat = false).
  { destruct (Session.directions session); [done|reflexivity]. }
  assert (Hhead :
    r = match
          (if Num.gtb actualDepth (Num.of_Z 5)
           then Pipeline.respond 400
                  (Pipeline.ErrorBody "Maximum depth reached"
                     (Some "Depth 5/5 reached. Branch from any node to continue."))
           else
             Pipeline.bind
               (if Pipeline.truthy (Pipeline.req_parentNodeId request)
                then
                  Pipeline.bind
                    (Pipeline.store_getNode persisted sessionId
                       (default "" (Pipeline.req_parentNodeId request)))
                    (fun parentNode =>
                       Pipeline.ret (bool_decide (is_Some parentNode)))
                else Pipeline.ret true)
               (fun parentOk =>
                  if negb parentOk
                  then Pipeline.respond 404
                         (Pipeline.ErrorBody "Parent node not found" None)
                  else
                    Pipeline.bind
                      (Pipeline.enqueueGeneration persisted nodeId jobId
                         sessionId directionId
                         (Pipeline.req_parentNodeId request) mediaType
                         actualDepth)
                      (fun ids =>
                         Pipeline.bind
                           (Pipeline.store_setState persisted sessionId
                              SessionState.generating)
                           (fun _ =>
                              Pipeline.respond 200
                                (Pipeline.GeneratedBody ids.1 ids.2
                                   directionId actualDepth mediaType)))))
            (Pipeline.with_store (loaded (Pipeline.store w)) w)
        with
        | (Returned x, w') => (x, w')
        | (Thrown message, w') =>
            (Pipeline.mkResponse 500 (Pipeline.ErrorBody message None), w')
        end).
  { subst r. unfold Pipeline.POST_generate.
    rewrite Hdir. cbn [Pipeline.truthy]. unfold default; cbn [from_option id].
    rewrite bool_decide_eq_false_2 by done. cbn [negb].
    unfold Pipeline.bind at 1. rewrite store_get_spec, Hget.
    rewrite bool_decide_eq_true_2 by done. cbn [negb orb]. rewrite Hnonempty.
    rewrite Hfind. reflexivity. }
  split.
  - intros Hgt. rewrite Hhead, Hgt. cbn. done.
  - intros Hle Hparent. rewrite Hle in Hhead.
    set (w1 := Pipeline.with_store (loaded (Pipeline.store w)) w) in *.
    assert (Hst1 : Pipeline.store w1 = loaded (Pipeline.store w)) by done.
    unfold Pipeline.bind at 1 in Hhead.
    (* the parent check *)
    assert (Hpar : exists w2,
      (if Pipeline.truthy (Pipeline.req_parentNodeId request)
       then Pipeline.bind
              (Pipeline.store_getNode persisted sessionId
                 (default "" (Pipeline.req_parentNodeId request)))
              (fun parentNode => Pipeline.ret (bool_decide (is_Some parentNode)))
       else Pipeline.ret true) w1 = (Returned true, w2)
      /\ Pipeline.store w2 = loaded (Pipeline.store w)).
    { destruct (Pipeline.truthy (Pipeline.req_parentNodeId request)) eqn:Htr.
      - unfold Pipeline.bind, Pipeline.store_getNode, Pipeline.store_call.
        rewrite getNode_spec, Hst1, loaded_loaded, Hget.
        eexists. split.
        + unfold Pipeline.ret. rewrite bool_decide_eq_true_2 by auto. done.
        + done.
      - eexists. split; [reflexivity|done]. }
    destruct Hpar as (w2 & Hw2 & Hst2). rewrite Hw2 in Hhead.
    cbn [negb] in Hhead.
    unfold Pipeline.bind at 1 in Hhead.
    unfold Pipeline.enqueueGeneration in Hhead.
    unfold Pipeline.bind at 1 in Hhead.
    rewrite store_get_spec, Hst2, loaded_loaded, Hget, Hfind in Hhead.
    unfold Pipeline.bind at 1 in Hhead.
    unfold Pipeline.store_addNode, Pipeline.store_call in Hhead.
    cbn [Pipeline.store Pipeline.with_store] in Hhead.
    rewrite addNode_spec, loaded_loaded, Hget in Hhead. cbn zeta in Hhead.
    unfold Pipeline.bind at 1 in Hhead.
    unfold Pipeline.emitNodeCreated in Hhead.
    rewrite emitSessionEvent_returns in Hhead by done.
    unfold Pipeline.bind at 1 in Hhead. unfold Pipeline.bind at 1 in Hhead.
    unfold Pipeline.ret at 1 in Hhead. unfold Pipeline.bind at 1 in Hhead.
    unfold Pipeline.store_setState, Pipeline.store_call in Hhead.
    rewrite setState_spec in Hhead.
    match type of Hhead with
    | context [Pipeline.store (Pipeline.processQueue ?x)] =>
        assert (Hpq : Pipeline.store (Pipeline.processQueue x)
                      = Pipeline.store x)
    end.
    { unfold Pipeline.processQueue.
      destruct (Pipeline.isProcessing _); [done|].
      by destruct (Pipeline.jobQueue _). }
    rewrite Hpq in Hhead.
    cbn [Pipeline.store Pipeline.with_queue Pipeline.with_enqueued
         Pipeline.with_bus Pipeline.with_store] in Hhead.
    rewrite loaded_id in Hhead by (unfold updated_store; cbn; exact Hinit).
    unfold updated_store at 1 in Hhead. cbn [SessionStore.sessions] in Hhead.
    rewrite JsMap_get_set_eq in Hhead.
    cbn [fst snd Pipeline.respond Pipeline.ret] in Hhead.
    rewrite Hhead. cbn [fst snd].
    split; [reflexivity|].
    eexists _, _. split.
    + unfold updated_store. cbn [SessionStore.sessions Pipeline.store
                                  Pipeline.with_store].
      apply JsMap_get_set_eq.
    + split; reflexivity.
Qed.

End Generate.

Lemma C1_generate_depth_witness :
  (* five nodes already: the sixth is refused and nothing changes *)
  (let w := Sample.world_of Sample.full in
   let r := Pipeline.POST_generate [] "n-1" "j-1" "s-1"
              Sample.request_no_depth w in
   Pipeline.status r.1 = 400 /\
   r.2 = Pipeline.with_store (Pipeline.store w) w) /\
  (* no node yet: the first has depth 1 *)
  (let w := Sample.world_of Sample.planned in
   let r := Pipeline.POST_generate [] "n-1" "j-1" "s-1"
              Sample.request_no_depth w in
   r.1 = Pipeline.mkResponse 200
           (Pipeline.GeneratedBody "n-1" "j-1" "dir-1" (Num.of_Z 1)
              MediaType.image)).
Proof.
  split.
  - destruct (C1_generate_depth [] "n-1" "j-1" "s-1" Sample.request_no_depth
                (Sample.world_of Sample.full) "dir-1" Sample.full
                (Sample.direction "dir-1"
                   [Sample.node "n-a" 1; Sample.node "n-b" 2;
                    Sample.node "n-c" 3; Sample.node "n-d" 4;
                    Sample.node "n-e" 5]))
      as [H _]; [reflexivity|discriminate|reflexivity|by eexists|reflexivity|].
    apply H. reflexivity.
  - destruct (C1_generate_depth [] "n-1" "j-1" "s-1" Sample.request_no_depth
                (Sample.world_of Sample.planned) "dir-1" Sample.planned
                (Sample.direction "dir-1" []))
      as [_ H]; [reflexivity|discriminate|reflexivity|by eexists|reflexivity|].
    destruct H as [H _]; [reflexivity|discriminate|]. exact H.
Defined.

(* ================================================================== *)
(** * The pipeline on sample jobs *)
(* ================================================================== *)

(** C3 fails on the code.  An image job in which every call succeeds and
    the image API takes two timer periods: the observer of the session
    receives, for the node, progress 50 from [generateImage] and then 41
    and 42 from the ticker, so the progress values go back and the events
    are not in the claimed order. *)
Theorem C3_progress_events_go_back :
  let w := Pipeline.worker_step [] Sample.image_succeeds 0
             Sample.one_enqueued in
  let events := Events.observed_for "s-1" "n-1" (Pipeline.bus w) in
  map Events.type events
  = [Events.node_created] ++ replicate 9 Events.generation_progress
    ++ [Events.generation_complete] /\
  omap progress_of events
  = map Num.of_Z [5; 15; 30; 40; 50; 41; 42; 85; 95] /\
  in_claimed_order events = false.
Proof. vm_compute. auto. Qed.

(** A job that fails leaves the observer without a final event for its
    node: the ['error'] event is thrown by the emitter, which has no
    listener for it, before the wildcard emission. *)
Lemma C3_failed_node_has_no_final_event :
  let w := Pipeline.worker_step [] Sample.needs_revision 0
             Sample.one_enqueued in
  let events := Events.observed_for "s-1" "n-1" (Pipeline.bus w) in
  map Events.type events
  = [Events.node_created; Events.generation_progress;
     Events.generation_progress] /\
  in_claimed_order events = false.
Proof. vm_compute. auto. Qed.

(** With no running [processQueue] call there is nothing to resume. *)
Lemma worker_step_no_worker persisted env i w :
  Pipeline.workers w = [] -> Pipeline.worker_step persisted env i w = w.
Proof.
  intros H. unfold Pipeline.worker_step. by rewrite H, lookup_nil.
Qed.

(** C5 fails on the code.  Two jobs are enqueued and the first one fails
    in composition.  The node of the failed job gets status [error] and
    the message, and the job is marked failed; but no ['error'] event
    reaches the observer, the worker loop ends with the flag
    [isProcessing] still set, and the second job stays in the queue: no
    later request starts a loop again, and there is no loop left to
    resume. *)
Theorem C5_failed_job_halts_queue :
  let w := Pipeline.worker_step [] Sample.needs_revision 0
             Sample.two_enqueued in
  let w' := (Pipeline.POST_generate [] "n-3" "j-3" "s-1"
               Sample.request_no_depth w).2 in
  (option_map
     (fun n => (GenerationNode.status n, GenerationNode.error n))
     (SessionStore.getNode [] "s-1" "n-1" (Pipeline.store w)).1
   = Some (NodeStatus.error,
           Some "Prompt composition failed: subject unclear; no style")) /\
  map (fun j => (GenerationJob.id j, GenerationJob.status j))
    (Pipeline.finished w) = [("j-1", JobStatus.failed)] /\
  filter (fun e => Events.type e = Events.error)
    (Events.observed "s-1" (Pipeline.bus w)) = [] /\
  Pipeline.workers w = [] /\
  Pipeline.isProcessing w = true /\
  map GenerationJob.id (Pipeline.jobQueue w) = ["j-2"] /\
  map GenerationJob.id (Pipeline.jobQueue w') = ["j-2"; "j-3"] /\
  Pipeline.started w' = ["j-1"] /\
  (forall env i, Pipeline.worker_step [] env i w' = w').
Proof.
  cbn zeta. do 8 (split; [vm_compute; reflexivity|]).
  intros env i. apply worker_step_no_worker. vm_compute. reflexivity.
Qed.

(** A session without date-like text is read back as it was written, its
    dates as [Date] values. *)
Lemma reload_sample_session :
  let s := Sample.session SessionState.generating "a lighthouse at dusk"
             [Sample.direction "dir-1" [Sample.node "n-a" 1]] in
  let st := SessionStore.mkStore [("s-1", s)] ["s-1"] true in
  let disk := (SessionStore.flushDirty true (fun _ => true) st ∅).2 in
  let reloaded := SessionStore.loadAll_documents ["s-1.json"] disk [] in
  SessionStore.loaded_get (Some (JsValue.VStr "s-1")) reloaded
  = Some (Encode.session s) /\
  JsValue.prop "createdAt" (Encode.session s)
  = Some (JsValue.VDate Sample.t0).
Proof. cbn zeta. split; vm_compute; reflexivity. Qed.

(** C8 fails on the code.  A session whose caption is the text
    [2024-01-01T00:00:00.000Z] is flushed and the data directory is read
    back into a new store: the reviver turns the caption into a [Date], so
    the session read back differs from the one written. *)
Theorem C8_date_like_caption_not_restored :
  let s := Sample.dated_caption in
  let st := SessionStore.mkStore [("s-1", s)] ["s-1"] true in
  let disk := (SessionStore.flushDirty true (fun _ => true) st ∅).2 in
  let reloaded := SessionStore.loadAll_documents ["s-1.json"] disk [] in
  exists v,
    SessionStore.loaded_get (Some (JsValue.VStr "s-1")) reloaded = Some v /\
    JsValue.prop "caption" (Encode.session s)
    = Some (JsValue.VStr "2024-01-01T00:00:00.000Z") /\
    JsValue.prop "caption" v
    = Some (JsValue.VDate (JsDate.Time 1704067200000)) /\
    v <> Encode.session s.
Proof.
  cbn zeta. eexists. split; [vm_compute; reflexivity|].
  split; [reflexivity|]. split; [reflexivity|].
  intros H. apply (f_equal (JsValue.prop "caption")) in H.
  vm_compute in H. discriminate H.
Qed.

(* ================================================================== *)
(** * The queue *)
(* ================================================================== *)

Section Queue.
Variable persisted : list Session.t.

(** Nothing but [enqueueGeneration] and the worker loop touches the
    queue. *)
Section Frame.
Variable v : list GenerationJob.t * bool * list GenerationJob.t * list string
             * list string.

Local Abbreviation I := (fun w : Pipeline.World => queue_view w = v).

Lemma queue_frame_store A (m : Date -> SessionStore.St A) :
  keeps I (Pipeline.store_call m).
Proof.
  intros w Hw. unfold Pipeline.store_call.
  by destruct (m (Pipeline.now w) (Pipeline.store w)).
Qed.

Lemma queue_frame_emit sessionId t p :
  keeps I (Pipeline.emitSessionEvent sessionId t p).
Proof.
  intros w Hw. unfold Pipeline.emitSessionEvent.
  by destruct (Events.emitSessionEvent _ _ _ _ _).
Qed.

Lemma queue_frame_fire t : keeps I (Pipeline.fire persisted t).
Proof.
  unfold Pipeline.fire. destruct (Num.ltb _ _); [|apply keeps_ret].
  apply keeps_bind; [by intros w Hw|intros _].
  apply keeps_bind; [apply queue_frame_store|intros _].
  apply queue_frame_emit.
Qed.

Lemma queue_frame_sleep n : keeps I (Pipeline.sleep persisted n).
Proof.
  apply keeps_sleep; [done|]. intros t w Hw _. by apply queue_frame_fire.
Qed.

Lemma queue_frame_processJob env job :
  keeps I (Pipeline.processJob persisted env job).
Proof.
  apply keeps_processJob;
    [apply queue_frame_store|apply queue_frame_emit|done
    |intros t w Hw _; by apply queue_frame_fire
    |by intros ? ? ? ? ? w Hw|by intros ? w Hw].
Qed.

End Frame.

Lemma queue_view_processJob env job w :
  queue_view (Pipeline.processJob persisted env job w).2 = queue_view w.
Proof. by apply (queue_frame_processJob (queue_view w)). Qed.

Lemma queue_view_sleep n w :
  queue_view (Pipeline.sleep persisted n w).2 = queue_view w.
Proof. by apply (queue_frame_sleep (queue_view w)). Qed.

Lemma queue_view_store_call {A} (m : Date -> SessionStore.St A) w :
  queue_view (Pipeline.store_call m w).2 = queue_view w.
Proof. by apply (queue_frame_store (queue_view w)). Qed.

Lemma queue_view_emit sessionId t p w :
  queue_view (Pipeline.emitSessionEvent sessionId t p w).2 = queue_view w.
Proof. by apply (queue_frame_emit (queue_view w)). Qed.

(** The invariant of the queue. *)
Lemma queue_ok_start w : idle_start w -> queue_ok w.
Proof.
  intros (Hq & Hp & Hw & He & Hs). unfold queue_ok, processing.
  rewrite Hq, Hw, He, Hs. repeat split; try done; by constructor.
Qed.

Lemma queue_ok_view w w' : queue_view w' = queue_view w -> queue_ok w -> queue_ok w'.
Proof.
  unfold queue_view, queue_ok, processing.
  intros [= -> -> -> -> ->]. done.
Qed.

Lemma queue_ok_take_next w :
  queue_ok w -> length (Pipeline.workers w) = 1%nat ->
  queue_ok (Pipeline.take_next 0 w).
Proof.
  unfold queue_ok, processing, Pipeline.take_next.
  intros (Hlen & Hst & Hflag & Hfifo & Hq) Hone.
  destruct (Pipeline.workers w) as [|j [|? ?]] eqn:Hw; try done.
  destruct (Pipeline.jobQueue w) as [|job rest] eqn:Hjq; cbn.
  - split; [lia|]. split; [constructor|]. split; [by intros []|].
    split; [|constructor]. exact Hfifo.
  - split; [lia|]. split; [constructor; [reflexivity|constructor]|]. split; [auto|].
    split; [cbn in Hfifo; by rewrite <- app_assoc|]. by inversion Hq.
Qed.

Lemma queue_ok_processQueue w : queue_ok w -> queue_ok (Pipeline.processQueue w).
Proof.
  unfold Pipeline.processQueue. intros Hok.
  destruct (Pipeline.isProcessing w) eqn:Hp; [done|].
  destruct Hok as (Hlen & Hst & Hflag & Hfifo & Hq).
  unfold processing in *.
  assert (Hw : Pipeline.workers w = []).
  { destruct (Pipeline.workers w); [done|].
    rewrite Hflag in Hp; done. }
  unfold queue_ok, processing.
  destruct (Pipeline.jobQueue w) as [|job rest] eqn:Hjq; cbn; rewrite Hw.
  - split; [cbn; lia|]. split; [constructor|]. split; [by intros []|].
    split; [|constructor]. exact Hfifo.
  - split; [cbn; lia|]. split; [constructor; [reflexivity|constructor]|]. split; [done|].
    split; [cbn in Hfifo; by rewrite <- app_assoc|]. by inversion Hq.
Qed.

Lemma queue_ok_enqueue nodeId jobId sessionId directionId parentNodeId
    mediaType depth w :
  queue_ok w ->
  queue_ok (Pipeline.enqueueGeneration persisted nodeId jobId sessionId
              directionId parentNodeId mediaType depth w).2.
Proof.
  intros Hok. unfold Pipeline.enqueueGeneration.
  unfold Pipeline.bind at 1.
  pose proof (queue_view_store_call
                (fun _ => SessionStore.get persisted sessionId) w) as Hv.
  fold (Pipeline.store_get persisted sessionId) in Hv.
  destruct (Pipeline.store_get persisted sessionId w) as [[session|e] w1] eqn:E;
    cbn [snd] in Hv; [|by apply (queue_ok_view w)].
  apply (queue_ok_view _ _ Hv) in Hok. clear Hv E.
  destruct session as [session|]; [|done].
  destruct (SessionStore.find_direction _ _); [|done].
  unfold Pipeline.bind at 1.
  match goal with
  | |- context [Pipeline.store_addNode persisted ?s ?d ?n w1] =>
      pose proof (queue_view_store_call
        (fun t => SessionStore.addNode persisted t s d n) w1) as Hv;
      fold (Pipeline.store_addNode persisted s d n) in Hv;
      destruct (Pipeline.store_addNode persisted s d n w1)
        as [[r|e] w2] eqn:E
  end; cbn [snd] in Hv; [|by apply (queue_ok_view w1)].
  apply (queue_ok_view _ _ Hv) in Hok. clear Hv E.
  unfold Pipeline.bind at 1. unfold Pipeline.emitNodeCreated.
  match goal with
  | |- context [Pipeline.emitSessionEvent ?s ?t ?p w2] =>
      pose proof (queue_view_emit s t p w2) as Hv;
      destruct (Pipeline.emitSessionEvent s t p w2) as [[r'|e] w3] eqn:E
  end; cbn [snd] in Hv; [|by apply (queue_ok_view w2)].
  apply (queue_ok_view _ _ Hv) in Hok. clear Hv E.
  unfold Pipeline.bind, Pipeline.ret. cbn [snd].
  apply queue_ok_processQueue.
  destruct Hok as (Hlen & Hst & Hflag & Hfifo & Hq).
  unfold queue_ok, processing. cbn.
  repeat split; try done.
  - rewrite map_app, app_assoc, Hfifo. done.
  - apply Forall_app. split; [done|]. by repeat constructor.
Qed.

Lemma queue_ok_worker_step env i w :
  queue_ok w -> queue_ok (Pipeline.worker_step persisted env i w).
Proof.
  intros Hok. unfold Pipeline.worker_step.
  destruct (Pipeline.workers w !! i) as [job|] eqn:Hi; [|done].
  assert (Hone : length (Pipeline.workers w) = 1%nat /\ i = 0%nat).
  { destruct Hok as (Hlen & _). unfold processing in Hlen.
    apply lookup_lt_Some in Hi. lia. }
  destruct Hone as [Hone ->].
  pose proof (queue_view_processJob env job w) as Hv.
  destruct (Pipeline.processJob persisted env job w) as [[[]|message] w1];
    cbn [snd] in Hv.
  - apply queue_ok_take_next.
    + by apply (queue_ok_view w).
    + injection Hv as _ _ Hw _ _. cbn. by rewrite Hw.
  - set (w1' := Pipeline.with_finished _ w1).
    assert (Hv' : queue_view w1' = queue_view w) by done.
    match goal with
    | |- context [Pipeline.bind ?m ?k w1'] =>
        assert (Hv2 : queue_view (Pipeline.bind m k w1').2 = queue_view w1');
        [|destruct (Pipeline.bind m k w1') as [[[]|e] w2]; cbn [snd] in Hv2]
    end.
    { apply (keeps_bind (fun w => queue_view w = queue_view w1')); [| |done].
      - apply queue_frame_store.
      - intros _. apply queue_frame_emit. }
    + apply queue_ok_take_next.
      * apply (queue_ok_view w); [congruence|done].
      * rewrite Hv' in Hv2. injection Hv2 as _ _ Hw _ _. by rewrite Hw.
    + rewrite Hv' in Hv2. injection Hv2 as Hq Hp Hw He Hs.
      destruct Hok as (Hlen & Hst & Hflag & Hfifo & Hqs).
      unfold queue_ok, processing in *. cbn. rewrite Hq, Hw, He, Hs.
      destruct (Pipeline.workers w) as [|j [|? ?]]; try done.
      cbn. split; [lia|]. split; [constructor|]. split; [by intros []|done].
Qed.

Lemma queue_ok_moves w w' : Pipeline.moves persisted w w' -> queue_ok w -> queue_ok w'.
Proof.
  intros [] Hok.
  - by apply queue_ok_enqueue.
  - by apply queue_ok_worker_step.
  - eapply queue_ok_view; [apply queue_view_sleep|done].
  - eapply queue_ok_view; [apply queue_view_store_call|done].
Qed.

End Queue.

(** C2: in every world the process can reach from a start without jobs,
    whatever the interleaving of requests, resumptions of the worker loop,
    timers and store calls, at most one job is being processed and at most
    one [processQueue] call is running; the job in flight has status
    [processing] and the flag [isProcessing] is set while it runs; and the
    jobs are taken one by one from the head of the queue in the order they
    were pushed (the jobs taken so far, followed by the jobs still queued,
    are the jobs pushed so far). *)
Theorem C2_one_job_at_a_time
    (persisted : list Session.t) (w0 w : Pipeline.World) :
  idle_start w0 ->
  Pipeline.reachable persisted w0 w ->
  (length (processing w) <= 1)%nat /\
  Forall (fun j => GenerationJob.status j = JobStatus.processing)
    (processing w) /\
  (processing w <> [] -> Pipeline.isProcessing w = true) /\
  Pipeline.started w ++ map GenerationJob.id (Pipeline.jobQueue w)
  = Pipeline.enqueued w /\
  Forall (fun j => GenerationJob.status j = JobStatus.queued)
    (Pipeline.jobQueue w).
Proof.
  intros Hstart Hreach. change (queue_ok w).
  induction Hreach as [|w w' _ IH Hmove]; [by apply queue_ok_start|].
  by apply (queue_ok_moves persisted w).
Qed.

Lemma C2_one_job_at_a_time_witness :
  let w1 := (Pipeline.enqueueGeneration [] "n-1" "j-1" "s-1" "dir-1" None
               MediaType.image (Num.of_Z 1)
               (Sample.world_of Sample.planned)).2 in
  let w2 := (Pipeline.enqueueGeneration [] "n-2" "j-2" "s-1" "dir-1" None
               MediaType.image (Num.of_Z 2) w1).2 in
  let w3 := Pipeline.worker_step [] Sample.image_succeeds 0 w2 in
  (length (processing w3) <= 1)%nat /\
  Pipeline.started w3 ++ map GenerationJob.id (Pipeline.jobQueue w3)
  = Pipeline.enqueued w3.
Proof.
  intros w1 w2 w3.
  assert (Hstart : idle_start (Sample.world_of Sample.planned))
    by (repeat split; reflexivity).
  assert (Hreach : Pipeline.reachable [] (Sample.world_of Sample.planned) w3).
  { apply (Pipeline.reach_step [] _ w2); [|apply Pipeline.step_worker].
    apply (Pipeline.reach_step [] _ w1); [|apply Pipeline.step_enqueue].
    apply (Pipeline.reach_step [] _ (Sample.world_of Sample.planned));
      [apply Pipeline.reach_start|apply Pipeline.step_enqueue]. }
  destruct (C2_one_job_at_a_time [] _ _ Hstart Hreach)
    as (H1 & _ & _ & H4 & _).
  split; [exact H1|exact H4].
Defined.

(* ================================================================== *)
(** * The stored progress of a node *)
(* ================================================================== *)

Section NodeFacts.
Variable persisted : list Session.t.

Lemma merge_id n u :
  NodePatch.id u = None ->
  GenerationNode.id (NodePatch.merge n u) = GenerationNode.id n.
Proof. intros H. unfold NodePatch.merge. cbn. by rewrite H. Qed.

Lemma find_patched_nodes nodeId nodeId' u (ns : list GenerationNode.t) :
  NodePatch.id u = None ->
  List.find (fun n => bool_decide (GenerationNode.id n = nodeId))
    (map (fun n => if decide (GenerationNode.id n = nodeId')
                   then NodePatch.merge n u else n) ns)
  = (fun n => if decide (GenerationNode.id n = nodeId')
              then NodePatch.merge n u else n)
    <$> List.find (fun n => bool_decide (GenerationNode.id n = nodeId)) ns.
Proof.
  intros Hid. induction ns as [|n ns IH]; [done|]. cbn [map List.find].
  assert (GenerationNode.id
            (if decide (GenerationNode.id n = nodeId')
             then NodePatch.merge n u else n) = GenerationNode.id n) as ->.
  { destruct (decide _); [by apply merge_id|done]. }
  destruct (bool_decide (GenerationNode.id n = nodeId)); [done|apply IH].
Qed.

Lemma find_node_patched nodeId nodeId' u ds :
  NodePatch.id u = None ->
  SessionStore.find_node nodeId (patched_directions nodeId' u ds)
  = (fun n => if decide (GenerationNode.id n = nodeId')
              then NodePatch.merge n u else n)
    <$> SessionStore.find_node nodeId ds.
Proof.
  intros Hid. induction ds as [|d ds IH]; [done|].
  cbn [patched_directions map SessionStore.find_node Direction.nodes
       Direction.with_nodes].
  rewrite find_patched_nodes by done.
  destruct (List.find _ (Direction.nodes d)); [done|]. cbn. apply IH.
Qed.

Lemma find_node_id nodeId ds n :
  SessionStore.find_node nodeId ds = Some n -> GenerationNode.id n = nodeId.
Proof.
  induction ds as [|d ds IH]; [done|]. cbn.
  destruct (List.find _ (Direction.nodes d)) as [n'|] eqn:Hf; [|done].
  intros [= ->]. apply find_some in Hf as [_ Hb].
  by apply bool_decide_eq_true in Hb.
Qed.

Lemma node_at_updateNode now sessionId' nodeId' u st sessionId nodeId n :
  SessionStore.initialized st = true ->
  NodePatch.id u = None ->
  node_at sessionId nodeId st = Some n ->
  node_at sessionId nodeId
    (SessionStore.updateNode persisted now sessionId' nodeId' u st).2
  = Some (if decide (sessionId' = sessionId /\ nodeId' = nodeId)
          then NodePatch.merge n u else n)
  /\ SessionStore.initialized
       (SessionStore.updateNode persisted now sessionId' nodeId' u st).2
     = true.
Proof.
  intros Hinit Hid Hn. rewrite updateNode_spec, loaded_id by done.
  destruct (JsMap.get sessionId' (SessionStore.sessions st)) as [s'|] eqn:Hs'.
  2:{ cbn [snd]. split; [|done]. rewrite Hn. f_equal.
      rewrite decide_False; [done|]. intros [-> _]. unfold node_at in Hn.
      by rewrite Hs' in Hn. }
  cbn [snd]. split; [|done]. unfold node_at, updated_store.
  cbn [SessionStore.sessions].
  destruct (decide (sessionId' = sessionId)) as [->|Hne].
  - rewrite JsMap_get_set_eq. cbn. unfold node_at in Hn. rewrite Hs' in Hn.
    rewrite find_node_patched, Hn by done. cbn. f_equal.
    rewrite (find_node_id _ _ _ Hn).
    destruct (decide (nodeId = nodeId')) as [->|Hne'].
    + by rewrite decide_True.
    + rewrite decide_False; [done|]. intros [_ ?]. congruence.
  - rewrite JsMap_get_set_ne by done. fold (node_at sessionId nodeId st).
    rewrite Hn. f_equal. rewrite decide_False; [done|]. by intros [? _].
Qed.

End NodeFacts.

Section PhaseFacts.
Variable persisted : list Session.t.
Variables (sessionId nodeId : string).
Variable history0 : list SessionStore.Store.
Variable n0 : GenerationNode.t.

Local Abbreviation good := (good sessionId nodeId history0 n0).
Local Abbreviation phase := (phase sessionId nodeId history0 n0).
Local Abbreviation Open := (Open sessionId nodeId history0 n0).
Local Abbreviation Running := (Running sessionId nodeId history0 n0).
Local Abbreviation Done := (Done sessionId nodeId history0 n0).
Local Abbreviation Settled := (Settled sessionId nodeId history0 n0).
Local Abbreviation Mid := (Mid sessionId nodeId history0 n0).
Local Abbreviation Failed := (Failed sessionId nodeId history0 n0).
Local Abbreviation for_node := (ticker_for sessionId nodeId).

Lemma trail_full l n : trail sessionId nodeId n0 l n -> full_iff_complete n.
Proof. by intros []. Qed.

Lemma good_core w w' n : core w' = core w -> good w n -> good w' n.
Proof.
  unfold core, good, tickers_wf. intros [= Hs Hh Ht Hn].
  by rewrite Hs, Hh, Ht, Hn.
Qed.

Lemma phase_core Q w w' : core w' = core w -> phase Q w -> phase Q w'.
Proof.
  intros Hc (n & Hg & HQ). exists n. split; [by apply (good_core w)|].
  injection Hc as _ _ -> _. done.
Qed.

Lemma good_with_store w n st' n' :
  good w n ->
  node_at sessionId nodeId st' = Some n' ->
  (GenerationNode.progress n <= GenerationNode.progress n')%Q ->
  full_iff_complete n' ->
  SessionStore.initialized st' = true ->
  good (Pipeline.with_store st' w) n'.
Proof.
  intros ((new & Hh & Htr) & Hn & Hinit & Hwf) Hn' Hle Hfull Hinit'.
  split; [|done]. exists (new ++ [st']). split.
  - cbn. by rewrite Hh, app_assoc.
  - by apply (trail_snoc _ _ _ new n).
Qed.

Lemma good_full w n : good w n -> full_iff_complete n.
Proof. intros ((new & _ & Htr) & _). by apply (trail_full new). Qed.

(** A store call that leaves the node as it is. *)
Lemma phase_same_node Q w st' :
  phase Q w ->
  node_at sessionId nodeId st' = node_at sessionId nodeId (Pipeline.store w) ->
  SessionStore.initialized st' = true ->
  phase Q (Pipeline.with_store st' w).
Proof.
  intros (n & Hg & HQ) Hsame Hinit. exists n. split; [|done].
  apply (good_with_store w n); try done.
  - rewrite Hsame. apply Hg.
  - apply Qle_refl.
  - by apply (good_full w).
Qed.

Lemma phase_initialized Q w :
  phase Q w -> SessionStore.initialized (Pipeline.store w) = true.
Proof. intros (n & Hg & _). apply Hg. Qed.

Lemma phase_emit Q s t p : keeps (phase Q) (Pipeline.emitSessionEvent s t p).
Proof.
  intros w Hw. unfold Pipeline.emitSessionEvent.
  destruct (Events.emitSessionEvent _ _ _ _ _) as [r b].
  by apply (phase_core Q w).
Qed.

Lemma phase_clock Q w :
  phase Q w -> phase Q (Pipeline.with_clock (Pipeline.clock w + 200) w).
Proof. by apply phase_core. Qed.

Lemma phase_get Q s : keeps (phase Q) (Pipeline.store_get persisted s).
Proof.
  intros w Hw. rewrite store_get_spec. cbn [snd].
  rewrite loaded_id by by apply (phase_initialized Q).
  apply phase_same_node; [done..|]. by apply (phase_initialized Q).
Qed.

Lemma phase_getNode Q s n : keeps (phase Q) (Pipeline.store_getNode persisted s n).
Proof.
  intros w Hw. unfold Pipeline.store_getNode, Pipeline.store_call.
  rewrite getNode_spec. cbn [snd].
  rewrite loaded_id by by apply (phase_initialized Q).
  apply phase_same_node; [done..|]. by apply (phase_initialized Q).
Qed.

Lemma store_updateNode_spec s n u w :
  Pipeline.store_updateNode persisted s n u w
  = (Returned (SessionStore.updateNode persisted (Pipeline.now w) s n u
                 (Pipeline.store w)).1,
     Pipeline.with_store
       (SessionStore.updateNode persisted (Pipeline.now w) s n u
          (Pipeline.store w)).2 w).
Proof.
  unfold Pipeline.store_updateNode, Pipeline.store_call.
  by destruct (SessionStore.updateNode _ _ _ _ _ _).
Qed.

(** A write to another node. *)
Lemma phase_write_other Q s n u :
  NodePatch.id u = None ->
  ~ (s = sessionId /\ n = nodeId) ->
  keeps (phase Q) (Pipeline.store_updateNode persisted s n u).
Proof.
  intros Hid Hother w Hw. rewrite store_updateNode_spec. cbn [snd].
  pose proof Hw as (n1 & Hg & _).
  destruct (node_at_updateNode persisted (Pipeline.now w) s n u
              (Pipeline.store w) sessionId nodeId n1) as [Hn Hinit];
    [apply Hg|done|apply Hg|].
  rewrite decide_False in Hn by done.
  apply phase_same_node; [done| |done].
  rewrite Hn. symmetry. apply Hg.
Qed.

(** A write to the node. *)
Lemma phase_write Q Q' u w n :
  good w n -> Q n (Pipeline.tickers w) ->
  NodePatch.id u = None ->
  (GenerationNode.progress n
   <= GenerationNode.progress (NodePatch.merge n u))%Q ->
  full_iff_complete (NodePatch.merge n u) ->
  Q' (NodePatch.merge n u) (Pipeline.tickers w) ->
  phase Q' (Pipeline.store_updateNode persisted sessionId nodeId u w).2.
Proof.
  intros Hg HQ Hid Hle Hfull HQ'. rewrite store_updateNode_spec. cbn [snd].
  destruct (node_at_updateNode persisted (Pipeline.now w) sessionId nodeId u
              (Pipeline.store w) sessionId nodeId n) as [Hn Hinit];
    [apply Hg|done|apply Hg|].
  rewrite decide_True in Hn by done.
  exists (NodePatch.merge n u). split; [|done].
  by apply (good_with_store w n).
Qed.


(** ** Arithmetic of the ticker *)

Lemma Num_ltb_lt a b : Num.ltb a b = true -> (a < b)%Q.
Proof.
  unfold Num.ltb. intros H. apply negb_true_iff in H.
  apply Qnot_le_lt. intros Hle. apply Qle_bool_iff in Hle. congruence.
Qed.

Lemma Num_min_le_r a b : (Num.min a b <= b)%Q.
Proof.
  unfold Num.min, Num.leb. destruct (Qle_bool a b) eqn:E.
  - by apply Qle_bool_iff.
  - apply Qle_refl.
Qed.

Lemma Num_min_ge a b c : (c <= a)%Q -> (c <= b)%Q -> (c <= Num.min a b)%Q.
Proof. unfold Num.min. by destruct (Num.leb a b). Qed.

Lemma Num_add_ge a s : (0 <= s)%Q -> (a <= Num.add a s)%Q.
Proof.
  intros Hs. unfold Num.add. rewrite Qred_correct.
  rewrite <- (Qplus_0_r a) at 1. by apply Qplus_le_r.
Qed.

(** ** The timers *)

Lemma set_ticker_handles t' ts :
  map Pipeline.handle (Pipeline.set_ticker t' ts) = map Pipeline.handle ts.
Proof.
  unfold Pipeline.set_ticker. rewrite map_map. apply map_ext.
  intros t. by destruct (decide _).
Qed.

Lemma set_ticker_elem t' ts x :
  x ∈ Pipeline.set_ticker t' ts ->
  x = t' \/ (x ∈ ts /\ Pipeline.handle x <> Pipeline.handle t').
Proof.
  unfold Pipeline.set_ticker. change (map ?f ts) with (f <$> ts).
  rewrite list_elem_of_fmap. intros (y & -> & Hy).
  destruct (decide _); [by left|by right].
Qed.

Lemma set_ticker_keeps t' ts y :
  y ∈ ts -> Pipeline.handle y <> Pipeline.handle t' ->
  y ∈ Pipeline.set_ticker t' ts.
Proof.
  intros Hy Hne. unfold Pipeline.set_ticker. change (map ?f ts) with (f <$> ts).
  apply list_elem_of_fmap. exists y. by rewrite decide_False.
Qed.

Lemma set_ticker_puts t' ts y :
  y ∈ ts -> Pipeline.handle y = Pipeline.handle t' ->
  t' ∈ Pipeline.set_ticker t' ts.
Proof.
  intros Hy He. unfold Pipeline.set_ticker. change (map ?f ts) with (f <$> ts).
  apply list_elem_of_fmap. exists y. by rewrite decide_True.
Qed.

Lemma same_handle_same_ticker (ts : list Pipeline.Ticker) a b :
  NoDup (map Pipeline.handle ts) -> a ∈ ts -> b ∈ ts ->
  Pipeline.handle a = Pipeline.handle b -> a = b.
Proof.
  induction ts as [|t ts IH]; intros Hnd Ha Hb Heq.
  - by apply elem_of_nil in Ha.
  - cbn in Hnd. apply NoDup_cons in Hnd as [Hnotin Hnd].
    apply elem_of_cons in Ha as [->|Ha]; apply elem_of_cons in Hb as [->|Hb];
      try done.
    + exfalso. apply Hnotin. rewrite Heq.
      change (map ?f ts) with (f <$> ts). by apply list_elem_of_fmap_2.
    + exfalso. apply Hnotin. rewrite <- Heq.
      change (map ?f ts) with (f <$> ts). by apply list_elem_of_fmap_2.
    + by apply IH.
Qed.

Lemma tickers_wf_set_ticker t' w :
  tickers_wf w ->
  tickers_wf (Pipeline.with_tickers
                (Pipeline.set_ticker t' (Pipeline.tickers w))
                (Pipeline.nextHandle w) w).
Proof.
  intros [Hnd Hlt]. split; cbn.
  - by rewrite set_ticker_handles.
  - apply Forall_forall. intros x Hx.
    assert (Hh : Pipeline.handle x ∈ map Pipeline.handle (Pipeline.tickers w)).
    { rewrite <- (set_ticker_handles t').
      change (map ?f ?l) with (f <$> l). by apply list_elem_of_fmap_2. }
    change (map ?f ?l) with (f <$> l) in Hh.
    apply list_elem_of_fmap in Hh as (y & -> & Hy).
    by apply (proj1 (Forall_forall _ _) Hlt).
Qed.

Lemma good_with_tickers w n ts next :
  tickers_wf (Pipeline.with_tickers ts next w) ->
  good w n -> good (Pipeline.with_tickers ts next w) n.
Proof. intros Hwf (Hh & Hn & Hinit & _). done. Qed.

(** The ticker after it has advanced to [p]. *)
Lemma fire_spec t w :
  Pipeline.fire persisted t w
  = if Num.ltb (Pipeline.currentProgress t) (Pipeline.endProgress t)
    then
      let p := Num.min (Num.add (Pipeline.currentProgress t) (Pipeline.step t))
                 (Pipeline.endProgress t) in
      let t' := Pipeline.mkTicker (Pipeline.handle t)
                  (Pipeline.ticker_sessionId t) (Pipeline.ticker_nodeId t)
                  (Pipeline.ticker_directionId t) p (Pipeline.endProgress t)
                  (Pipeline.step t) in
      Pipeline.bind
        (Pipeline.store_updateNode persisted (Pipeline.ticker_sessionId t)
           (Pipeline.ticker_nodeId t) (Pipeline.progress_patch p))
        (fun _ =>
           Pipeline.emitProgress (Pipeline.ticker_sessionId t)
             (Pipeline.ticker_nodeId t) (Pipeline.ticker_directionId t) p
             Events.generating "Generating...")
        (Pipeline.with_tickers (Pipeline.set_ticker t' (Pipeline.tickers w))
           (Pipeline.nextHandle w) w)
    else (Returned tt, w).
Proof. unfold Pipeline.fire. by destruct (Num.ltb _ _). Qed.

(** A ticker of another node fires. *)
Lemma phase_fire_other Q t w :
  (forall n ts t', NoDup (map Pipeline.handle ts) -> Q n ts -> t ∈ ts ->
     Pipeline.handle t' = Pipeline.handle t ->
     Pipeline.ticker_sessionId t' = Pipeline.ticker_sessionId t ->
     Pipeline.ticker_nodeId t' = Pipeline.ticker_nodeId t ->
     Q n (Pipeline.set_ticker t' ts)) ->
  ~ for_node t ->
  phase Q w -> t ∈ Pipeline.tickers w ->
  phase Q (Pipeline.fire persisted t w).2.
Proof.
  intros Hset Hother Hw Hin. rewrite fire_spec.
  destruct (Num.ltb _ _); [|done]. cbn zeta.
  apply keeps_bind.
  - by apply phase_write_other.
  - intros _. apply phase_emit.
  - destruct Hw as (n & Hg & HQ). exists n. split.
    + apply good_with_tickers; [|done]. apply tickers_wf_set_ticker, Hg.
    + cbn. apply Hset; try done. apply Hg.
Qed.

Lemma Forall_not_for_set_ticker t t' ts :
  t ∈ ts ->
  Pipeline.ticker_sessionId t' = Pipeline.ticker_sessionId t ->
  Pipeline.ticker_nodeId t' = Pipeline.ticker_nodeId t ->
  Forall (fun t => ~ for_node t) ts ->
  Forall (fun t => ~ for_node t) (Pipeline.set_ticker t' ts).
Proof.
  intros Hin Hs Hn Hall. apply Forall_forall. intros x Hx.
  apply set_ticker_elem in Hx as [->|[Hx _]].
  - unfold ticker_for. rewrite Hs, Hn.
    by apply (proj1 (Forall_forall _ _) Hall t).
  - by apply (proj1 (Forall_forall _ _) Hall x).
Qed.

Lemma Open_fire b t w :
  Open b w -> t ∈ Pipeline.tickers w -> Open b (Pipeline.fire persisted t w).2.
Proof.
  intros Hw Hin. apply phase_fire_other; try done.
  - intros n ts t' _ (Hst & Hle & Hall) Ht Hh Hs Hn.
    split; [done|]. split; [done|]. by apply (Forall_not_for_set_ticker t).
  - destruct Hw as (n & _ & _ & _ & Hall).
    by apply (proj1 (Forall_forall _ _) Hall t).
Qed.

Lemma Done_fire t w :
  Done w -> t ∈ Pipeline.tickers w -> Done (Pipeline.fire persisted t w).2.
Proof.
  intros Hw Hin. apply phase_fire_other; try done.
  - intros n ts t' _ (Hst & Hle & Hall) Ht Hh Hs Hn.
    split; [done|]. split; [done|]. by apply (Forall_not_for_set_ticker t).
  - destruct Hw as (n & _ & _ & _ & Hall).
    by apply (proj1 (Forall_forall _ _) Hall t).
Qed.


Lemma Running_fire h t w :
  Running h w -> t ∈ Pipeline.tickers w ->
  Running h (Pipeline.fire persisted t w).2.
Proof.
  intros Hw Hin. destruct (decide (for_node t)) as [Hfor|Hother].
  - (* the ticker of the node *)
    destruct Hw as (n & Hg & Hst & Huniq & t0 & Hin0 & Hh0 & Hfor0 & Hle
                    & Hcur & Hend & Hstep).
    assert (t0 = t) as ->.
    { apply (same_handle_same_ticker (Pipeline.tickers w)); try done.
      - apply Hg.
      - rewrite Hh0. symmetry. by apply Huniq. }
    rewrite fire_spec.
    destruct (Num.ltb _ _) eqn:Hlt;
      [|exists n; split; [done|]; split; [done|]; split; [done|];
        by exists t].
    cbn zeta. apply Num_ltb_lt in Hlt.
    set (p := Num.min (Num.add (Pipeline.currentProgress t) (Pipeline.step t))
                (Pipeline.endProgress t)).
    set (t' := Pipeline.mkTicker _ _ _ _ p _ _).
    assert (Hp_ge : (Pipeline.currentProgress t <= p)%Q).
    { apply Num_min_ge; [by apply Num_add_ge|by apply Qlt_le_weak]. }
    assert (Hp_le : (p <= 90)%Q).
    { eapply Qle_trans; [apply Num_min_le_r|done]. }
    destruct Hfor as [Hs Hn]. rewrite Hs, Hn.
    set (w1 := Pipeline.with_tickers _ _ w).
    assert (Hg1 : good w1 n).
    { apply good_with_tickers; [|done]. apply tickers_wf_set_ticker, Hg. }
    assert (Hw2 : Running h
                    (Pipeline.store_updateNode persisted sessionId nodeId
                       (Pipeline.progress_patch p) w1).2).
    { apply (phase_write (fun _ _ => True) _ _ w1 n); try done.
      - cbn. eapply Qle_trans; [exact Hle|exact Hp_ge].
      - unfold full_iff_complete. cbn. split.
        + intros H100. exfalso. rewrite H100 in Hp_le.
          by apply (Qlt_not_le 90 100).
        + intros Hc. by destruct Hst.
      - cbn. split; [done|]. split.
        + intros x Hx Hfx. apply set_ticker_elem in Hx as [->|[Hx _]];
            [done|by apply Huniq].
        + exists t'. split; [by apply (set_ticker_puts t' _ t)|].
          split; [done|]. split; [done|]. split; [apply Qle_refl|done]. }
    unfold Pipeline.bind. rewrite store_updateNode_spec in Hw2 |- *.
    cbn [snd] in Hw2. by apply phase_emit.
  - (* a ticker of another node *)
    apply phase_fire_other; try done.
    intros n ts t' Hnd (Hst & Huniq & t0 & Hin0 & Hh0 & Hfor0 & Hrest)
      Ht Hh Hs Hn.
    split; [done|]. split.
    + intros x Hx Hfx. apply set_ticker_elem in Hx as [->|[Hx _]].
      * exfalso. apply Hother. unfold ticker_for in *. by rewrite <- Hs, <- Hn.
      * by apply Huniq.
    + exists t0. split; [|done]. apply set_ticker_keeps; [done|].
      rewrite Hh. intros Heq. apply Hother.
      by rewrite <- (same_handle_same_ticker ts t0 t Hnd Hin0 Ht Heq).
Qed.


(** ** Sleeping and emitting in each phase *)

Lemma Open_sleep b n : keeps (Open b) (Pipeline.sleep persisted n).
Proof. apply keeps_sleep; [apply phase_clock|apply Open_fire]. Qed.

Lemma Running_sleep h n : keeps (Running h) (Pipeline.sleep persisted n).
Proof. apply keeps_sleep; [apply phase_clock|apply Running_fire]. Qed.

Lemma Done_sleep n : keeps Done (Pipeline.sleep persisted n).
Proof. apply keeps_sleep; [apply phase_clock|apply Done_fire]. Qed.

Lemma Open_await b {A} (c : Pipeline.call A) :
  keeps (Open b) (Pipeline.await persisted c).
Proof. apply keeps_await; [apply phase_clock|apply Open_fire]. Qed.

Lemma Running_await h {A} (c : Pipeline.call A) :
  keeps (Running h) (Pipeline.await persisted c).
Proof. apply keeps_await; [apply phase_clock|apply Running_fire]. Qed.

Lemma Running_poll h env s n d remaining attempts :
  keeps (Running h) (Pipeline.poll persisted env s n d remaining attempts).
Proof.
  apply keeps_poll; [apply phase_emit|apply phase_clock|apply Running_fire].
Qed.

Lemma Open_weaken b b' w : (b <= b')%Q -> Open b w -> Open b' w.
Proof.
  intros Hb (n & Hg & Hst & Hle & Hall). exists n. split; [done|].
  split; [done|]. split; [|done]. by eapply Qle_trans.
Qed.

(** ** Starting and stopping the ticker *)

Lemma start_spec s n d a b w :
  Pipeline.startProgressTicker s n d a b w
  = (Returned (Pipeline.nextHandle w),
     Pipeline.with_tickers
       (Pipeline.tickers w
        ++ [Pipeline.mkTicker (Pipeline.nextHandle w) s n d a b
              (Num.div (Num.sub b a) (Num.of_Z 50))])
       (S (Pipeline.nextHandle w)) w).
Proof. done. Qed.

Lemma tickers_wf_start t w :
  Pipeline.handle t = Pipeline.nextHandle w ->
  tickers_wf w ->
  tickers_wf (Pipeline.with_tickers (Pipeline.tickers w ++ [t])
                (S (Pipeline.nextHandle w)) w).
Proof.
  intros Hh [Hnd Hlt]. split; cbn.
  - rewrite map_app. cbn. apply NoDup_app. split; [done|]. split.
    + intros x Hx Hx'. apply list_elem_of_singleton in Hx'. subst x.
      change (map ?f ?l) with (f <$> l) in Hx.
      apply list_elem_of_fmap in Hx as (y & Hy & Hin).
      pose proof (proj1 (Forall_forall _ _) Hlt y Hin) as Hlty.
      cbn in Hlty. lia.
    + apply NoDup_singleton.
  - apply Forall_app. split.
    + eapply Forall_impl; [exact Hlt|]. cbn. intros; lia.
    + constructor; [|constructor]. lia.
Qed.

Lemma start_other Q s n d a b :
  (forall m ts t, Q m ts -> Pipeline.ticker_sessionId t = s ->
                  Pipeline.ticker_nodeId t = n -> Q m (ts ++ [t])) ->
  keeps (phase Q) (Pipeline.startProgressTicker s n d a b).
Proof.
  intros Hadd w (m & Hg & HQ). rewrite start_spec. cbn [snd].
  exists m. split.
  - apply good_with_tickers; [|done]. apply tickers_wf_start; [done|apply Hg].
  - cbn. by apply Hadd.
Qed.

Lemma Open_start directionId :
  hoare (Open (Num.of_Z 40))
    (Pipeline.startProgressTicker sessionId nodeId directionId (Num.of_Z 40)
       (Num.of_Z 90))
    (fun h => Running h) (fun _ => False).
Proof.
  intros w (n & Hg & Hst & Hle & Hall). rewrite start_spec.
  set (t := Pipeline.mkTicker _ _ _ _ _ _ _).
  exists n. split.
  - apply good_with_tickers; [|done]. apply tickers_wf_start; [done|apply Hg].
  - cbn. split; [done|]. split.
    + intros x Hx Hfx. apply elem_of_app in Hx as [Hx|Hx].
      * by destruct (proj1 (Forall_forall _ _) Hall x Hx).
      * apply list_elem_of_singleton in Hx. by subst x.
    + exists t. split; [apply elem_of_app; right; apply list_elem_of_here|].
      split; [done|]. split; [done|]. split; [done|].
      split; [done|]. split; done.
Qed.

Lemma stop_spec h w :
  Pipeline.stop h w
  = (Returned tt,
     Pipeline.with_tickers
       (filter (fun t => Pipeline.handle t <> h) (Pipeline.tickers w))
       (Pipeline.nextHandle w) w).
Proof. done. Qed.

Lemma tickers_wf_stop h w :
  tickers_wf w ->
  tickers_wf (Pipeline.with_tickers
                (filter (fun t => Pipeline.handle t <> h) (Pipeline.tickers w))
                (Pipeline.nextHandle w) w).
Proof.
  intros [Hnd Hlt]. split; cbn.
  - revert Hnd. generalize (Pipeline.tickers w). intros ts.
    induction ts as [|t ts IH]; [done|]. cbn. intros Hnd.
    apply NoDup_cons in Hnd as [Hnotin Hnd].
    destruct (decide (Pipeline.handle t <> h)); [|by apply IH].
    cbn. apply NoDup_cons. split; [|by apply IH].
    intros Hin. apply Hnotin.
    change (map ?f ?l) with (f <$> l) in *.
    apply list_elem_of_fmap in Hin as (y & Hy & Hin).
    apply list_elem_of_filter in Hin as [_ Hin].
    apply list_elem_of_fmap. by exists y.
  - apply Forall_forall. intros x Hx. apply list_elem_of_filter in Hx as [_ Hx].
    by apply (proj1 (Forall_forall _ _) Hlt).
Qed.

Lemma stop_other Q h :
  (forall m ts, Q m ts ->
     Q m (filter (fun t => Pipeline.handle t <> h) ts)) ->
  keeps (phase Q) (Pipeline.stop h).
Proof.
  intros Hdel w (m & Hg & HQ). rewrite stop_spec. cbn [snd].
  exists m. split.
  - apply good_with_tickers; [|done]. apply tickers_wf_stop, Hg.
  - cbn. by apply Hdel.
Qed.

Lemma Open_stop b h : keeps (Open b) (Pipeline.stop h).
Proof.
  apply stop_other. intros m ts (Hst & Hle & Hall).
  split; [done|]. split; [done|].
  apply Forall_forall. intros x Hx. apply list_elem_of_filter in Hx as [_ Hx].
  by apply (proj1 (Forall_forall _ _) Hall).
Qed.

Lemma Running_stop h w :
  Running h w -> Open (Num.of_Z 90) (Pipeline.stop h w).2.
Proof.
  intros (n & Hg & Hst & Huniq & t & Hin & Hh & Hfor & Hle & Hcur & _).
  rewrite stop_spec. cbn [snd]. exists n. split.
  - apply good_with_tickers; [|done]. apply tickers_wf_stop, Hg.
  - cbn. split; [done|]. split; [by eapply Qle_trans|].
    apply Forall_forall. intros x Hx Hfx.
    apply list_elem_of_filter in Hx as [Hne Hx]. apply Hne. by apply Huniq.
Qed.

Lemma Mid_stop h w : Mid h w -> Open (Num.of_Z 90) (Pipeline.stop h w).2.
Proof. intros [H|H]; [by apply Running_stop|by apply Open_stop]. Qed.

End PhaseFacts.

(** ** Pre- and postconditions *)

Section HoareRules.

Lemma hoare_bind {A B} (Pre : Pipeline.World -> Prop) (m : Pipeline.P A)
    (Mid : A -> Pipeline.World -> Prop) (Exc : Pipeline.World -> Prop)
    (k : A -> Pipeline.P B) (Post : B -> Pipeline.World -> Prop) :
  hoare Pre m Mid Exc ->
  (forall a, hoare (Mid a) (k a) Post Exc) ->
  hoare Pre (Pipeline.bind m k) Post Exc.
Proof.
  intros Hm Hk w Hw. unfold Pipeline.bind. specialize (Hm w Hw).
  destruct (m w) as [[a|e] w']; [by apply Hk|done].
Qed.

Lemma hoare_try_catch {A} (Pre : Pipeline.World -> Prop) (m : Pipeline.P A)
    (Post : A -> Pipeline.World -> Prop) (Exc1 : Pipeline.World -> Prop)
    (h : string -> Pipeline.P A) (Exc2 : Pipeline.World -> Prop) :
  hoare Pre m Post Exc1 ->
  (forall e, hoare Exc1 (h e) Post Exc2) ->
  hoare Pre (Pipeline.try_catch m h) Post Exc2.
Proof.
  intros Hm Hh w Hw. unfold Pipeline.try_catch. specialize (Hm w Hw).
  destruct (m w) as [[a|e] w']; [done|by apply Hh].
Qed.

Lemma hoare_keeps {A} (I : Pipeline.World -> Prop) (m : Pipeline.P A)
    (Post : A -> Pipeline.World -> Prop) (Exc : Pipeline.World -> Prop) :
  keeps I m ->
  (forall a w, I w -> Post a w) -> (forall w, I w -> Exc w) ->
  hoare I m Post Exc.
Proof.
  intros Hk HP HE w Hw. specialize (Hk w Hw).
  destruct (m w) as [[a|e] w']; cbn in Hk; [by apply HP|by apply HE].
Qed.

Lemma hoare_ret {A} (Pre : Pipeline.World -> Prop) (a : A)
    (Post : A -> Pipeline.World -> Prop) (Exc : Pipeline.World -> Prop) :
  (forall w, Pre w -> Post a w) -> hoare Pre (Pipeline.ret a) Post Exc.
Proof. intros H w Hw. by apply H. Qed.

Lemma hoare_throw {A} (Pre : Pipeline.World -> Prop) (e : string)
    (Post : A -> Pipeline.World -> Prop) (Exc : Pipeline.World -> Prop) :
  (forall w, Pre w -> Exc w) -> hoare Pre (Pipeline.throw e) Post Exc.
Proof. intros H w Hw. by apply H. Qed.

Lemma hoare_of_outcome {A} (Pre : Pipeline.World -> Prop) (o : outcome A)
    (Post : A -> Pipeline.World -> Prop) (Exc : Pipeline.World -> Prop) :
  (forall a w, Pre w -> Post a w) -> (forall w, Pre w -> Exc w) ->
  hoare Pre (Pipeline.of_outcome o) Post Exc.
Proof.
  intros HP HE. destruct o; [apply hoare_ret, HP|apply hoare_throw, HE].
Qed.

Lemma hoare_weaken {A} (Pre Pre' : Pipeline.World -> Prop) (m : Pipeline.P A)
    (Post Post' : A -> Pipeline.World -> Prop)
    (Exc Exc' : Pipeline.World -> Prop) :
  hoare Pre m Post Exc ->
  (forall w, Pre' w -> Pre w) ->
  (forall a w, Post a w -> Post' a w) ->
  (forall w, Exc w -> Exc' w) ->
  hoare Pre' m Post' Exc'.
Proof.
  intros H HP HQ HE w Hw. specialize (H w (HP w Hw)).
  destruct (m w) as [[a|e] w']; [by apply HQ|by apply HE].
Qed.

(** An event other than ['error'] is emitted without an exception. *)
Lemma hoare_emit (I : Pipeline.World -> Prop) sessionId t p
    (Exc : Pipeline.World -> Prop) :
  t <> Events.error ->
  keeps I (Pipeline.emitSessionEvent sessionId t p) ->
  hoare I (Pipeline.emitSessionEvent sessionId t p) (fun _ => I) Exc.
Proof.
  intros Ht Hk w Hw. specialize (Hk w Hw).
  by rewrite emitSessionEvent_returns in Hk |- *.
Qed.

End HoareRules.

(** ** One job, phase by phase *)

Section JobFacts.
Variable persisted : list Session.t.
Variables (sessionId nodeId : string).
Variable history0 : list SessionStore.Store.
Variable n0 : GenerationNode.t.

Local Abbreviation good := (good sessionId nodeId history0 n0).
Local Abbreviation phase := (phase sessionId nodeId history0 n0).
Local Abbreviation Open := (Open sessionId nodeId history0 n0).
Local Abbreviation Running := (Running sessionId nodeId history0 n0).
Local Abbreviation Done := (Done sessionId nodeId history0 n0).
Local Abbreviation Settled := (Settled sessionId nodeId history0 n0).
Local Abbreviation Mid := (Mid sessionId nodeId history0 n0).
Local Abbreviation Failed := (Failed sessionId nodeId history0 n0).

Ltac step I := apply (hoare_bind _ _ (fun _ => I)); [|intros ?].

(** A step that keeps the phase [I]. *)
Ltac stays lemma :=
  apply hoare_keeps; [apply lemma|done|try done].

Lemma hoare_updateNode (Pre Post Exc : Pipeline.World -> Prop) u :
  (forall w, Pre w ->
     Post (Pipeline.store_updateNode persisted sessionId nodeId u w).2) ->
  hoare Pre (Pipeline.store_updateNode persisted sessionId nodeId u)
    (fun _ => Post) Exc.
Proof.
  intros H w Hw. specialize (H w Hw).
  by rewrite store_updateNode_spec in H |- *.
Qed.

(** A write that sets the progress and does not complete the node. *)
Lemma Open_write_progress b b' u (Exc : Pipeline.World -> Prop) :
  NodePatch.id u = None ->
  NodePatch.progress u = Some b' ->
  NodePatch.status u <> Some NodeStatus.complete ->
  (b <= b')%Q -> (b' <= 90)%Q ->
  hoare (Open b) (Pipeline.store_updateNode persisted sessionId nodeId u)
    (fun _ => Open b') Exc.
Proof.
  intros Hid Hp Hs Hbb Hb90. apply hoare_updateNode.
  intros w (n & Hg & Hst & Hle & Hall).
  assert (Hp' : GenerationNode.progress (NodePatch.merge n u) = b')
    by (unfold NodePatch.merge; cbn; by rewrite Hp).
  assert (Hs' : GenerationNode.status (NodePatch.merge n u)
                <> NodeStatus.complete).
  { unfold NodePatch.merge; cbn. destruct (NodePatch.status u); cbn;
      [congruence|done]. }
  apply (phase_write persisted _ _ _ _ (fun _ _ => True) _ u w n); try done.
  - rewrite Hp'. by eapply Qle_trans.
  - unfold full_iff_complete. rewrite Hp'. split; [|done].
    intros H100. exfalso. rewrite H100 in Hb90. by apply (Qlt_not_le 90 100).
  - split; [done|]. split; [|done]. rewrite Hp'. apply Qle_refl.
Qed.

(** The write of the worker loop for a failed job. *)
Lemma error_patch_keeps Q message :
  (forall n ts, Q n ts ->
     GenerationNode.status n <> NodeStatus.complete /\
     Q (NodePatch.merge n (Pipeline.error_patch message)) ts) ->
  keeps (phase Q)
    (Pipeline.store_updateNode persisted sessionId nodeId
       (Pipeline.error_patch message)).
Proof.
  intros HQ w (n & Hg & Hn). destruct (HQ _ _ Hn) as [Hst Hn'].
  apply (phase_write persisted _ _ _ _ Q _ _ w n); try done.
  - apply Qle_refl.
  - unfold full_iff_complete. cbn. split; [|done].
    intros H100. exfalso. apply Hst. by apply (good_full _ _ _ _ w n Hg).
Qed.

Lemma Open_error b message :
  keeps (Open b)
    (Pipeline.store_updateNode persisted sessionId nodeId
       (Pipeline.error_patch message)).
Proof. apply error_patch_keeps. intros n ts (Hst & Hle & Hall). done. Qed.

Lemma Running_error h message :
  keeps (Running h)
    (Pipeline.store_updateNode persisted sessionId nodeId
       (Pipeline.error_patch message)).
Proof. apply error_patch_keeps. intros n ts (Hst & Hrest). done. Qed.

(** The write that completes the node. *)
Lemma Open_complete outputUrl (Exc : Pipeline.World -> Prop) :
  hoare (Open (Num.of_Z 90))
    (fun w =>
       Pipeline.store_updateNode persisted sessionId nodeId
         (Pipeline.complete_patch outputUrl (Pipeline.now w)) w)
    (fun _ => Done) Exc.
Proof.
  intros w Hw.
  apply (hoare_updateNode (fun w' => w' = w /\ Open (Num.of_Z 90) w'));
    [|done].
  intros ? [-> (n & Hg & Hst & Hle & Hall)].
  apply (phase_write persisted _ _ _ _ (fun _ _ => True) _ _ w n); try done.
  - cbn. eapply Qle_trans; [exact Hle|done].
Qed.

Lemma generateImage_hoare env directionId pkg :
  hoare (Open (Num.of_Z 40))
    (Pipeline.generateImage persisted env sessionId nodeId directionId pkg)
    (fun _ => Open (Num.of_Z 90)) (Open (Num.of_Z 90)).
Proof.
  unfold Pipeline.generateImage.
  apply (hoare_bind _ _ (fun h => Running h)).
  { eapply hoare_weaken; [apply Open_start|done|done|by intros ? []]. }
  intros h. apply (hoare_try_catch _ _ _ (Mid h)).
  - step (Running h).
    { apply hoare_keeps; [apply Running_await|done|by left]. }
    step (Running h).
    { apply hoare_keeps; [apply phase_emit|done|by left]. }
    apply (hoare_bind _ _ (fun _ => Running h)).
    { apply hoare_keeps; [apply Running_await|done|by left]. }
    intros response. step (Open (Num.of_Z 90)).
    { intros w Hw. rewrite stop_spec.
      pose proof (Running_stop _ _ _ _ _ _ Hw) as H.
      by rewrite stop_spec in H. }
    step (Open (Num.of_Z 90)).
    { apply hoare_keeps; [apply phase_emit|done|by right]. }
    destruct response as [[|b64 ?]|];
      try (apply hoare_throw; by right).
    destruct (negb _); [apply hoare_throw; by right|].
    step (Open (Num.of_Z 90)).
    { apply hoare_keeps; [apply Open_await|done|by right]. }
    by apply hoare_ret.
  - intros e. step (Open (Num.of_Z 90)).
    { intros w Hw. rewrite stop_spec.
      pose proof (Mid_stop _ _ _ _ _ _ Hw) as H.
      by rewrite stop_spec in H. }
    by apply hoare_throw.
Qed.

Lemma generateVideo_hoare env directionId pkg :
  hoare (Open (Num.of_Z 40))
    (Pipeline.generateVideo persisted env sessionId nodeId directionId pkg)
    (fun _ => Open (Num.of_Z 90)) Failed.
Proof.
  unfold Pipeline.generateVideo.
  apply (hoare_bind _ _ (fun h => Running h)).
  { eapply hoare_weaken; [apply Open_start|done|done|by intros ? []]. }
  intros h. destruct (negb _).
  { apply hoare_throw. intros w Hw. right. by exists h. }
  apply (hoare_try_catch _ _ _ (Mid h)).
  - step (Running h).
    { apply hoare_keeps; [apply Running_await|done|by left]. }
    step (Running h).
    { apply hoare_keeps; [apply phase_emit|done|by left]. }
    apply (hoare_bind _ _ (fun _ => Running h)).
    { apply hoare_keeps; [apply Running_await|done|by left]. }
    intros createResponse. step (Running h).
    { destruct (negb _); [apply hoare_throw; by left|by apply hoare_ret]. }
    step (Running h).
    { apply hoare_of_outcome; [done|by left]. }
    step (Running h).
    { apply hoare_keeps; [apply phase_emit|done|by left]. }
    apply (hoare_bind _ _ (fun _ => Running h)).
    { apply hoare_keeps; [apply Running_poll|done|by left]. }
    intros [url|]; [|apply hoare_throw; by left].
    step (Open (Num.of_Z 90)).
    { intros w Hw. rewrite stop_spec.
      pose proof (Running_stop _ _ _ _ _ _ Hw) as H.
      by rewrite stop_spec in H. }
    step (Open (Num.of_Z 90)).
    { apply hoare_keeps; [apply phase_emit|done|by right]. }
    apply (hoare_bind _ _ (fun _ => Open (Num.of_Z 90))).
    { apply hoare_keeps; [apply Open_await|done|by right]. }
    intros videoResponse.
    destruct (negb _); [apply hoare_throw; by right|].
    step (Open (Num.of_Z 90)).
    { apply hoare_of_outcome; [done|by right]. }
    step (Open (Num.of_Z 90)).
    { apply hoare_keeps; [apply Open_await|done|by right]. }
    by apply hoare_ret.
  - intros e. step (Open (Num.of_Z 90)).
    { intros w Hw. rewrite stop_spec.
      pose proof (Mid_stop _ _ _ _ _ _ Hw) as H.
      by rewrite stop_spec in H. }
    apply hoare_throw. by left.
Qed.


Lemma Open_Failed b : (b <= 90)%Q -> forall w, Open b w -> Failed w.
Proof. intros Hb w Hw. left. by apply (Open_weaken _ _ _ _ b). Qed.

Ltac fails := apply Open_Failed; by vm_compute.

Lemma processJob_hoare env job :
  GenerationJob.sessionId job = sessionId ->
  GenerationJob.nodeId job = nodeId ->
  hoare (Open (Num.of_Z 0)) (Pipeline.processJob persisted env job)
    (fun _ => Done) Failed.
Proof.
  intros Hs Hn. unfold Pipeline.processJob. rewrite Hs, Hn.
  apply (hoare_bind _ _ (fun _ => Open (Num.of_Z 0))).
  { apply hoare_keeps; [apply phase_get|done|fails]. }
  intros [session|]; [|apply hoare_throw; fails].
  destruct (SessionStore.find_direction _ _);
    [|apply hoare_throw; fails].
  step (Open (Num.of_Z 5)).
  { by apply (Open_write_progress (Num.of_Z 0) (Num.of_Z 5)). }
  step (Open (Num.of_Z 5)).
  { apply hoare_keeps; [apply phase_emit|done|fails]. }
  apply (hoare_bind _ _ (fun _ => Open (Num.of_Z 5))).
  { destruct (GenerationJob.parentNodeId job) as [parent|];
      [|by apply hoare_ret].
    destruct (Pipeline.truthy _); [|by apply hoare_ret].
    apply hoare_keeps; [apply phase_getNode|done|fails]. }
  intros parentNode. step (Open (Num.of_Z 5)).
  { apply hoare_keeps; [apply phase_emit|done|fails]. }
  apply (hoare_bind _ _ (fun _ => Open (Num.of_Z 5))).
  { apply hoare_keeps; [apply Open_await|done|fails]. }
  intros promptPackage.
  destruct (PromptPackage.needsRevision promptPackage);
    [apply hoare_throw; fails|].
  step (Open (Num.of_Z 5)).
  { apply hoare_keeps; [apply phase_emit|done|fails]. }
  apply (hoare_bind _ _ (fun _ => Open (Num.of_Z 5))).
  { apply hoare_keeps; [apply Open_await|done|fails]. }
  intros gatedPackage.
  destruct (negb _); [apply hoare_throw; fails|].
  step (Open (Num.of_Z 40)).
  { by apply (Open_write_progress (Num.of_Z 5) (Num.of_Z 40)). }
  step (Open (Num.of_Z 40)).
  { apply hoare_keeps; [apply phase_emit|done|fails]. }
  apply (hoare_bind _ _ (fun _ => Open (Num.of_Z 90))).
  { destruct (GenerationJob.mediaType job).
    - eapply hoare_weaken; [apply generateImage_hoare|done|done|].
      intros w Hw. by left.
    - apply generateVideo_hoare. }
  intros outputUrl. step (Open (Num.of_Z 90)).
  { apply hoare_keeps; [apply phase_emit|done|fails]. }
  apply (hoare_bind _ _ (fun _ => Done)); [apply Open_complete|intros ?].
  apply hoare_emit; [done|apply phase_emit].
Qed.

Lemma Failed_error message :
  keeps Failed
    (Pipeline.store_updateNode persisted sessionId nodeId
       (Pipeline.error_patch message)).
Proof.
  intros w [Hw|[h Hw]].
  - left. by apply Open_error.
  - right. exists h. by apply Running_error.
Qed.

Lemma Failed_emit s t p : keeps Failed (Pipeline.emitSessionEvent s t p).
Proof.
  intros w [Hw|[h Hw]].
  - left. by apply phase_emit.
  - right. exists h. by apply phase_emit.
Qed.

Lemma Settled_core w w' : core w' = core w -> Settled w -> Settled w'.
Proof.
  intros Hc [Hw|[Hw|[h Hw]]].
  - left. by apply (phase_core _ _ _ _ _ w).
  - right. left. by apply (phase_core _ _ _ _ _ w).
  - right. right. exists h. by apply (phase_core _ _ _ _ _ w).
Qed.

Lemma core_take_next i w : core (Pipeline.take_next i w) = core w.
Proof. unfold Pipeline.take_next. by destruct (Pipeline.jobQueue w). Qed.

Lemma worker_step_settled env i w job :
  Pipeline.workers w !! i = Some job ->
  GenerationJob.sessionId job = sessionId ->
  GenerationJob.nodeId job = nodeId ->
  Open (Num.of_Z 0) w ->
  Settled (Pipeline.worker_step persisted env i w).
Proof.
  intros Hi Hs Hn Hw. unfold Pipeline.worker_step. rewrite Hi.
  pose proof (processJob_hoare env job Hs Hn w Hw) as H.
  destruct (Pipeline.processJob persisted env job w) as [[[]|message] w1].
  - apply (Settled_core (Pipeline.with_finished
                           (Pipeline.finished w1
                            ++ [GenerationJob.with_status JobStatus.completed
                                  (GenerationJob.error job) job]) w1));
      [apply core_take_next|].
    apply (Settled_core w1); [done|by left].
  - set (w1' := Pipeline.with_finished _ w1).
    assert (Hw1' : Failed w1').
    { destruct H as [H|[h H]].
      - left. by apply (phase_core _ _ _ _ _ w1).
      - right. exists h. by apply (phase_core _ _ _ _ _ w1). }
    cbn [GenerationJob.sessionId GenerationJob.nodeId
         GenerationJob.with_status].
    rewrite Hs, Hn.
    match goal with
    | |- context [Pipeline.bind ?m ?k w1'] =>
        assert (Hw2 : Failed (Pipeline.bind m k w1').2);
        [|destruct (Pipeline.bind m k w1') as [[[]|e] w2]; cbn [snd] in Hw2]
    end.
    { apply keeps_bind; [apply Failed_error| |done].
      intros _. apply Failed_emit. }
    + apply (Settled_core w2); [apply core_take_next|by right].
    + apply (Settled_core w2); [done|by right].
Qed.

Lemma Settled_sleep n : keeps Settled (Pipeline.sleep persisted n).
Proof.
  intros w [Hw|[Hw|[h Hw]]].
  - left. by apply Done_sleep.
  - right. left. by apply Open_sleep.
  - right. right. exists h. by apply Running_sleep.
Qed.

Lemma Settled_trail w :
  Settled w ->
  exists new n, Pipeline.history w = history0 ++ new
                /\ trail sessionId nodeId n0 new n.
Proof.
  intros [Hw|[Hw|[h Hw]]]; destruct Hw as (n & ((new & Hh & Htr) & _) & _);
    by exists new, n.
Qed.

(** What a trail says about the states of the node. *)
Lemma trail_states l n :
  trail sessionId nodeId n0 l n ->
  Forall (fun st => is_Some (node_at sessionId nodeId st)) l /\
  (forall a, a ∈ n0 :: omap (node_at sessionId nodeId) l ->
             (GenerationNode.progress a <= GenerationNode.progress n)%Q
             /\ full_iff_complete a) /\
  (forall i j a b, (i <= j)%nat ->
     (n0 :: omap (node_at sessionId nodeId) l) !! i = Some a ->
     (n0 :: omap (node_at sessionId nodeId) l) !! j = Some b ->
     (GenerationNode.progress a <= GenerationNode.progress b)%Q).
Proof.
  induction 1 as [Hfull|l n st n' Htr (IH1 & IH2 & IH3) Hn' Hle Hfull'].
  - split; [constructor|]. split.
    + intros a Ha. apply list_elem_of_singleton in Ha. subst a.
      split; [apply Qle_refl|done].
    + intros i j a b Hij Hi Hj. cbn in *.
      destruct j as [|j]; [|done]. assert (i = 0%nat) as -> by lia.
      cbn in *. injection Hi as <-. injection Hj as <-. apply Qle_refl.
  - assert (Hst : n0 :: omap (node_at sessionId nodeId) (l ++ [st])
                  = (n0 :: omap (node_at sessionId nodeId) l) ++ [n']).
    { rewrite omap_app. cbn. by rewrite Hn'. }
    rewrite Hst. split; [|split].
    + apply Forall_app. split; [done|]. constructor; [|constructor].
      by rewrite Hn'.
    + intros a Ha. apply elem_of_app in Ha as [Ha|Ha].
      * destruct (IH2 a Ha) as [Hale Hafull]. split; [|done].
        by eapply Qle_trans.
      * apply list_elem_of_singleton in Ha. subst a.
        split; [apply Qle_refl|done].
    + intros i j a b Hij Hi Hj.
      remember (n0 :: omap (node_at sessionId nodeId) l) as states eqn:Es in *.
      clear Es Hst.
      destruct (decide (j < length states)%nat) as [Hlt|Hge].
      * rewrite lookup_app_l in Hi by lia. rewrite lookup_app_l in Hj by lia.
        by apply (IH3 i j).
      * assert (Hb : b = n').
        { apply lookup_lt_Some in Hj as Hjlt. rewrite length_app in Hjlt.
          cbn in Hjlt. rewrite lookup_app_r in Hj by lia.
          replace (j - length states)%nat with 0%nat in Hj by lia.
          by injection Hj. }
        subst b. destruct (decide (i < length states)%nat) as [Hilt|Hige].
        -- rewrite lookup_app_l in Hi by lia.
           apply list_elem_of_lookup_2 in Hi.
           destruct (IH2 a Hi) as [Hale _]. by eapply Qle_trans.
        -- apply lookup_lt_Some in Hi as Hilt. rewrite length_app in Hilt.
           cbn in Hilt. rewrite lookup_app_r in Hi by lia.
           replace (i - length states)%nat with 0%nat in Hi by lia.
           injection Hi as <-. apply Qle_refl.
Qed.

End JobFacts.

(** C4: a job is taken by the worker loop while its node is in the store as
    [enqueueGeneration] made it (progress 0, status [queued]) and no ticker
    runs for it yet.  Along the states that the store goes through while
    the loop processes the job, and while timers fire afterwards (a ticker
    that the job did not stop included), the node stays in the store, its
    stored progress never goes back, and in every state the progress is
    100 exactly when the status is [complete]. *)
Theorem C4_stored_progress
    (persisted : list Session.t) (env : Pipeline.JobEnv) (i later : nat)
    (w : Pipeline.World) (job : GenerationJob.t) (n0 : GenerationNode.t) :
  let sessionId := GenerationJob.sessionId job in
  let nodeId := GenerationJob.nodeId job in
  Pipeline.workers w !! i = Some job ->
  SessionStore.initialized (Pipeline.store w) = true ->
  node_at sessionId nodeId (Pipeline.store w) = Some n0 ->
  (GenerationNode.progress n0 == 0)%Q ->
  GenerationNode.status n0 = NodeStatus.queued ->
  tickers_wf w ->
  Forall (fun t => ~ ticker_for sessionId nodeId t) (Pipeline.tickers w) ->
  let w' := (Pipeline.sleep persisted later
               (Pipeline.worker_step persisted env i w)).2 in
  exists new,
    Pipeline.history w' = Pipeline.history w ++ new /\
    Forall (fun st => is_Some (node_at sessionId nodeId st)) new /\
    let states := n0 :: omap (node_at sessionId nodeId) new in
    (forall i j a b, (i <= j)%nat ->
       states !! i = Some a -> states !! j = Some b ->
       (GenerationNode.progress a <= GenerationNode.progress b)%Q) /\
    (forall a, a ∈ states ->
       ((GenerationNode.progress a == 100)%Q
        <-> GenerationNode.status a = NodeStatus.complete)).
Proof.
  intros sessionId nodeId Hi Hinit Hn0 Hp0 Hs0 Hwf Hall w'.
  assert (Hfull0 : full_iff_complete n0).
  { unfold full_iff_complete. rewrite Hp0, Hs0. split; [|done].
    intros H. by vm_compute in H. }
  assert (Hopen : Open sessionId nodeId (Pipeline.history w) n0
                    (Num.of_Z 0) w).
  { exists n0. split; [split|].
    - exists []. split; [by rewrite app_nil_r|by constructor].
    - done.
    - split; [by rewrite Hs0|]. split; [|done]. rewrite Hp0. apply Qle_refl. }
  assert (Hsettled : Settled sessionId nodeId (Pipeline.history w) n0 w').
  { apply Settled_sleep. by apply (worker_step_settled _ _ _ _ _ _ _ _ job). }
  apply Settled_trail in Hsettled as (new & n & Hh & Htr).
  apply trail_states in Htr as (H1 & H2 & H3).
  exists new. split; [done|]. split; [done|]. split; [done|].
  intros a Ha. by apply H2.
Qed.

Lemma C4_stored_progress_witness :
  let w := Sample.one_enqueued in
  let w' := (Pipeline.sleep [] 3
               (Pipeline.worker_step [] Sample.image_succeeds 0 w)).2 in
  exists new,
    Pipeline.history w' = Pipeline.history w ++ new /\
    Forall (fun st => is_Some (node_at "s-1" "n-1" st)) new /\
    let states := Sample.taken_node :: omap (node_at "s-1" "n-1") new in
    (forall i j a b, (i <= j)%nat ->
       states !! i = Some a -> states !! j = Some b ->
       (GenerationNode.progress a <= GenerationNode.progress b)%Q) /\
    (forall a, a ∈ states ->
       ((GenerationNode.progress a == 100)%Q
        <-> GenerationNode.status a = NodeStatus.complete)).
Proof.
  apply (C4_stored_progress [] Sample.image_succeeds 0 3 Sample.one_enqueued
           Sample.taken_job Sample.taken_node).
  - vm_compute. reflexivity.
  - vm_compute. reflexivity.
  - vm_compute. reflexivity.
  - vm_compute. reflexivity.
  - reflexivity.
  - vm_compute. split; constructor.
  - vm_compute. constructor.
Defined.

(* ================================================================== *)
(** * Further properties of the session store *)
(* ================================================================== *)

Section MoreMapFacts.
Context {K V : Type} `{EqDecision K}.
Implicit Types (m : list (K * V)) (k : K) (v : V).


Lemma JsMap_set_values_elem m k v : v ∈ JsMap.values (JsMap.set k v m).
Proof.
  unfold JsMap.values. induction m as [|[k' v'] m IH]; simpl.
  - apply list_elem_of_here.
  - destruct (decide (k' = k)); simpl; [apply list_elem_of_here|].
    by apply list_elem_of_further.
Qed.

End MoreMapFacts.

Section MoreStoreFacts.
Variable persisted : list Session.t.
Local Abbreviation loaded := (loaded persisted).

Lemma create_spec uuid now mode caption st :
  SessionStore.create persisted uuid now mode caption st
  = (Session.mk uuid mode SessionState.initializing [] caption None []
       (PreferenceState.mk [] (3 # 10)%Q [] now) now now,
     updated_store uuid
       (Session.mk uuid mode SessionState.initializing [] caption None []
          (PreferenceState.mk [] (3 # 10)%Q [] now) now now)
       (loaded st)).
Proof.
  unfold SessionStore.create, SessionStore.bind. by rewrite ensureInitialized_spec.
Qed.

Lemma list_spec st :
  SessionStore.list persisted st
  = (SessionStore.sort SessionStore.newest_first
       (JsMap.values (SessionStore.sessions (loaded st))), loaded st).
Proof.
  unfold SessionStore.list, SessionStore.bind.
  by rewrite ensureInitialized_spec.
Qed.

Lemma updated_store_initialized k s st :
  SessionStore.initialized st = true ->
  SessionStore.initialized (updated_store k s st) = true.
Proof. done. Qed.

Lemma deleteNode_spec now sessionId nodeId st :
  SessionStore.deleteNode persisted now sessionId nodeId st
  = match JsMap.get sessionId (SessionStore.sessions (loaded st)) with
    | Some s =>
        let s' :=
          SessionPatch.merge now s
            (SessionStore.directions_patch
               (pruned_directions nodeId (Session.directions s))) in
        (Some s', updated_store sessionId s' (loaded st))
    | None => (None, loaded st)
    end.
Proof.
  unfold SessionStore.deleteNode, SessionStore.bind. rewrite get_spec.
  destruct (JsMap.get sessionId (SessionStore.sessions (loaded st))) eqn:E;
    [|done].
  rewrite update_spec, loaded_loaded, E. done.
Qed.

Lemma getDirection_spec sessionId directionId st :
  SessionStore.getDirection persisted sessionId directionId st
  = (match JsMap.get sessionId (SessionStore.sessions (loaded st)) with
     | Some s =>
         SessionStore.find_direction directionId (Session.directions s)
     | None => None
     end, loaded st).
Proof.
  unfold SessionStore.getDirection, SessionStore.bind. rewrite get_spec.
  by destruct (JsMap.get sessionId _).
Qed.

End MoreStoreFacts.

(** X1: a session made by [create] is the one [get] returns for its id and
    is among the sessions [list] returns; it starts in state
    [initializing] with no reference, profile or direction; its id is
    marked dirty for the next flush; and [get] answers as before for every
    other id. *)
Theorem create_then_get
    (persisted : list Session.t) (uuid : string) (now : Date)
    (mode : SessionMode.t) (caption : string) (st : SessionStore.Store) :
  let r := SessionStore.create persisted uuid now mode caption st in
  (SessionStore.get persisted uuid r.2).1 = Some r.1 /\
  r.1 ∈ (SessionStore.list persisted r.2).1 /\
  (Session.id r.1 = uuid /\ Session.mode r.1 = mode /\
   Session.caption r.1 = caption /\
   Session.state r.1 = SessionState.initializing /\
   Session.referenceUrls r.1 = [] /\ Session.salienceProfile r.1 = None /\
   Session.directions r.1 = []) /\
  uuid ∈ SessionStore.dirty r.2 /\
  (forall id, id <> uuid ->
     (SessionStore.get persisted id r.2).1
     = (SessionStore.get persisted id st).1).
Proof.
  intros r. subst r. rewrite create_spec. cbn [fst snd].
  set (s := Session.mk _ _ _ _ _ _ _ _ _ _).
  assert (Hinit : SessionStore.initialized
                    (updated_store uuid s (loaded persisted st)) = true).
  { apply updated_store_initialized, loaded_initialized. }
  rewrite !get_spec, list_spec, !loaded_id by done. cbn [fst].
  split; [apply JsMap_get_set_eq|]. split.
  { apply sort_elem. unfold updated_store. cbn [SessionStore.sessions].
    apply JsMap_set_values_elem. }
  split; [done|]. split.
  { unfold updated_store. cbn [SessionStore.dirty].
    apply JsSet_elem_add. by left. }
  intros id Hne. rewrite !get_spec, loaded_id by done. cbn [fst].
  unfold updated_store. cbn [SessionStore.sessions].
  by rewrite JsMap_get_set_ne.
Qed.

(** X2: for a session id the store does not hold, every method that takes
    a session id answers [null], and the store is left as
    [ensureInitialized] leaves it: no session appears and nothing is marked
    dirty. *)
Theorem missing_session_is_null
    (persisted : list Session.t) (now : Date) (sessionId : string)
    (st : SessionStore.Store) :
  JsMap.get sessionId (SessionStore.sessions (loaded persisted st)) = None ->
  let unchanged {A} (r : option A * SessionStore.Store) :=
    r = (None, loaded persisted st) in
  unchanged (SessionStore.get persisted sessionId st) /\
  (forall updates,
     unchanged (SessionStore.update persisted now sessionId updates st)) /\
  (forall state,
     unchanged (SessionStore.setState persisted now sessionId state st)) /\
  (forall urls,
     unchanged (SessionStore.setReferences persisted now sessionId urls st)) /\
  (forall profile,
     unchanged
       (SessionStore.setSalienceProfile persisted now sessionId profile st)) /\
  (forall directions,
     unchanged
       (SessionStore.setDirections persisted now sessionId directions st)) /\
  (forall directionId node,
     unchanged
       (SessionStore.addNode persisted now sessionId directionId node st)) /\
  (forall nodeId updates,
     unchanged
       (SessionStore.updateNode persisted now sessionId nodeId updates st)) /\
  (forall nodeId,
     unchanged (SessionStore.deleteNode persisted now sessionId nodeId st)) /\
  (forall updates,
     unchanged
       (SessionStore.updatePreferences persisted now sessionId updates st)) /\
  (forall nodeId,
     unchanged (SessionStore.getNode persisted sessionId nodeId st)) /\
  (forall directionId,
     unchanged (SessionStore.getDirection persisted sessionId directionId st)).
Proof.
  intros Hnone unchanged. subst unchanged. cbn beta.
  split; [by rewrite get_spec, Hnone|].
  split; [intros; by rewrite update_spec, Hnone|].
  split; [intros; by rewrite setState_spec, Hnone|].
  split; [intros; by rewrite setReferences_spec, Hnone|].
  split.
  { intros. unfold SessionStore.setSalienceProfile.
    by rewrite update_spec, Hnone. }
  split.
  { intros. unfold SessionStore.setDirections.
    by rewrite update_spec, Hnone. }
  split; [intros; by rewrite addNode_spec, Hnone|].
  split; [intros; by rewrite updateNode_spec, Hnone|].
  split; [intros; by rewrite deleteNode_spec, Hnone|].
  split.
  { intros. unfold SessionStore.updatePreferences, SessionStore.bind.
    by rewrite get_spec, Hnone. }
  split; [intros; by rewrite getNode_spec, Hnone|].
  intros. by rewrite getDirection_spec, Hnone.
Qed.

Lemma missing_session_is_null_witness :
  SessionStore.updateNode [] Sample.t1 "s-9" "n-1" NodePatch.empty
    (Sample.store_of Sample.planned)
  = (None, Sample.store_of Sample.planned).
Proof.
  destruct (missing_session_is_null [] Sample.t1 "s-9"
              (Sample.store_of Sample.planned))
    as (_ & _ & _ & _ & _ & _ & _ & H & _); [reflexivity|].
  apply H.
Defined.



(** ** Nodes *)

Section FindFacts.
Context {A : Type}.
Implicit Types (p : A -> bool) (l : list A).

Lemma find_app p l1 l2 :
  List.find p (l1 ++ l2)
  = match List.find p l1 with
    | Some x => Some x
    | None => List.find p l2
    end.
Proof.
  induction l1 as [|x l1 IH]; [done|]. cbn. by destruct (p x).
Qed.

Lemma find_filter_off p (q : A -> Prop) `{forall x, Decision (q x)} l :
  (forall x, p x = true -> ~ q x) -> List.find p (filter q l) = None.
Proof.
  intros Hpq. induction l as [|x l IH]; [done|]. cbn.
  destruct (decide (q x)) as [Hq|Hq]; [|done]. cbn.
  destruct (p x) eqn:Hp; [|done]. by destruct (Hpq x Hp).
Qed.

Lemma find_filter_on p (q : A -> Prop) `{forall x, Decision (q x)} l :
  (forall x, p x = true -> q x) ->
  List.find p (filter q l) = List.find p l.
Proof.
  intros Hpq. induction l as [|x l IH]; [done|]. cbn.
  destruct (decide (q x)) as [Hq|Hq]; cbn.
  - by destruct (p x).
  - destruct (p x) eqn:Hp; [|done]. by destruct (Hq (Hpq x Hp)).
Qed.

End FindFacts.

Lemma find_node_extended_other nodeId directionId node ds :
  nodeId <> GenerationNode.id node ->
  SessionStore.find_node nodeId (extended_directions directionId node ds)
  = SessionStore.find_node nodeId ds.
Proof.
  intros Hne. induction ds as [|d ds IH]; [done|].
  cbn [extended_directions map SessionStore.find_node].
  fold (extended_directions directionId node ds). rewrite IH.
  destruct (decide (Direction.id d = directionId)); [|done].
  cbn [Direction.nodes Direction.with_nodes]. rewrite find_app.
  destruct (List.find _ (Direction.nodes d)); [done|]. cbn.
  by rewrite bool_decide_eq_false_2.
Qed.

Lemma find_node_extended_new directionId node ds :
  SessionStore.find_node (GenerationNode.id node) ds = None ->
  is_Some (SessionStore.find_direction directionId ds) ->
  SessionStore.find_node (GenerationNode.id node)
    (extended_directions directionId node ds)
  = Some node.
Proof.
  induction ds as [|d ds IH]; [by intros _ [? ?]|].
  cbn [extended_directions map SessionStore.find_node].
  fold (extended_directions directionId node ds).
  unfold SessionStore.find_direction. cbn [List.find].
  destruct (List.find _ (Direction.nodes d)) eqn:Hd; [done|].
  intros Hrest. case_bool_decide as Hid.
  - intros _. rewrite decide_True by done.
    cbn [Direction.nodes Direction.with_nodes]. rewrite find_app, Hd. cbn.
    by rewrite bool_decide_eq_true_2.
  - intros Hdir. rewrite decide_False by done. rewrite Hd. by apply IH.
Qed.

Lemma find_direction_extended directionId' directionId node ds :
  SessionStore.find_direction directionId'
    (extended_directions directionId node ds)
  = (fun d => if decide (Direction.id d = directionId)
              then Direction.with_nodes d (Direction.nodes d ++ [node])
              else d)
    <$> SessionStore.find_direction directionId' ds.
Proof.
  unfold SessionStore.find_direction.
  induction ds as [|d ds IH]; [done|]. cbn [extended_directions map List.find].
  assert (Direction.id
            (if decide (Direction.id d = directionId)
             then Direction.with_nodes d (Direction.nodes d ++ [node])
             else d) = Direction.id d) as -> by (by destruct (decide _)).
  destruct (bool_decide (Direction.id d = directionId')); [done|apply IH].
Qed.

Lemma extended_directions_absent directionId node ds :
  SessionStore.find_direction directionId ds = None ->
  extended_directions directionId node ds = ds.
Proof.
  unfold SessionStore.find_direction.
  induction ds as [|d ds IH]; [done|]. cbn [extended_directions map List.find].
  case_bool_decide as Hid; [done|]. intros Hrest.
  rewrite decide_False by done. f_equal. by apply IH.
Qed.

Lemma find_node_pruned_same nodeId ds :
  SessionStore.find_node nodeId (pruned_directions nodeId ds) = None.
Proof.
  induction ds as [|d ds IH]; [done|].
  cbn [pruned_directions map SessionStore.find_node Direction.nodes
       Direction.with_nodes].
  rewrite find_filter_off; [apply IH|].
  intros n Hn. apply bool_decide_eq_true in Hn. by intros ?.
Qed.

Lemma find_node_pruned_other nodeId other ds :
  other <> nodeId ->
  SessionStore.find_node other (pruned_directions nodeId ds)
  = SessionStore.find_node other ds.
Proof.
  intros Hne. induction ds as [|d ds IH]; [done|].
  cbn [pruned_directions map SessionStore.find_node Direction.nodes
       Direction.with_nodes].
  fold (pruned_directions nodeId ds). rewrite IH, find_filter_on; [done|].
  intros n Hn. apply bool_decide_eq_true in Hn. congruence.
Qed.

(** X4: [addNode] with a node whose id is new to the session, into a
    direction the session has: [getNode] then returns that node, the
    direction has it as its last node, and [getNode] answers as before for
    every other node id. *)
Theorem addNode_then_getNode
    (persisted : list Session.t) (now : Date)
    (sessionId directionId : string) (node : GenerationNode.t)
    (st : SessionStore.Store) (session : Session.t) (direction : Direction.t) :
  JsMap.get sessionId (SessionStore.sessions (loaded persisted st))
    = Some session ->
  SessionStore.find_direction directionId (Session.directions session)
    = Some direction ->
  SessionStore.find_node (GenerationNode.id node) (Session.directions session)
    = None ->
  let st' :=
    (SessionStore.addNode persisted now sessionId directionId node st).2 in
  (SessionStore.getNode persisted sessionId (GenerationNode.id node) st').1
    = Some node /\
  (SessionStore.getDirection persisted sessionId directionId st').1
    = Some (Direction.with_nodes direction
              (Direction.nodes direction ++ [node])) /\
  (forall other, other <> GenerationNode.id node ->
     (SessionStore.getNode persisted sessionId other st').1
     = (SessionStore.getNode persisted sessionId other st).1).
Proof.
  intros Hget Hdir Hnew st'. subst st'. rewrite addNode_spec, Hget.
  cbn [snd]. set (s' := SessionPatch.merge _ _ _).
  assert (Hinit : SessionStore.initialized
                    (updated_store sessionId s' (loaded persisted st)) = true).
  { apply updated_store_initialized, loaded_initialized. }
  assert (Hs' : JsMap.get sessionId
                  (SessionStore.sessions
                     (updated_store sessionId s' (loaded persisted st)))
                = Some s') by apply JsMap_get_set_eq.
  split; [|split].
  - rewrite getNode_spec, loaded_id, Hs' by done. cbn.
    apply find_node_extended_new; [done|by rewrite Hdir].
  - rewrite getDirection_spec, loaded_id, Hs' by done. cbn [fst].
    change (Session.directions s')
      with (extended_directions directionId node (Session.directions session)).
    rewrite find_direction_extended, Hdir. cbn [fmap option_fmap option_map].
    rewrite decide_True; [done|].
    unfold SessionStore.find_direction in Hdir.
    apply find_some in Hdir as [_ Hb]. by apply bool_decide_eq_true in Hb.
  - intros other Hne. rewrite !getNode_spec, loaded_id, Hs', Hget by done.
    cbn. by apply find_node_extended_other.
Qed.

Lemma addNode_then_getNode_witness :
  (SessionStore.getNode [] "s-1" "n-1"
     (SessionStore.addNode [] Sample.t1 "s-1" "dir-1" Sample.taken_node
        (Sample.store_of Sample.planned)).2).1
  = Some Sample.taken_node.
Proof.
  destruct (addNode_then_getNode [] Sample.t1 "s-1" "dir-1" Sample.taken_node
              (Sample.store_of Sample.planned) Sample.planned
              (Sample.direction "dir-1" []))
    as (H & _); [reflexivity..|].
  exact H.
Defined.

(** X5: [addNode] into a direction the session does not have does not
    fail: it returns the session with every direction as it was, so the
    node is stored nowhere, and it still stamps [updatedAt] and marks the
    session dirty. *)
Theorem addNode_unknown_direction
    (persisted : list Session.t) (now : Date)
    (sessionId directionId : string) (node : GenerationNode.t)
    (st : SessionStore.Store) (session : Session.t) :
  JsMap.get sessionId (SessionStore.sessions (loaded persisted st))
    = Some session ->
  SessionStore.find_direction directionId (Session.directions session)
    = None ->
  let r := SessionStore.addNode persisted now sessionId directionId node st in
  exists updated,
    r.1 = Some updated /\
    Session.directions updated = Session.directions session /\
    Session.updatedAt updated = now /\
    sessionId ∈ SessionStore.dirty r.2 /\
    (forall nodeId,
       (SessionStore.getNode persisted sessionId nodeId r.2).1
       = (SessionStore.getNode persisted sessionId nodeId st).1).
Proof.
  intros Hget Hdir r. subst r. rewrite addNode_spec, Hget. cbn [fst snd].
  rewrite extended_directions_absent by done.
  set (s' := SessionPatch.merge _ _ _). exists s'.
  split; [done|]. split; [done|]. split; [done|]. split.
  { unfold updated_store. cbn [SessionStore.dirty].
    apply JsSet_elem_add. by left. }
  intros nodeId. rewrite !getNode_spec, Hget.
  rewrite loaded_id by apply updated_store_initialized, loaded_initialized.
  unfold updated_store. cbn [SessionStore.sessions fst].
  by rewrite JsMap_get_set_eq.
Qed.

Lemma addNode_unknown_direction_witness :
  exists updated,
    (SessionStore.addNode [] Sample.t1 "s-1" "dir-9" Sample.taken_node
       (Sample.store_of Sample.planned)).1 = Some updated /\
    Session.directions updated = Session.directions Sample.planned.
Proof.
  destruct (addNode_unknown_direction [] Sample.t1 "s-1" "dir-9"
              Sample.taken_node (Sample.store_of Sample.planned)
              Sample.planned)
    as (updated & H1 & H2 & _); [reflexivity..|].
  exists updated. split; [exact H1|exact H2].
Defined.

(** X6: [updateNode] on a session the store holds, with updates that do not
    name an [id]: a node with the given id is afterwards the old node with
    the updates merged over it, and [getNode] answers as before for every
    other node id. *)
Theorem updateNode_then_getNode
    (persisted : list Session.t) (now : Date) (sessionId nodeId : string)
    (updates : NodePatch.t) (st : SessionStore.Store) (session : Session.t) :
  JsMap.get sessionId (SessionStore.sessions (loaded persisted st))
    = Some session ->
  NodePatch.id updates = None ->
  let st' :=
    (SessionStore.updateNode persisted now sessionId nodeId updates st).2 in
  (SessionStore.getNode persisted sessionId nodeId st').1
  = (fun n => NodePatch.merge n updates)
    <$> (SessionStore.getNode persisted sessionId nodeId st).1 /\
  (forall other, other <> nodeId ->
     (SessionStore.getNode persisted sessionId other st').1
     = (SessionStore.getNode persisted sessionId other st).1).
Proof.
  intros Hget Hid st'. subst st'. rewrite updateNode_spec, Hget. cbn [snd].
  set (s' := SessionPatch.merge _ _ _).
  assert (Hinit : SessionStore.initialized
                    (updated_store sessionId s' (loaded persisted st)) = true).
  { apply updated_store_initialized, loaded_initialized. }
  assert (Hs' : JsMap.get sessionId
                  (SessionStore.sessions
                     (updated_store sessionId s' (loaded persisted st)))
                = Some s') by apply JsMap_get_set_eq.
  split.
  - rewrite !getNode_spec, loaded_id, Hs', Hget by done. cbn.
    rewrite find_node_patched by done.
    destruct (SessionStore.find_node nodeId (Session.directions session))
      as [n|] eqn:Hn; [|done].
    cbn. by rewrite decide_True by (by apply find_node_id in Hn).
  - intros other Hne. rewrite !getNode_spec, loaded_id, Hs', Hget by done.
    cbn. rewrite find_node_patched by done.
    destruct (SessionStore.find_node other (Session.directions session))
      as [n|] eqn:Hn; [|done].
    cbn. rewrite decide_False; [done|].
    apply find_node_id in Hn. congruence.
Qed.

Lemma updateNode_then_getNode_witness :
  option_map GenerationNode.progress
    (SessionStore.getNode [] "s-1" "n-a"
       (SessionStore.updateNode [] Sample.t1 "s-1" "n-a"
          (Pipeline.progress_patch (Num.of_Z 7))
          (Sample.store_of Sample.full)).2).1
  = Some (Num.of_Z 7).
Proof.
  destruct (updateNode_then_getNode [] Sample.t1 "s-1" "n-a"
              (Pipeline.progress_patch (Num.of_Z 7))
              (Sample.store_of Sample.full) Sample.full)
    as (H & _); [reflexivity..|].
  rewrite H. reflexivity.
Defined.

(** X7: [deleteNode] on a session the store holds: [getNode] finds no node
    with that id afterwards and answers as before for every other node id;
    the session keeps all its directions, in order, also the ones left
    without a node. *)
Theorem deleteNode_then_getNode
    (persisted : list Session.t) (now : Date) (sessionId nodeId : string)
    (st : SessionStore.Store) (session : Session.t) :
  JsMap.get sessionId (SessionStore.sessions (loaded persisted st))
    = Some session ->
  let r := SessionStore.deleteNode persisted now sessionId nodeId st in
  (SessionStore.getNode persisted sessionId nodeId r.2).1 = None /\
  (forall other, other <> nodeId ->
     (SessionStore.getNode persisted sessionId other r.2).1
     = (SessionStore.getNode persisted sessionId other st).1) /\
  (exists updated,
     r.1 = Some updated /\
     map Direction.id (Session.directions updated)
     = map Direction.id (Session.directions session)).
Proof.
  intros Hget r. subst r. rewrite deleteNode_spec, Hget. cbn [fst snd].
  set (s' := SessionPatch.merge _ _ _).
  assert (Hinit : SessionStore.initialized
                    (updated_store sessionId s' (loaded persisted st)) = true).
  { apply updated_store_initialized, loaded_initialized. }
  assert (Hs' : JsMap.get sessionId
                  (SessionStore.sessions
                     (updated_store sessionId s' (loaded persisted st)))
                = Some s') by apply JsMap_get_set_eq.
  split; [|split].
  - rewrite getNode_spec, loaded_id, Hs' by done. cbn.
    apply find_node_pruned_same.
  - intros other Hne. rewrite !getNode_spec, loaded_id, Hs', Hget by done.
    cbn. by apply find_node_pruned_other.
  - exists s'. split; [done|]. cbn. unfold pruned_directions.
    rewrite map_map. by apply map_ext.
Qed.

Lemma deleteNode_then_getNode_witness :
  (SessionStore.getNode [] "s-1" "n-c"
     (SessionStore.deleteNode [] Sample.t1 "s-1" "n-c"
        (Sample.store_of Sample.full)).2).1 = None.
Proof.
  destruct (deleteNode_then_getNode [] Sample.t1 "s-1" "n-c"
              (Sample.store_of Sample.full) Sample.full)
    as (H & _); [reflexivity|].
  exact H.
Defined.

(** ** Listing *)

Lemma sort_insert_perm {A} (cmp : A -> A -> option Z) (x : A) (l : list A) :
  SessionStore.sort_insert cmp x l ≡ₚ x :: l.
Proof.
  induction l as [|y l IH]; [done|]. cbn.
  destruct (SessionStore.positive (cmp x y)); [|done].
  rewrite IH. apply Permutation_swap.
Qed.

Lemma sort_perm {A} (cmp : A -> A -> option Z) (l : list A) :
  SessionStore.sort cmp l ≡ₚ l.
Proof.
  unfold SessionStore.sort. induction l as [|x l IH]; [done|]. cbn.
  by rewrite sort_insert_perm, IH.
Qed.

Lemma newest_first_order_cons x l :
  newest_first_order (x :: l)
  <-> Forall (not_older x) l /\ newest_first_order l.
Proof.
  unfold newest_first_order. split.
  - intros H. split.
    + apply Forall_lookup. intros j b Hb. apply (H 0%nat (S j)); [lia|done..].
    + intros i j a b Hij Ha Hb. apply (H (S i) (S j)); [lia|done..].
  - intros [Hx Hl] i j a b Hij Ha Hb.
    destruct j as [|j]; [lia|]. cbn in Hb. destruct i as [|i].
    + injection Ha as <-. by apply (proj1 (Forall_lookup _ _) Hx j).
    + cbn in Ha. apply (Hl i j); [lia|done..].
Qed.

Lemma sort_insert_order x l :
  is_Some (created x) -> Forall (fun s => is_Some (created s)) l ->
  newest_first_order l ->
  newest_first_order (SessionStore.sort_insert SessionStore.newest_first x l).
Proof.
  intros [tx Hx]. induction l as [|y l IH]; intros Hvalid Hord.
  - cbn. apply newest_first_order_cons. split; [constructor|].
    intros i j a b Hij Ha Hb. by destruct i.
  - apply Forall_cons in Hvalid as [[ty Hy] Hvalid].
    apply newest_first_order_cons in Hord as [Hyl Hl].
    cbn [SessionStore.sort_insert].
    assert (Hcmp : SessionStore.newest_first x y = Some (ty - tx)).
    { unfold SessionStore.newest_first. unfold created in Hx, Hy.
      by rewrite Hx, Hy. }
    rewrite Hcmp. cbn [SessionStore.positive].
    destruct (0 <? ty - tx) eqn:Hpos.
    + apply Z.ltb_lt in Hpos. apply newest_first_order_cons. split.
      * apply Forall_forall. intros z Hz. apply sort_insert_elem in Hz as [->|Hz].
        -- unfold not_older. rewrite Hx, Hy. lia.
        -- by apply (proj1 (Forall_forall _ _) Hyl).
      * by apply IH.
    + apply Z.ltb_ge in Hpos. apply newest_first_order_cons. split.
      * constructor.
        -- unfold not_older. rewrite Hx, Hy. lia.
        -- eapply Forall_impl; [exact Hyl|]. intros z Hz. cbn in Hz.
           unfold not_older in *. rewrite Hx. rewrite Hy in Hz.
           destruct (created z); [lia|done].
      * apply newest_first_order_cons. by split.
Qed.

Lemma sort_order l :
  Forall (fun s => is_Some (created s)) l ->
  newest_first_order (SessionStore.sort SessionStore.newest_first l).
Proof.
  unfold SessionStore.sort. induction l as [|x l IH]; intros Hvalid.
  - intros i j a b Hij Ha. by destruct i.
  - apply Forall_cons in Hvalid as [Hx Hvalid]. cbn [foldr].
    apply sort_insert_order; [done| |by apply IH].
    apply Forall_forall. intros z Hz. apply sort_elem in Hz.
    by apply (proj1 (Forall_forall _ _) Hvalid).
Qed.

Lemma created_at_sort_insert t x l :
  created_at t (SessionStore.sort_insert SessionStore.newest_first x l)
  = created_at t (x :: l).
Proof.
  unfold created_at. induction l as [|y l IH]; [done|].
  cbn [SessionStore.sort_insert].
  destruct (SessionStore.positive (SessionStore.newest_first x y)) eqn:Hpos;
    [|done].
  rewrite filter_cons, IH, !filter_cons.
  destruct (decide (created x = Some t)) as [Hx|Hx];
    destruct (decide (created y = Some t)) as [Hy|Hy]; try done.
  unfold SessionStore.newest_first, created in *. rewrite Hx, Hy in Hpos.
  cbn in Hpos. apply Z.ltb_lt in Hpos. lia.
Qed.

Lemma created_at_sort t l :
  created_at t (SessionStore.sort SessionStore.newest_first l)
  = created_at t l.
Proof.
  unfold SessionStore.sort. induction l as [|x l IH]; [done|]. cbn [foldr].
  rewrite created_at_sort_insert. unfold created_at in *.
  by rewrite !filter_cons, IH.
Qed.

(** X8: when every stored session has a valid creation date, [list]
    returns exactly the stored sessions (each as often as the map holds
    it), no session before one created later, and sessions created at the
    same time in the order in which the map holds them. *)
Theorem list_newest_first
    (persisted : list Session.t) (st : SessionStore.Store) :
  let stored := JsMap.values (SessionStore.sessions (loaded persisted st)) in
  let l := (SessionStore.list persisted st).1 in
  Forall (fun s => is_Some (created s)) stored ->
  l ≡ₚ stored /\
  newest_first_order l /\
  (forall t, created_at t l = created_at t stored).
Proof.
  intros stored l Hvalid. subst l. rewrite list_spec. cbn [fst].
  split; [apply sort_perm|]. split; [by apply sort_order|].
  intros t. apply created_at_sort.
Qed.

Lemma list_newest_first_witness :
  let older := Sample.session SessionState.idle "first" [] in
  let newer :=
    Session.mk "s-2" SessionMode.assets SessionState.initializing [] "second"
      None [] (PreferenceState.mk [] (3 # 10)%Q [] Sample.t1) Sample.t1
      Sample.t1 in
  let st := SessionStore.mkStore [("s-1", older); ("s-2", newer)] [] true in
  (SessionStore.list [] st).1 = [newer; older]
  /\ newest_first_order (SessionStore.list [] st).1.
Proof.
  intros older newer st. split; [reflexivity|].
  destruct (list_newest_first [] st) as (_ & H & _); [|exact H].
  repeat constructor; by eexists.
Defined.

(** ** Flushing *)

(** X9: a flush in which the data directory can be made and every dirty
    session can be written leaves no dirty id, and a further flush then
    does nothing at all: it neither makes the directory nor writes a file,
    whatever would fail. *)
Theorem flushDirty_settles
    (write_ok : string -> bool) (st : SessionStore.Store)
    (disk : SessionStore.Disk) :
  (forall id, id ∈ SessionStore.dirty st ->
              write_ok (SessionStore.session_path id) = true) ->
  let r := SessionStore.flushDirty true write_ok st disk in
  SessionStore.dirty r.1.2 = [] /\
  forall mkdir_ok' write_ok',
    SessionStore.flushDirty mkdir_ok' write_ok' r.1.2 r.2
    = (Returned tt, r.1.2, r.2).
Proof.
  intros Hok r.
  assert (Hdirty : SessionStore.dirty r.1.2 = []).
  { subst r. unfold SessionStore.flushDirty.
    destruct (JsSet.size (SessionStore.dirty st) =? 0)%nat eqn:Hsize.
    - cbn. destruct (SessionStore.dirty st); [done|discriminate Hsize].
    - cbn [negb].
      destruct (SessionStore.flush_loop _ _ _ _ _) as [dirty' disk'] eqn:Hloop.
      cbn. destruct dirty' as [|id dirty']; [done|].
      assert (Hin : id ∈ (SessionStore.flush_loop write_ok
                            (SessionStore.dirty st) (SessionStore.sessions st)
                            (JsSet.clear (SessionStore.dirty st)) disk).1).
      { rewrite Hloop. apply list_elem_of_here. }
      apply flush_loop_dirty in Hin as [Hin|(Hin & _ & Hw)].
      + by apply elem_of_nil in Hin.
      + rewrite Hok in Hw by done. discriminate Hw. }
  split; [done|]. intros mkdir_ok' write_ok'.
  unfold SessionStore.flushDirty at 1. by rewrite Hdirty.
Qed.

Lemma flushDirty_settles_witness :
  let st := SessionStore.mkStore [("s-1", Sample.planned)] ["s-1"] true in
  SessionStore.dirty (SessionStore.flushDirty true (fun _ => true) st ∅).1.2
  = [].
Proof.
  intros st.
  destruct (flushDirty_settles (fun _ => true) st ∅) as [H _]; [done|].
  exact H.
Defined.

(* ================================================================== *)
(** * Dates and documents *)
(* ================================================================== *)

(** ** The calendar *)

Lemma all_from_nat p n z k :
  all_from p n z = true -> z <= k < z + Z.of_nat n -> p k = true.
Proof.
  revert z. induction n as [|n IH]; intros z Hall Hk; [lia|].
  cbn [all_from] in Hall. apply andb_true_iff in Hall as [Hz Hall].
  destruct (decide (k = z)) as [->|Hne]; [done|].
  apply (IH (z + 1)); [done|lia].
Qed.

Lemma all_from_spec p len z k :
  0 <= len -> all_from p (Z.to_nat len) z = true -> z <= k < z + len ->
  p k = true.
Proof.
  intros Hlen Hall Hk. apply (all_from_nat p (Z.to_nat len) z); [done|].
  rewrite Z2Nat.id by done. exact Hk.
Qed.

Lemma era_days_ok doe : 0 <= doe < 146097 -> era_day_ok doe = true.
Proof.
  intros Hdoe. apply (all_from_spec era_day_ok 146097 0); [lia| |lia].
  vm_compute. reflexivity.
Qed.

Lemma is_leap_era a k : JsDate.is_leap (a + k * 400) = JsDate.is_leap a.
Proof.
  unfold JsDate.is_leap.
  replace ((a + k * 400) mod 4) with (a mod 4)
    by (Z.div_mod_to_equations; lia).
  replace ((a + k * 400) mod 100) with (a mod 100)
    by (Z.div_mod_to_equations; lia).
  replace ((a + k * 400) mod 400) with (a mod 400)
    by (Z.div_mod_to_equations; lia).
  done.
Qed.

Lemma days_in_month_era a k m :
  JsDate.days_in_month (a + k * 400) m = JsDate.days_in_month a m.
Proof. unfold JsDate.days_in_month. by rewrite is_leap_era. Qed.

Lemma civil_from_days_era day :
  let era := (day + 719468) / 146097 in
  let doe := day + 719468 - era * 146097 in
  JsDate.civil_from_days day
  = let '(yoe, m, d) := civil_of_doe doe in
    ((if m <=? 2 then yoe + era * 400 + 1 else yoe + era * 400), m, d).
Proof. reflexivity. Qed.

(** Every day of the years 0 to 9999 has a civil date in those years, and
    the day number of that date is the day. *)
Lemma civil_round_trip day :
  -719528 <= day <= 2932896 ->
  exists y m d,
    JsDate.civil_from_days day = (y, m, d) /\
    0 <= y <= 9999 /\ 1 <= m <= 12 /\ 1 <= d <= JsDate.days_in_month y m /\
    JsDate.days_from_civil y m d = day.
Proof.
  intros Hday. rewrite civil_from_days_era.
  set (era := (day + 719468) / 146097).
  set (doe := day + 719468 - era * 146097).
  assert (Hdoe : 0 <= doe < 146097)
    by (subst doe era; Z.div_mod_to_equations; lia).
  assert (Hera : -1 <= era <= 24)
    by (subst era; Z.div_mod_to_equations; lia).
  pose proof (era_days_ok doe Hdoe) as Hok. unfold era_day_ok in Hok.
  destruct (civil_of_doe doe) as [[yoe m] d].
  repeat (apply andb_true_iff in Hok as [Hok ?]).
  repeat match goal with
         | H : (_ <=? _) = true |- _ => apply Z.leb_le in H
         | H : (_ =? _) = true |- _ => apply Z.eqb_eq in H
         end.
  eexists _, m, d. split; [reflexivity|].
  assert (Hy : (if m <=? 2 then yoe + era * 400 + 1 else yoe + era * 400)
               = (if m <=? 2 then yoe + 1 else yoe) + era * 400)
    by (destruct (m <=? 2); lia).
  rewrite Hy, days_in_month_era. split; [|split; [lia|split; [lia|]]].
  - assert (Hlow : 146037 <= doe
                   -> 400 <= (if m <=? 2 then yoe + 1 else yoe)).
    { intros Hl. apply Z.leb_le in Hl.
      match goal with H : implb (146037 <=? doe) _ = true |- _ =>
        rewrite Hl in H; cbn in H; by apply Z.leb_le in H end. }
    assert (Hhigh : doe <= 146036
                    -> (if m <=? 2 then yoe + 1 else yoe) <= 399).
    { intros Hl. apply Z.leb_le in Hl.
      match goal with H : implb (doe <=? 146036) _ = true |- _ =>
        rewrite Hl in H; cbn in H; by apply Z.leb_le in H end. }
    assert (Hyr : 0 <= (if m <=? 2 then yoe + 1 else yoe) <= 400)
      by (destruct (m <=? 2); lia).
    subst doe. lia.
  - unfold JsDate.days_from_civil.
    assert (Hy0 : (if m <=? 2
                   then (if m <=? 2 then yoe + 1 else yoe) + era * 400 - 1
                   else (if m <=? 2 then yoe + 1 else yoe) + era * 400)
                  = yoe + era * 400) by (destruct (m <=? 2); lia).
    rewrite Hy0.
    assert (Hq : (yoe + era * 400) / 400 = era)
      by (Z.div_mod_to_equations; lia).
    rewrite Hq. replace (yoe + era * 400 - era * 400) with yoe by lia.
    match goal with H : doe_of_civil yoe m d = doe |- _ =>
      unfold doe_of_civil in H; cbv zeta in H |- *; rewrite H end.
    subst doe. lia.
Qed.

(** ** ISO strings *)

Lemma toISOString_iso ms :
  JsDate.toISOString ms
  = let '(y, m, d) := JsDate.civil_from_days (ms / JsDate.msPerDay) in
    let tod := ms mod JsDate.msPerDay in
    iso_string y m d (tod / 3600000) (tod / 60000 mod 60)
      (tod / 1000 mod 60) (tod mod 1000).
Proof. reflexivity. Qed.

Lemma is_digit_digit n : JsDate.is_digit (JsDate.digit n) = true.
Proof.
  unfold JsDate.is_digit, JsDate.digit.
  assert (Hn : 0 <= n mod 10 < 10) by (apply Z.mod_pos_bound; lia).
  rewrite nat_ascii_embedding by lia.
  apply andb_true_iff. split; apply Nat.leb_le; lia.
Qed.

Lemma digit_val_digit n : JsDate.digit_val (JsDate.digit n) = n mod 10.
Proof.
  unfold JsDate.digit_val, JsDate.digit.
  assert (Hn : 0 <= n mod 10 < 10) by (apply Z.mod_pos_bound; lia).
  rewrite nat_ascii_embedding by lia. lia.
Qed.

Lemma digits_val_2 n :
  0 <= n < 100 ->
  JsDate.digits_val 0
    (String (JsDate.digit (n / 10)) (String (JsDate.digit n) EmptyString))
  = Some n.
Proof.
  intros Hn. cbn [JsDate.digits_val].
  rewrite !is_digit_digit, !digit_val_digit. f_equal.
  Z.div_mod_to_equations. lia.
Qed.

Lemma digits_val_3 n :
  0 <= n < 1000 ->
  JsDate.digits_val 0
    (String (JsDate.digit (n / 10 / 10))
       (String (JsDate.digit (n / 10)) (String (JsDate.digit n) EmptyString)))
  = Some n.
Proof.
  intros Hn. cbn [JsDate.digits_val].
  rewrite !is_digit_digit, !digit_val_digit. f_equal.
  Z.div_mod_to_equations. lia.
Qed.

Lemma digits_val_4 n :
  0 <= n < 10000 ->
  JsDate.digits_val 0
    (String (JsDate.digit (n / 10 / 10 / 10))
       (String (JsDate.digit (n / 10 / 10))
          (String (JsDate.digit (n / 10))
             (String (JsDate.digit n) EmptyString))))
  = Some n.
Proof.
  intros Hn. cbn [JsDate.digits_val].
  rewrite !is_digit_digit, !digit_val_digit. f_equal.
  Z.div_mod_to_equations. lia.
Qed.

Lemma iso_string_chars y m d hh mi ss ms :
  0 <= y <= 9999 ->
  iso_string y m d hh mi ss ms
  = string_of_list_ascii
      [(JsDate.digit (y / 10 / 10 / 10));
       (JsDate.digit (y / 10 / 10));
       (JsDate.digit (y / 10));
       (JsDate.digit y);
       "-"%char;
       (JsDate.digit (m / 10));
       (JsDate.digit m);
       "-"%char;
       (JsDate.digit (d / 10));
       (JsDate.digit d);
       "T"%char;
       (JsDate.digit (hh / 10));
       (JsDate.digit hh);
       ":"%char;
       (JsDate.digit (mi / 10));
       (JsDate.digit mi);
       ":"%char;
       (JsDate.digit (ss / 10));
       (JsDate.digit ss);
       "."%char;
       (JsDate.digit (ms / 10 / 10));
       (JsDate.digit (ms / 10));
       (JsDate.digit ms);
       "Z"%char].
Proof.
  intros Hy. unfold iso_string, JsDate.year_string.
  assert ((0 <=? y) && (y <=? 9999) = true) as ->.
  { apply andb_true_iff. split; apply Z.leb_le; lia. }
  reflexivity.
Qed.

Lemma parse_iso y m d hh mi ss ms :
  0 <= y <= 9999 -> 1 <= m <= 12 -> 1 <= d <= JsDate.days_in_month y m ->
  0 <= hh <= 23 -> 0 <= mi <= 59 -> 0 <= ss <= 59 -> 0 <= ms <= 999 ->
  JsDate.parse (iso_string y m d hh mi ss ms)
  = JsDate.Time (JsDate.days_from_civil y m d * JsDate.msPerDay
                 + hh * 3600000 + mi * 60000 + ss * 1000 + ms).
Proof.
  intros Hy Hm Hd Hhh Hmi Hss Hms. rewrite iso_string_chars by done.
  assert (Hdim : JsDate.days_in_month y m <= 31).
  { unfold JsDate.days_in_month.
    repeat match goal with |- context [if ?b then _ else _] => destruct b end;
      lia. }
  unfold JsDate.parse.
  cbn -[JsDate.digits_val JsDate.digit Z.mul Z.add Z.leb
        JsDate.days_from_civil JsDate.days_in_month Z.div].
  rewrite digits_val_4, !digits_val_2, digits_val_3 by lia. cbv beta iota.
  assert ((1 <=? m) && (m <=? 12) && (1 <=? d)
          && (d <=? JsDate.days_in_month y m) && (hh <=? 23) && (mi <=? 59)
          && (ss <=? 59) = true) as ->.
  { repeat (apply andb_true_iff; split); apply Z.leb_le; lia. }
  by rewrite !bool_decide_eq_true_2 by done.
Qed.

Lemma date_like_iso y m d hh mi ss ms :
  0 <= y <= 9999 -> JsValue.date_like (iso_string y m d hh mi ss ms) = true.
Proof.
  intros Hy. rewrite iso_string_chars by done.
  unfold JsValue.date_like, JsValue.date_pattern.
  cbn -[JsDate.is_digit JsDate.digit Z.div].
  rewrite !is_digit_digit. rewrite !bool_decide_eq_true_2 by done.
  reflexivity.
Qed.

(** The time of day and the day of a time value. *)
Lemma time_of_day ms :
  let tod := ms mod JsDate.msPerDay in
  0 <= tod / 3600000 <= 23 /\ 0 <= tod / 60000 mod 60 <= 59 /\
  0 <= tod / 1000 mod 60 <= 59 /\ 0 <= tod mod 1000 <= 999 /\
  ms / JsDate.msPerDay * JsDate.msPerDay + tod / 3600000 * 3600000
  + tod / 60000 mod 60 * 60000 + tod / 1000 mod 60 * 1000 + tod mod 1000
  = ms.
Proof.
  unfold JsDate.msPerDay. cbv zeta. Z.div_mod_to_equations. lia.
Qed.

(** What [toISOString] writes for a time value of the four-digit years
    looks like a date to the reviver, and [new Date] reads the time value
    back from it. *)
Lemma parse_toISOString ms :
  four_digit_year ms = true ->
  JsValue.date_like (JsDate.toISOString ms) = true /\
  JsDate.parse (JsDate.toISOString ms) = JsDate.Time ms.
Proof.
  intros Hms. unfold four_digit_year in Hms.
  apply andb_true_iff in Hms as [Hlo Hhi].
  apply Z.leb_le in Hlo. apply Z.leb_le in Hhi.
  assert (Hday : -719528 <= ms / JsDate.msPerDay <= 2932896).
  { unfold JsDate.msPerDay. Z.div_mod_to_equations. lia. }
  destruct (civil_round_trip _ Hday) as (y & m & d & Hc & Hy & Hm & Hd & Hback).
  rewrite toISOString_iso, Hc. cbv zeta.
  destruct (time_of_day ms) as (Hhh & Hmi & Hss & Hmss & Hsum).
  split; [by apply date_like_iso|].
  rewrite parse_iso by done. rewrite Hback. f_equal. exact Hsum.
Qed.

(** ** Documents *)

Lemma revive_stringify v :
  restorable v = true -> JsValue.revive (JsValue.stringify v) = v.
Proof.
  revert v. fix IH 1. intros [| | |s|[ms|]|l|fs] Hv;
    cbn [JsValue.stringify JsValue.revive restorable] in *; try done.
  - apply negb_true_iff in Hv. by rewrite Hv.
  - destruct (parse_toISOString ms Hv) as [-> ->]. done.
  - f_equal. induction l as [|x l IHl]; [done|]. cbn [map forallb] in *.
    apply andb_true_iff in Hv as [Hx Hl]. rewrite IH by done. f_equal.
    by apply IHl.
  - f_equal. induction fs as [|[k x] fs IHfs]; [done|].
    cbn [map forallb fst snd] in *.
    apply andb_true_iff in Hv as [Hx Hfs]. rewrite IH by done. f_equal.
    by apply IHfs.
Qed.

Lemma length_append (a b : string) :
  String.length (a +:+ b) = (String.length a + String.length b)%nat.
Proof.
  induction a as [|c a IH]; [done|].
  change (S (String.length (a +:+ b))
          = S (String.length a + String.length b)).
  by rewrite IH.
Qed.

Lemma ends_with_aux_append (a b : string) :
  SessionStore.ends_with_aux b (a +:+ b) (String.length a) = true.
Proof.
  induction a as [|c a IH]; [|exact IH].
  destruct b; by apply bool_decide_eq_true.
Qed.

Lemma endsWith_append (a b : string) :
  SessionStore.endsWith (a +:+ b) b = true.
Proof.
  unfold SessionStore.endsWith. rewrite length_append.
  replace (String.length a + String.length b - String.length b)%nat
    with (String.length a) by lia.
  apply ends_with_aux_append.
Qed.

(** X10: a date of the years 0 to 9999 survives a restart: the reviver
    recognises what [JSON.stringify] wrote for it and [new Date] reads the
    same time value back. *)
Theorem date_survives_reload (ms : Z) :
  four_digit_year ms = true ->
  JsValue.revive (JsValue.stringify (JsValue.VDate (JsDate.Time ms)))
  = JsValue.VDate (JsDate.Time ms).
Proof.
  intros Hms. cbn [JsValue.stringify JsValue.revive].
  by destruct (parse_toISOString ms Hms) as [-> ->].
Qed.

Lemma date_survives_reload_witness :
  JsValue.revive (JsValue.stringify (JsValue.VDate Sample.t1))
  = JsValue.VDate Sample.t1.
Proof. apply (date_survives_reload 1700000060000). reflexivity. Defined.

(** X11: a dirty session that holds no text that looks like a date, and
    only valid dates of the years 0 to 9999, is read back from its file as
    it was: after a flush in which its file can be written, [loadAll] over
    that file maps the session's id to a value equal to the session. *)
Theorem flush_then_reload
    (write_ok : string -> bool) (st : SessionStore.Store)
    (disk : SessionStore.Disk) (sessionId : string) (s : Session.t) :
  JsMap.get sessionId (SessionStore.sessions st) = Some s ->
  sessionId ∈ SessionStore.dirty st ->
  Session.id s = sessionId ->
  restorable (Encode.session s) = true ->
  write_ok (SessionStore.session_path sessionId) = true ->
  let disk' := (SessionStore.flushDirty true write_ok st disk).2 in
  SessionStore.loaded_get (Some (JsValue.VStr sessionId))
    (SessionStore.loadAll_documents [sessionId +:+ ".json"] disk' [])
  = Some (Encode.session s).
Proof.
  intros Hget Hdirty Hid Hrest Hw disk'.
  assert (Hfile : disk' !! SessionStore.session_path sessionId
                  = Some (SessionStore.document s)).
  { subst disk'. unfold SessionStore.flushDirty.
    destruct (JsSet.size (SessionStore.dirty st) =? 0)%nat eqn:Hsize.
    { destruct (SessionStore.dirty st); [|discriminate Hsize].
      by apply elem_of_nil in Hdirty. }
    cbn [negb].
    pose proof (flush_loop_written write_ok (SessionStore.sessions st)
                  (SessionStore.dirty st) (JsSet.clear (SessionStore.dirty st))
                  disk sessionId s Hdirty Hget Hw) as Hwritten.
    by destruct (SessionStore.flush_loop _ _ _ _ _). }
  cbn [SessionStore.loadAll_documents]. rewrite endsWith_append.
  change (SessionStore.path_join SessionStore.DATA_DIR (sessionId +:+ ".json"))
    with (SessionStore.session_path sessionId).
  rewrite Hfile. unfold SessionStore.document.
  rewrite revive_stringify by done.
  assert (Hprop : JsValue.prop "id" (Encode.session s)
                  = Some (JsValue.VStr sessionId)).
  { rewrite <- Hid. reflexivity. }
  rewrite Hprop. cbn [SessionStore.loaded_set SessionStore.loaded_get].
  cbn [SessionStore.sameValueZero]. by rewrite bool_decide_eq_true_2.
Qed.

Lemma flush_then_reload_witness :
  let st := SessionStore.mkStore [("s-1", Sample.planned)] ["s-1"] true in
  SessionStore.loaded_get (Some (JsValue.VStr "s-1"))
    (SessionStore.loadAll_documents ["s-1.json"]
       (SessionStore.flushDirty true (fun _ => true) st ∅).2 [])
  = Some (Encode.session Sample.planned).
Proof.
  intros st.
  apply (flush_then_reload (fun _ => true) st ∅ "s-1" Sample.planned).
  - reflexivity.
  - apply list_elem_of_here.
  - reflexivity.
  - vm_compute. reflexivity.
  - reflexivity.
Defined.

(* ================================================================== *)
(** * Further properties of the event helpers *)
(* ================================================================== *)

Lemma observed_app sessionId ls es es' :
  Events.observed sessionId (Events.mkBus ls (es ++ es'))
  = Events.observed sessionId (Events.mkBus ls es)
    ++ Events.observed sessionId (Events.mkBus ls es').
Proof.
  unfold Events.observed. cbn [Events.emitted].
  by rewrite filter_app, map_app.
Qed.

Lemma observed_pair sessionId ls name e :
  Events.observed sessionId (Events.mkBus ls [(name, e)])
  = if decide (name = "*" /\ Events.sessionId e = sessionId) then [e] else [].
Proof.
  unfold Events.observed. cbn [Events.emitted]. rewrite filter_cons. cbn.
  by destruct (decide _).
Qed.

(** X12: an event of any type but ['error'] always goes out: the call
    returns, an observer of the session's stream receives this one event
    after the ones received before, observers of other sessions receive
    nothing, and the listeners stay as they are. *)
Theorem emitSessionEvent_delivers
    (now : Date) (sessionId : string) (t : Events.StreamEventType)
    (p : Events.Payload) (b : Events.Bus) :
  t <> Events.error ->
  exists b',
    Events.emitSessionEvent now sessionId t p b = (Returned tt, b') /\
    Events.observed sessionId b'
    = Events.observed sessionId b ++ [Events.mkEvent t sessionId now p] /\
    (forall other, other <> sessionId ->
       Events.observed other b' = Events.observed other b) /\
    Events.listeners b' = Events.listeners b.
Proof.
  intros Ht.
  assert (Hname : Events.name t <> "error") by (by destruct t).
  assert (Hstar : Events.name t <> "*") by (by destruct t).
  unfold Events.emitSessionEvent, Events.emit.
  rewrite (bool_decide_eq_false_2 (Events.name t = "error")) by done.
  rewrite (bool_decide_eq_false_2 ("*" = "error")) by done.
  cbn [andb]. eexists. split; [reflexivity|]. destruct b as [ls es].
  cbn [Events.listeners Events.emitted]. split; [|split; [|done]].
  - rewrite !observed_app, !observed_pair.
    rewrite decide_False by (by intros [? _]).
    rewrite decide_True by done. by rewrite app_nil_r.
  - intros other Hne. rewrite !observed_app, !observed_pair.
    rewrite decide_False by (by intros [? _]).
    rewrite decide_False by (intros [_ ?]; cbn in *; congruence).
    by rewrite !app_nil_r.
Qed.

Lemma emitSessionEvent_delivers_witness :
  exists b',
    Events.emitSessionEvent Sample.t1 "s-1" Events.node_created
      (Events.NodeCreated "n-1" "dir-1" (Num.of_Z 1)) (Events.mkBus [] [])
    = (Returned tt, b') /\
    Events.observed "s-1" b'
    = [Events.mkEvent Events.node_created "s-1" Sample.t1
         (Events.NodeCreated "n-1" "dir-1" (Num.of_Z 1))].
Proof.
  destruct (emitSessionEvent_delivers Sample.t1 "s-1" Events.node_created
              (Events.NodeCreated "n-1" "dir-1" (Num.of_Z 1))
              (Events.mkBus [] []))
    as (b' & H1 & H2 & _); [discriminate|].
  exists b'. split; [exact H1|exact H2].
Defined.

(** X13: an ['error'] event goes out only when the session's emitter has a
    listener for ['error']: then the call returns and the stream's observer
    receives the event; otherwise the emitter throws, and nothing is
    emitted, not even under the wildcard. *)
Theorem error_event_needs_listener
    (now : Date) (sessionId : string) (p : Events.Payload) (b : Events.Bus) :
  (Events.has_listener sessionId "error" b = true ->
   exists b',
     Events.emitSessionEvent now sessionId Events.error p b
     = (Returned tt, b') /\
     Events.observed sessionId b'
     = Events.observed sessionId b
       ++ [Events.mkEvent Events.error sessionId now p]) /\
  (Events.has_listener sessionId "error" b = false ->
   Events.emitSessionEvent now sessionId Events.error p b
   = (Thrown "Unhandled error.", b)).
Proof.
  unfold Events.emitSessionEvent, Events.emit. cbn [Events.name].
  rewrite (bool_decide_eq_true_2 ("error" = "error")) by done.
  rewrite (bool_decide_eq_false_2 ("*" = "error")) by done.
  split; intros ->; cbn [andb negb]; [|done].
  eexists. split; [reflexivity|]. destruct b as [ls es].
  cbn [Events.listeners Events.emitted].
  rewrite !observed_app, !observed_pair.
  rewrite decide_False by (by intros [? _]).
  rewrite decide_True by done. by rewrite app_nil_r.
Qed.

(* ================================================================== *)
(** * Further properties of the pipeline *)
(* ================================================================== *)

Section Enqueue.
Variable persisted : list Session.t.
Local Abbreviation loaded := (loaded persisted).

Lemma store_addNode_spec sessionId directionId node w :
  Pipeline.store_addNode persisted sessionId directionId node w
  = (Returned
       (SessionStore.addNode persisted (Pipeline.now w) sessionId directionId
          node (Pipeline.store w)).1,
     Pipeline.with_store
       (SessionStore.addNode persisted (Pipeline.now w) sessionId directionId
          node (Pipeline.store w)).2 w).
Proof.
  unfold Pipeline.store_addNode, Pipeline.store_call.
  by destruct (SessionStore.addNode _ _ _ _ _ _).
Qed.

Lemma store_getNode_spec sessionId nodeId w :
  Pipeline.store_getNode persisted sessionId nodeId w
  = (Returned
       (match JsMap.get sessionId
                (SessionStore.sessions (loaded (Pipeline.store w))) with
        | Some s => SessionStore.find_node nodeId (Session.directions s)
        | None => None
        end),
     Pipeline.with_store (loaded (Pipeline.store w)) w).
Proof.
  unfold Pipeline.store_getNode, Pipeline.store_call. by rewrite getNode_spec.
Qed.

End Enqueue.

(** X14: [enqueueGeneration] for a session the store does not hold throws
    [Session not found], and for a direction the session does not have it
    throws [Direction not found]; in both cases nothing happens but the
    lazy initialisation of the store: no node, no event, no job. *)
Theorem enqueueGeneration_rejects
    (persisted : list Session.t) (nodeId jobId sessionId directionId : string)
    (parentNodeId : option string) (mediaType : MediaType.t) (depth : number)
    (w : Pipeline.World) :
  let st := loaded persisted (Pipeline.store w) in
  let r := Pipeline.enqueueGeneration persisted nodeId jobId sessionId
             directionId parentNodeId mediaType depth w in
  (JsMap.get sessionId (SessionStore.sessions st) = None ->
   r = (Thrown "Session not found", Pipeline.with_store st w)) /\
  (forall session,
     JsMap.get sessionId (SessionStore.sessions st) = Some session ->
     SessionStore.find_direction directionId (Session.directions session)
       = None ->
     r = (Thrown "Direction not found", Pipeline.with_store st w)).
Proof.
  intros st r. subst st r. unfold Pipeline.enqueueGeneration.
  split; [intros Hget|intros session Hget Hdir];
    unfold Pipeline.bind at 1; rewrite store_get_spec; cbv beta iota;
    rewrite Hget; [done|by rewrite Hdir].
Qed.

Lemma observed_emitted sessionId ls es t e :
  Events.sessionId e = sessionId ->
  Events.observed sessionId
    (Events.mkBus ls (es ++ [(Events.name t, e); ("*", e)]))
  = Events.observed sessionId (Events.mkBus ls es) ++ [e].
Proof.
  intros He. rewrite observed_app. f_equal.
  change [(Events.name t, e); ("*", e)]
    with ([(Events.name t, e)] ++ [("*", e)]).
  rewrite observed_app, !observed_pair.
  rewrite decide_False by (intros [? _]; by destruct t).
  by rewrite decide_True.
Qed.

Lemma bus_eta b : Events.mkBus (Events.listeners b) (Events.emitted b) = b.
Proof. by destruct b. Qed.

(** X15: [enqueueGeneration] for a direction the session has, with a node
    id new to the session: it returns the two ids; the node is in the
    store, queued, with progress 0; the stream's observer receives
    [node_created]; and the job is pushed.  While a worker loop is running
    the job waits at the tail of the queue; with no loop running and an
    empty queue a loop is started and takes the job at once. *)
Theorem enqueueGeneration_accepts
    (persisted : list Session.t) (nodeId jobId sessionId directionId : string)
    (parentNodeId : option string) (mediaType : MediaType.t) (depth : number)
    (w : Pipeline.World) (session : Session.t) (direction : Direction.t) :
  JsMap.get sessionId
    (SessionStore.sessions (loaded persisted (Pipeline.store w)))
    = Some session ->
  SessionStore.find_direction directionId (Session.directions session)
    = Some direction ->
  SessionStore.find_node nodeId (Session.directions session) = None ->
  let node := Pipeline.new_node nodeId directionId depth mediaType
                parentNodeId (Pipeline.now w) in
  let job := GenerationJob.mk jobId sessionId directionId nodeId parentNodeId
               mediaType depth JobStatus.queued None in
  exists w',
    Pipeline.enqueueGeneration persisted nodeId jobId sessionId directionId
      parentNodeId mediaType depth w = (Returned (nodeId, jobId), w') /\
    node_at sessionId nodeId (Pipeline.store w') = Some node /\
    GenerationNode.status node = NodeStatus.queued /\
    GenerationNode.progress node = Num.of_Z 0 /\
    Events.observed sessionId (Pipeline.bus w')
    = Events.observed sessionId (Pipeline.bus w)
      ++ [Events.mkEvent Events.node_created sessionId (Pipeline.now w)
            (Events.NodeCreated nodeId directionId depth)] /\
    Pipeline.enqueued w' = Pipeline.enqueued w ++ [jobId] /\
    (Pipeline.isProcessing w = true ->
     Pipeline.jobQueue w' = Pipeline.jobQueue w ++ [job] /\
     Pipeline.workers w' = Pipeline.workers w /\
     Pipeline.isProcessing w' = true /\
     Pipeline.started w' = Pipeline.started w) /\
    (Pipeline.isProcessing w = false -> Pipeline.jobQueue w = [] ->
     Pipeline.jobQueue w' = [] /\
     Pipeline.workers w'
     = Pipeline.workers w
       ++ [GenerationJob.with_status JobStatus.processing None job] /\
     Pipeline.isProcessing w' = true /\
     Pipeline.started w' = Pipeline.started w ++ [jobId]).
Proof.
  intros Hget Hdir Hnew node job.
  set (st := loaded persisted (Pipeline.store w)) in *.
  assert (Hinit : SessionStore.initialized st = true)
    by apply loaded_initialized.
  unfold Pipeline.enqueueGeneration.
  unfold Pipeline.bind at 1. rewrite store_get_spec. fold st.
  cbv beta iota. rewrite Hget, Hdir.
  unfold Pipeline.bind at 1. rewrite store_addNode_spec.
  cbn [Pipeline.store Pipeline.with_store Pipeline.now Pipeline.clock].
  fold (Pipeline.now w). fold node.
  rewrite addNode_spec, loaded_id, Hget by done. cbn [fst snd]. cbv zeta.
  set (s' := SessionPatch.merge _ _ _).
  unfold Pipeline.bind at 1. unfold Pipeline.emitNodeCreated.
  rewrite emitSessionEvent_returns by done.
  cbn [Pipeline.bus Pipeline.with_store Pipeline.now Pipeline.clock].
  fold (Pipeline.now w).
  unfold Pipeline.bind, Pipeline.ret. cbv beta iota.
  eexists. split; [reflexivity|].
  assert (Hstore : forall x, Pipeline.store (Pipeline.processQueue x)
                             = Pipeline.store x).
  { intros x. unfold Pipeline.processQueue.
    destruct (Pipeline.isProcessing x); [done|].
    by destruct (Pipeline.jobQueue x). }
  assert (Hbus : forall x, Pipeline.bus (Pipeline.processQueue x)
                           = Pipeline.bus x).
  { intros x. unfold Pipeline.processQueue.
    destruct (Pipeline.isProcessing x); [done|].
    by destruct (Pipeline.jobQueue x). }
  assert (Henq : forall x, Pipeline.enqueued (Pipeline.processQueue x)
                           = Pipeline.enqueued x).
  { intros x. unfold Pipeline.processQueue.
    destruct (Pipeline.isProcessing x); [done|].
    by destruct (Pipeline.jobQueue x). }
  split; [|split; [done|split; [done|split; [|split; [|split]]]]].
  - rewrite Hstore. cbn [Pipeline.store Pipeline.with_enqueued
                         Pipeline.with_queue Pipeline.with_bus
                         Pipeline.with_store].
    unfold node_at, updated_store. cbn [SessionStore.sessions].
    rewrite JsMap_get_set_eq. subst s'. cbn.
    apply (find_node_extended_new directionId node); [done|by rewrite Hdir].
  - rewrite Hbus. cbn [Pipeline.bus Pipeline.with_enqueued
                       Pipeline.with_queue Pipeline.with_bus].
    rewrite observed_emitted by done. by rewrite bus_eta.
  - by rewrite Henq.
  - intros Hp. unfold Pipeline.processQueue.
    cbn [Pipeline.isProcessing Pipeline.with_enqueued Pipeline.with_queue
         Pipeline.with_bus Pipeline.with_store].
    by rewrite Hp.
  - intros Hp Hq. unfold Pipeline.processQueue.
    cbn [Pipeline.isProcessing Pipeline.jobQueue Pipeline.with_enqueued
         Pipeline.with_queue Pipeline.with_bus Pipeline.with_store].
    rewrite Hp, Hq. done.
Qed.

Lemma enqueueGeneration_accepts_witness :
  exists w',
    Pipeline.enqueueGeneration [] "n-1" "j-1" "s-1" "dir-1" None
      MediaType.image (Num.of_Z 1) (Sample.world_of Sample.planned)
    = (Returned ("n-1", "j-1"), w') /\
    node_at "s-1" "n-1" (Pipeline.store w') = Some Sample.taken_node /\
    Pipeline.workers w' = [Sample.taken_job].
Proof.
  destruct (enqueueGeneration_accepts [] "n-1" "j-1" "s-1" "dir-1" None
              MediaType.image (Num.of_Z 1) (Sample.world_of Sample.planned)
              Sample.planned (Sample.direction "dir-1" []))
    as (w' & H1 & H2 & _ & _ & _ & _ & _ & H3); [reflexivity..|].
  exists w'. split; [exact H1|]. split; [exact H2|].
  destruct H3 as (_ & H3 & _); [reflexivity..|]. exact H3.
Defined.

(** X16: the generate route answers a request it cannot serve without
    touching anything but the lazy initialisation of the store: 400 when
    the request names no direction (before the store is even read), 404
    for an unknown session, 400 for a session without a salience profile
    or without directions, 404 for an unknown direction, and 404 when the
    parent node it names does not exist.  No node, event or job results. *)
Theorem POST_generate_rejects
    (persisted : list Session.t) (nodeId jobId sessionId : string)
    (request : Pipeline.GenerateRequest) (w : Pipeline.World) :
  let st := loaded persisted (Pipeline.store w) in
  let r := Pipeline.POST_generate persisted nodeId jobId sessionId request w in
  let error status message :=
    r.1 = Pipeline.mkResponse status (Pipeline.ErrorBody message None) /\
    Pipeline.store r.2 = st /\ Pipeline.bus r.2 = Pipeline.bus w /\
    queue_view r.2 = queue_view w in
  (Pipeline.truthy (Pipeline.req_directionId request) = false ->
   r = (Pipeline.mkResponse 400
          (Pipeline.ErrorBody "directionId is required" None), w)) /\
  (Pipeline.truthy (Pipeline.req_directionId request) = true ->
   (JsMap.get sessionId (SessionStore.sessions st) = None ->
    error 404 "Session not found") /\
   (forall session,
      JsMap.get sessionId (SessionStore.sessions st) = Some session ->
      (Session.salienceProfile session = None
       \/ Session.directions session = [] ->
       error 400 "Session must be analyzed before generation") /\
      (is_Some (Session.salienceProfile session) ->
       Session.directions session <> [] ->
       (SessionStore.find_direction
          (default "" (Pipeline.req_directionId request))
          (Session.directions session) = None ->
        error 404 "Direction not found") /\
       (forall direction,
          SessionStore.find_direction
            (default "" (Pipeline.req_directionId request))
            (Session.directions session) = Some direction ->
          Num.gtb
            (match Pipeline.req_depth request with
             | Some depth => depth
             | None =>
                 Num.add (Num.of_nat (length (Direction.nodes direction)))
                   (Num.of_Z 1)
             end) (Num.of_Z 5) = false ->
          Pipeline.truthy (Pipeline.req_parentNodeId request) = true ->
          SessionStore.find_node
            (default "" (Pipeline.req_parentNodeId request))
            (Session.directions session) = None ->
          error 404 "Parent node not found")))).
Proof.
  intros st r error.
  assert (Hinit : SessionStore.initialized st = true)
    by apply loaded_initialized.
  assert (Herror : forall status message,
            r = (Pipeline.mkResponse status
                   (Pipeline.ErrorBody message None),
                 Pipeline.with_store st w)
            \/ r = (Pipeline.mkResponse status
                      (Pipeline.ErrorBody message None),
                    Pipeline.with_store st (Pipeline.with_store st w)) ->
            error status message).
  { intros status message [Hr|Hr]; subst error; cbv beta; by rewrite Hr. }
  clearbody error. subst r. split.
  { intros Htruthy. unfold Pipeline.POST_generate. cbv beta zeta.
    by rewrite Htruthy. }
  intros Htruthy.
  assert (Hhead : forall session,
            JsMap.get sessionId (SessionStore.sessions st) = session ->
            forall k : option Session.t -> Pipeline.P Pipeline.Response,
              Pipeline.bind (Pipeline.store_get persisted sessionId) k w
              = k session (Pipeline.with_store st w)).
  { intros session Hs k. unfold Pipeline.bind.
    by rewrite store_get_spec, <- Hs. }
  split.
  { intros Hnone. apply Herror. left.
    unfold Pipeline.POST_generate. cbv beta zeta. rewrite Htruthy.
    cbn [negb]. by rewrite (Hhead None Hnone). }
  intros session Hget. split.
  { intros Hmissing. apply Herror. left.
    unfold Pipeline.POST_generate. cbv beta zeta. rewrite Htruthy.
    cbn [negb]. rewrite (Hhead _ Hget).
    assert (negb (bool_decide (is_Some (Session.salienceProfile session)))
            || (length (Session.directions session) =? 0)%nat = true) as ->.
    { destruct Hmissing as [->| ->]; [done|].
      apply orb_true_iff. by right. }
    done. }
  intros Hprofile Hdirs.
  assert (Hanalyzed :
            negb (bool_decide (is_Some (Session.salienceProfile session)))
            || (length (Session.directions session) =? 0)%nat = false).
  { rewrite bool_decide_eq_true_2 by done.
    by destruct (Session.directions session). }
  split.
  { intros Hdir. apply Herror. left.
    unfold Pipeline.POST_generate. cbv beta zeta. rewrite Htruthy.
    cbn [negb]. rewrite (Hhead _ Hget). by rewrite Hanalyzed, Hdir. }
  intros direction Hdir Hdepth Hparent Hnone. apply Herror. right.
  unfold Pipeline.POST_generate. cbv beta zeta. rewrite Htruthy.
  cbn [negb]. rewrite (Hhead _ Hget).
  rewrite Hanalyzed, Hdir, Hdepth, Hparent.
  unfold Pipeline.bind at 1. unfold Pipeline.bind at 1.
  rewrite store_getNode_spec.
  cbn [Pipeline.store Pipeline.with_store].
  rewrite loaded_id by done. fold st. by rewrite Hget, Hnone.
Qed.

(** ** The worker loop and the ['error'] listener *)

Section Listeners.
Variable persisted : list Session.t.

Lemma emit_listeners now sessionId t p b :
  Events.listeners (Events.emitSessionEvent now sessionId t p b).2
  = Events.listeners b.
Proof.
  unfold Events.emitSessionEvent, Events.emit.
  destruct (_ && _); [done|]. cbn [Events.listeners].
  by destruct (_ && _).
Qed.

Lemma error_events_emit now sessionId sessionId' t p b :
  Events.has_listener sessionId "error" b = false ->
  error_events sessionId (Events.emitSessionEvent now sessionId' t p b).2
  = error_events sessionId b.
Proof.
  intros Hno. unfold error_events.
  destruct (decide (t = Events.error)) as [->|Ht].
  - unfold Events.emitSessionEvent, Events.emit. cbn [Events.name].
    rewrite (bool_decide_eq_true_2 ("error" = "error")) by done.
    rewrite (bool_decide_eq_false_2 ("*" = "error")) by done.
    destruct (Events.has_listener sessionId' "error" b) eqn:Hl;
      cbn [andb negb snd]; [|done].
    assert (Hne : sessionId' <> sessionId) by congruence.
    destruct b as [ls es]. cbn [Events.listeners Events.emitted].
    rewrite !observed_app, !observed_pair.
    rewrite decide_False by (by intros [? _]).
    rewrite decide_False by (intros [_ ?]; cbn in *; congruence).
    by rewrite !app_nil_r.
  - assert (Hname : Events.name t <> "error") by (by destruct t).
    unfold Events.emitSessionEvent, Events.emit.
    rewrite (bool_decide_eq_false_2 (Events.name t = "error")) by done.
    rewrite (bool_decide_eq_false_2 ("*" = "error")) by done.
    cbn [andb snd]. destruct b as [ls es].
    cbn [Events.listeners Events.emitted].
    rewrite !observed_app, !observed_pair.
    rewrite decide_False by (intros [? _]; by destruct t).
    rewrite app_nil_r, filter_app.
    destruct (decide _); [|by rewrite app_nil_r].
    rewrite (filter_cons _ (Events.mkEvent _ _ _ _)), decide_False by done.
    by rewrite filter_nil, app_nil_r.
Qed.

Lemma quiet_emit sessionId ls es sessionId' t p :
  (sessionId, "error") ∉ ls ->
  keeps (quiet sessionId ls es) (Pipeline.emitSessionEvent sessionId' t p).
Proof.
  intros Hno w [Hls Hes]. unfold Pipeline.emitSessionEvent.
  pose proof (emit_listeners (Pipeline.now w) sessionId' t p (Pipeline.bus w))
    as Hl.
  pose proof (error_events_emit (Pipeline.now w) sessionId sessionId' t p
                (Pipeline.bus w)) as He.
  destruct (Events.emitSessionEvent _ _ _ _ _) as [r b']. cbn [snd] in *.
  split; cbn [Pipeline.bus Pipeline.with_bus]; [congruence|].
  rewrite He; [done|]. unfold Events.has_listener. rewrite Hls.
  by apply bool_decide_eq_false.
Qed.

Lemma quiet_store sessionId ls es A (m : Date -> SessionStore.St A) :
  keeps (quiet sessionId ls es) (Pipeline.store_call m).
Proof.
  intros w Hw. unfold Pipeline.store_call.
  by destruct (m (Pipeline.now w) (Pipeline.store w)).
Qed.

Lemma quiet_fire sessionId ls es t :
  (sessionId, "error") ∉ ls ->
  keeps (quiet sessionId ls es) (Pipeline.fire persisted t).
Proof.
  intros Hno. unfold Pipeline.fire.
  destruct (Num.ltb _ _); [|apply keeps_ret].
  apply keeps_bind; [by intros w Hw|intros _].
  apply keeps_bind; [apply quiet_store|intros _].
  by apply quiet_emit.
Qed.

Lemma quiet_processJob sessionId ls es env job :
  (sessionId, "error") ∉ ls ->
  keeps (quiet sessionId ls es) (Pipeline.processJob persisted env job).
Proof.
  intros Hno. apply keeps_processJob.
  - apply quiet_store.
  - intros. by apply quiet_emit.
  - by intros w Hw.
  - intros t w Hw _. by apply quiet_fire.
  - by intros ? ? ? ? ? w Hw.
  - by intros ? w Hw.
Qed.

Lemma listeners_emit ls sessionId t p :
  keeps (fun w => Events.listeners (Pipeline.bus w) = ls)
    (Pipeline.emitSessionEvent sessionId t p).
Proof.
  intros w Hw. unfold Pipeline.emitSessionEvent.
  pose proof (emit_listeners (Pipeline.now w) sessionId t p (Pipeline.bus w))
    as Hl.
  destruct (Events.emitSessionEvent _ _ _ _ _) as [r b']. cbn in *.
  congruence.
Qed.

Lemma listeners_store ls A (m : Date -> SessionStore.St A) :
  keeps (fun w => Events.listeners (Pipeline.bus w) = ls)
    (Pipeline.store_call m).
Proof.
  intros w Hw. unfold Pipeline.store_call.
  by destruct (m (Pipeline.now w) (Pipeline.store w)).
Qed.

Lemma listeners_processJob env job w :
  Events.listeners (Pipeline.bus (Pipeline.processJob persisted env job w).2)
  = Events.listeners (Pipeline.bus w).
Proof.
  apply (keeps_processJob persisted
           (fun w' => Events.listeners (Pipeline.bus w')
                      = Events.listeners (Pipeline.bus w))).
  - apply listeners_store.
  - apply listeners_emit.
  - by intros w' Hw'.
  - intros t w' Hw' _. revert w' Hw'.
    change (keeps (fun w' => Events.listeners (Pipeline.bus w')
                             = Events.listeners (Pipeline.bus w))
              (Pipeline.fire persisted t)).
    unfold Pipeline.fire. destruct (Num.ltb _ _); [|apply keeps_ret].
    apply keeps_bind; [by intros w' Hw'|intros _].
    apply keeps_bind; [apply listeners_store|intros _].
    apply listeners_emit.
  - by intros ? ? ? ? ? w' Hw'.
  - by intros ? w' Hw'.
  - done.
Qed.

End Listeners.

Section WorkerLoop.
Variable persisted : list Session.t.

(** A part of the world that no store call, emission or timer touches is
    left alone by a whole job. *)
Lemma frame_processJob {X} (f : Pipeline.World -> X) env job w :
  (forall st w', f (Pipeline.with_store st w') = f w') ->
  (forall b w', f (Pipeline.with_bus b w') = f w') ->
  (forall ts n w', f (Pipeline.with_tickers ts n w') = f w') ->
  (forall t w', f (Pipeline.with_clock t w') = f w') ->
  f (Pipeline.processJob persisted env job w).2 = f w.
Proof.
  intros Hstore Hbus Htickers Hclock.
  assert (Hs : forall A (m : Date -> SessionStore.St A),
            keeps (fun w' => f w' = f w) (Pipeline.store_call m)).
  { intros A m w' Hw'. unfold Pipeline.store_call.
    destruct (m (Pipeline.now w') (Pipeline.store w')). cbn.
    by rewrite Hstore. }
  assert (He : forall s t p,
            keeps (fun w' => f w' = f w) (Pipeline.emitSessionEvent s t p)).
  { intros s t p w' Hw'. unfold Pipeline.emitSessionEvent.
    destruct (Events.emitSessionEvent _ _ _ _ _). cbn. by rewrite Hbus. }
  apply (keeps_processJob persisted (fun w' => f w' = f w)); try done.
  - intros w' Hw'. by rewrite Hclock.
  - intros t w' Hw' _. revert w' Hw'.
    change (keeps (fun w' => f w' = f w) (Pipeline.fire persisted t)).
    unfold Pipeline.fire. destruct (Num.ltb _ _); [|apply keeps_ret].
    apply keeps_bind; [|intros _].
    { intros w' Hw'. cbn. by rewrite Htickers. }
    apply keeps_bind; [apply Hs|intros _]. apply He.
  - intros ? ? ? ? ? w' Hw'. cbn. by rewrite Htickers.
  - intros ? w' Hw'. cbn. by rewrite Htickers.
Qed.

Lemma error_throws now sessionId p b :
  Events.has_listener sessionId "error" b = false ->
  Events.emitSessionEvent now sessionId Events.error p b
  = (Thrown "Unhandled error.", b).
Proof.
  intros Hno. unfold Events.emitSessionEvent, Events.emit. cbn [Events.name].
  rewrite (bool_decide_eq_true_2 ("error" = "error")) by done.
  by rewrite Hno.
Qed.

Lemma error_returns now sessionId p b :
  Events.has_listener sessionId "error" b = true ->
  Events.emitSessionEvent now sessionId Events.error p b
  = (Returned tt,
     Events.mkBus (Events.listeners b)
       (Events.emitted b
        ++ [("error", Events.mkEvent Events.error sessionId now p);
            ("*", Events.mkEvent Events.error sessionId now p)])).
Proof.
  intros Hyes. unfold Events.emitSessionEvent, Events.emit.
  cbn [Events.name].
  rewrite (bool_decide_eq_true_2 ("error" = "error")) by done.
  rewrite (bool_decide_eq_false_2 ("*" = "error")) by done.
  rewrite Hyes. cbn. by rewrite <- app_assoc.
Qed.

(** A request that arrives while the flag [isProcessing] is set starts no
    worker loop. *)
Lemma enqueue_while_processing nodeId jobId sessionId directionId
    parentNodeId mediaType depth w :
  Pipeline.isProcessing w = true ->
  let w' := (Pipeline.enqueueGeneration persisted nodeId jobId sessionId
               directionId parentNodeId mediaType depth w).2 in
  Pipeline.workers w' = Pipeline.workers w /\
  Pipeline.isProcessing w' = true /\
  Pipeline.started w' = Pipeline.started w.
Proof.
  intros Hp w'.
  set (I := fun x => Pipeline.workers x = Pipeline.workers w /\
                     Pipeline.isProcessing x = true /\
                     Pipeline.started x = Pipeline.started w).
  assert (Hstore : forall A (m : Date -> SessionStore.St A),
            keeps I (Pipeline.store_call m)).
  { intros A m x Hx. unfold Pipeline.store_call.
    by destruct (m (Pipeline.now x) (Pipeline.store x)). }
  change (I w'). subst w'.
  apply (keeps_bind I); [apply Hstore| |done].
  intros [session|]; [|apply keeps_throw].
  destruct (SessionStore.find_direction _ _); [|apply keeps_throw].
  apply keeps_bind; [intros x Hx; by apply (Hstore _ _ x)|intros _].
  apply keeps_bind.
  { intros x Hx. unfold Pipeline.emitNodeCreated, Pipeline.emitSessionEvent.
    by destruct (Events.emitSessionEvent _ _ _ _ _). }
  intros _. apply keeps_bind; [by intros x Hx|intros _].
  apply keeps_bind; [|intros _; apply keeps_ret].
  intros x (Hx1 & Hx2 & Hx3). cbn [snd]. unfold Pipeline.processQueue.
  by rewrite Hx2.
Qed.

End WorkerLoop.

(** X17: a job fails and the emitter of its session has no listener for
    ['error'].  The worker loop then ends inside its [catch] block: the
    job is marked failed, but no ['error'] event reaches the stream, the
    queue is left as it was, and the flag [isProcessing] is not cleared;
    so with the flag set, no later call of [enqueueGeneration] starts a
    loop again. *)
Theorem failed_job_ends_loop
    (persisted : list Session.t) (env : Pipeline.JobEnv) (i : nat)
    (w w1 : Pipeline.World) (job : GenerationJob.t) (message : string) :
  Pipeline.workers w !! i = Some job ->
  Pipeline.processJob persisted env job w = (Thrown message, w1) ->
  Events.has_listener (GenerationJob.sessionId job) "error" (Pipeline.bus w)
    = false ->
  let w' := Pipeline.worker_step persisted env i w in
  Pipeline.workers w' = base.delete i (Pipeline.workers w) /\
  Pipeline.isProcessing w' = Pipeline.isProcessing w /\
  Pipeline.jobQueue w' = Pipeline.jobQueue w /\
  Pipeline.started w' = Pipeline.started w /\
  Pipeline.finished w'
  = Pipeline.finished w
    ++ [GenerationJob.with_status JobStatus.failed (Some message) job] /\
  error_events (GenerationJob.sessionId job) (Pipeline.bus w')
  = error_events (GenerationJob.sessionId job) (Pipeline.bus w) /\
  (Pipeline.isProcessing w = true ->
   forall nodeId jobId sessionId directionId parentNodeId mediaType depth,
     let w'' := (Pipeline.enqueueGeneration persisted nodeId jobId sessionId
                   directionId parentNodeId mediaType depth w').2 in
     Pipeline.workers w'' = Pipeline.workers w' /\
     Pipeline.isProcessing w'' = true).
Proof.
  intros Hi Hjob Hno w'.
  pose proof (frame_processJob persisted
                (fun x => (queue_view x, Pipeline.finished x)) env job w)
    as Hframe.
  rewrite Hjob in Hframe. cbn [snd] in Hframe.
  specialize (Hframe (fun _ _ => eq_refl) (fun _ _ => eq_refl)
                (fun _ _ _ => eq_refl) (fun _ _ => eq_refl)).
  injection Hframe as Hq Hpr Hws Henq Hst Hfin.
  pose proof (listeners_processJob persisted env job w) as Hls.
  rewrite Hjob in Hls. cbn [snd] in Hls.
  assert (Hnot : (GenerationJob.sessionId job, "error")
                 ∉ Events.listeners (Pipeline.bus w)).
  { unfold Events.has_listener in Hno. by apply bool_decide_eq_false in Hno. }
  pose proof (quiet_processJob persisted (GenerationJob.sessionId job)
                (Events.listeners (Pipeline.bus w))
                (error_events (GenerationJob.sessionId job) (Pipeline.bus w))
                env job Hnot w (conj eq_refl eq_refl)) as [_ Hev].
  rewrite Hjob in Hev. cbn [snd] in Hev.
  assert (Hw' : w' = Pipeline.with_queue (Pipeline.jobQueue w)
                       (Pipeline.isProcessing w)
                       (base.delete i (Pipeline.workers w))
                       (Pipeline.with_store
                          (SessionStore.updateNode persisted (Pipeline.now w1)
                             (GenerationJob.sessionId job)
                             (GenerationJob.nodeId job)
                             (Pipeline.error_patch message)
                             (Pipeline.store w1)).2
                          (Pipeline.with_finished
                             (Pipeline.finished w
                              ++ [GenerationJob.with_status JobStatus.failed
                                    (Some message) job]) w1))).
  { subst w'. unfold Pipeline.worker_step. rewrite Hi, Hjob.
    cbn [GenerationJob.sessionId GenerationJob.nodeId
         GenerationJob.with_status].
    unfold Pipeline.bind. rewrite store_updateNode_spec.
    unfold Pipeline.emitError, Pipeline.emitSessionEvent.
    cbn [Pipeline.bus Pipeline.with_store Pipeline.with_finished].
    rewrite error_throws.
    2:{ unfold Events.has_listener in *. by rewrite Hls. }
    cbn [Pipeline.jobQueue Pipeline.isProcessing Pipeline.workers
         Pipeline.with_bus Pipeline.with_store Pipeline.with_finished
         Pipeline.store Pipeline.now Pipeline.clock].
    rewrite Hq, Hpr, Hws, Hfin. by destruct w1. }
  split; [by rewrite Hw'|]. split; [by rewrite Hw'|].
  split; [by rewrite Hw'|]. split; [by rewrite Hw'|].
  split; [by rewrite Hw'|]. split; [by rewrite Hw'|].
  intros Hp nodeId jobId sessionId directionId parentNodeId mediaType depth.
  assert (Hp' : Pipeline.isProcessing w' = true) by (by rewrite Hw').
  destruct (enqueue_while_processing persisted nodeId jobId sessionId
              directionId parentNodeId mediaType depth w' Hp')
    as (H1 & H2 & _).
  by split.
Qed.

Lemma failed_job_ends_loop_witness :
  let w' := Pipeline.worker_step [] Sample.needs_revision 0
              Sample.two_enqueued in
  Pipeline.workers w' = [] /\ Pipeline.isProcessing w' = true /\
  map GenerationJob.id (Pipeline.jobQueue w') = ["j-2"].
Proof.
  intros w'.
  destruct (failed_job_ends_loop [] Sample.needs_revision 0
              Sample.two_enqueued
              (Pipeline.processJob [] Sample.needs_revision Sample.taken_job
                 Sample.two_enqueued).2
              Sample.taken_job
              "Prompt composition failed: subject unclear; no style")
    as (H1 & H2 & H3 & _).
  - reflexivity.
  - vm_compute. reflexivity.
  - reflexivity.
  - subst w'. rewrite H1, H2, H3. repeat split; reflexivity.
Defined.

Lemma take_next_spec i w : next_taken i w (Pipeline.take_next i w).
Proof.
  unfold next_taken, Pipeline.take_next.
  by destruct (Pipeline.jobQueue w).
Qed.

Lemma next_taken_view i w1 w2 w' :
  queue_view w2 = queue_view w1 -> next_taken i w2 w' -> next_taken i w1 w'.
Proof.
  unfold queue_view, next_taken. intros [= Hq Hp Hw He Hs].
  by rewrite Hq, Hp, Hw, Hs.
Qed.

(** X18: a job that returns, or that fails while the emitter of its
    session has a listener for ['error'], lets the worker loop go on: the
    job leaves the loop as completed or failed, the loop takes the next
    job of the queue, or ends and clears the flag when the queue is empty,
    and for a failed job the stream's observer receives one ['error'] event
    with the node and the message. *)
Theorem finished_job_takes_next
    (persisted : list Session.t) (env : Pipeline.JobEnv) (i : nat)
    (w : Pipeline.World) (job : GenerationJob.t) :
  Pipeline.workers w !! i = Some job ->
  let r := Pipeline.processJob persisted env job w in
  let w' := Pipeline.worker_step persisted env i w in
  match r.1 with
  | Returned _ => True
  | Thrown _ =>
      Events.has_listener (GenerationJob.sessionId job) "error"
        (Pipeline.bus w) = true
  end ->
  next_taken i w w' /\
  match r.1 with
  | Returned _ =>
      Pipeline.finished w'
      = Pipeline.finished w
        ++ [GenerationJob.with_status JobStatus.completed
              (GenerationJob.error job) job] /\
      Pipeline.bus w' = Pipeline.bus r.2
  | Thrown message =>
      Pipeline.finished w'
      = Pipeline.finished w
        ++ [GenerationJob.with_status JobStatus.failed (Some message) job] /\
      exists now,
        Events.observed (GenerationJob.sessionId job) (Pipeline.bus w')
        = Events.observed (GenerationJob.sessionId job) (Pipeline.bus r.2)
          ++ [Events.mkEvent Events.error (GenerationJob.sessionId job) now
                (Events.Error (Some (GenerationJob.nodeId job)) message)]
  end.
Proof.
  intros Hi r w' Hout.
  pose proof (frame_processJob persisted
                (fun x => (queue_view x, Pipeline.finished x)) env job w
                (fun _ _ => eq_refl) (fun _ _ => eq_refl)
                (fun _ _ _ => eq_refl) (fun _ _ => eq_refl)) as Hframe.
  pose proof (listeners_processJob persisted env job w) as Hls.
  fold r in Hframe, Hls. subst w'. unfold Pipeline.worker_step.
  rewrite Hi. fold r. destruct r as [[[]|message] w1]; cbn [fst snd] in *.
  - injection Hframe as Hq Hp Hw He Hs Hfin.
    split; [|split].
    + apply (next_taken_view i w
               (Pipeline.with_finished
                  (Pipeline.finished w1
                   ++ [GenerationJob.with_status JobStatus.completed
                         (GenerationJob.error job) job]) w1)).
      * unfold queue_view. cbn. by rewrite Hq, Hp, Hw, He, Hs.
      * apply take_next_spec.
    + unfold Pipeline.take_next. cbn [Pipeline.jobQueue Pipeline.with_finished].
      rewrite <- Hfin. by destruct (Pipeline.jobQueue w1).
    + unfold Pipeline.take_next. cbn [Pipeline.jobQueue Pipeline.with_finished].
      by destruct (Pipeline.jobQueue w1).
  - injection Hframe as Hq Hp Hw He Hs Hfin.
    cbn [GenerationJob.sessionId GenerationJob.nodeId
         GenerationJob.with_status].
    unfold Pipeline.bind. rewrite store_updateNode_spec.
    unfold Pipeline.emitError, Pipeline.emitSessionEvent.
    cbn [Pipeline.bus Pipeline.with_store Pipeline.with_finished].
    rewrite error_returns.
    2:{ unfold Events.has_listener in *. by rewrite Hls. }
    set (w2 := Pipeline.with_bus _ _).
    assert (Hv : queue_view w2 = queue_view w).
    { unfold queue_view. subst w2. cbn. by rewrite Hq, Hp, Hw, He, Hs. }
    split; [|split].
    + apply (next_taken_view i w w2); [done|apply take_next_spec].
    + unfold Pipeline.take_next. subst w2.
      cbn [Pipeline.jobQueue Pipeline.with_finished Pipeline.with_bus
           Pipeline.with_store].
      rewrite <- Hfin. by destruct (Pipeline.jobQueue w1).
    + eexists.
      assert (Hbus : Pipeline.bus (Pipeline.take_next i w2) = Pipeline.bus w2).
      { unfold Pipeline.take_next. by destruct (Pipeline.jobQueue w2). }
      rewrite Hbus. subst w2. cbn [Pipeline.bus Pipeline.with_bus].
      rewrite (observed_emitted _ _ _ Events.error) by done.
      by rewrite bus_eta.
Qed.

Lemma finished_job_takes_next_witness :
  let w' := Pipeline.worker_step [] Sample.image_succeeds 0
              Sample.two_enqueued in
  map GenerationJob.id (Pipeline.workers w') = ["j-2"] /\
  Pipeline.jobQueue w' = [].
Proof.
  intros w'.
  destruct (finished_job_takes_next [] Sample.image_succeeds 0
              Sample.two_enqueued Sample.taken_job) as [H _].
  - reflexivity.
  - vm_compute. exact I.
  - subst w'. unfold next_taken in H.
    let q := eval vm_compute in (Pipeline.jobQueue Sample.two_enqueued) in
    change (Pipeline.jobQueue Sample.two_enqueued) with q in H.
    destruct H as (H1 & _ & H2 & _). rewrite H1, H2. split; reflexivity.
Defined.

(** ** Tickers that are started are stopped *)

Section TickerHandles.
Variable persisted : list Session.t.
Variable hs : list nat.

Lemma running_store A (m : Date -> SessionStore.St A) :
  keeps (running hs) (Pipeline.store_call m).
Proof.
  intros w Hw. unfold Pipeline.store_call.
  by destruct (m (Pipeline.now w) (Pipeline.store w)).
Qed.

Lemma running_emit sessionId t p :
  keeps (running hs) (Pipeline.emitSessionEvent sessionId t p).
Proof.
  intros w Hw. unfold Pipeline.emitSessionEvent.
  by destruct (Events.emitSessionEvent _ _ _ _ _).
Qed.

Lemma running_fire t : keeps (running hs) (Pipeline.fire persisted t).
Proof.
  unfold Pipeline.fire. destruct (Num.ltb _ _); [|apply keeps_ret].
  apply keeps_bind; [|intros _].
  { intros w Hw. unfold running, handles in *. cbn.
    by rewrite set_ticker_handles. }
  apply keeps_bind; [apply running_store|intros _]. apply running_emit.
Qed.

Lemma running_await {A} (c : Pipeline.call A) :
  keeps (running hs) (Pipeline.await persisted c).
Proof.
  apply keeps_await; [by intros w Hw|].
  intros t w Hw _. by apply running_fire.
Qed.

Lemma running_poll env sessionId nodeId directionId remaining attempts :
  keeps (running hs)
    (Pipeline.poll persisted env sessionId nodeId directionId remaining
       attempts).
Proof.
  apply keeps_poll; [apply running_emit|by intros w Hw|].
  intros t w Hw _. by apply running_fire.
Qed.

End TickerHandles.

Section TickerStops.
Variable persisted : list Session.t.
Variable hs : list nat.
Variable h : nat.
Hypothesis fresh : h ∉ hs.

Lemma stop_running w :
  running (hs ++ [h]) w \/ running hs w ->
  running hs (Pipeline.stop h w).2.
Proof.
  unfold running, handles. rewrite stop_spec. cbn.
  assert (Hmap : forall ts,
            map Pipeline.handle
              (filter (fun t => Pipeline.handle t <> h) ts)
            = filter (fun x => x <> h) (map Pipeline.handle ts)).
  { induction ts as [|t ts IH]; [done|]. rewrite filter_cons.
    cbn [map]. rewrite filter_cons.
    destruct (decide (Pipeline.handle t <> h)); cbn [map]; by rewrite IH. }
  assert (Hhs : filter (fun x => x <> h) hs = hs).
  { clear -fresh. induction hs as [|x l IH]; [done|].
    apply not_elem_of_cons in fresh as [Hx Hl]. rewrite filter_cons.
    rewrite decide_True by done. by rewrite IH. }
  rewrite Hmap. intros [-> | ->]; [|done].
  rewrite filter_app, Hhs, filter_cons.
  rewrite decide_False by (by intros ?). by rewrite filter_nil, app_nil_r.
Qed.

(** The [try] block and the [catch] block of [generateImage], with the
    ticker [h] running at the start. *)
Lemma generateImage_body_stops env sessionId nodeId directionId
    (pkg : GatedPackage.t) :
  hoare (running (hs ++ [h]))
    (Pipeline.try_catch
       (Pipeline.bind (Pipeline.await persisted (Pipeline.image_mkdir env))
          (fun _ =>
             Pipeline.bind
               (Pipeline.emitProgress sessionId nodeId directionId
                  (Num.of_Z 50) Events.generating "Creating image...")
               (fun _ =>
                  Pipeline.bind
                    (Pipeline.await persisted (Pipeline.image_generate env))
                    (fun response =>
                       Pipeline.bind (Pipeline.stop h)
                         (fun _ =>
                            Pipeline.bind
                              (Pipeline.emitProgress sessionId nodeId
                                 directionId (Num.of_Z 85) Events.saving
                                 "Saving image...")
                              (fun _ =>
                                 match response with
                                 | None | Some [] =>
                                     Pipeline.throw
                                       "No image data returned from API"
                                 | Some (b64_json :: _) =>
                                     if negb (Pipeline.truthy b64_json)
                                     then Pipeline.throw
                                            "No base64 image data returned from API"
                                     else
                                       Pipeline.bind
                                         (Pipeline.await persisted
                                            (Pipeline.image_writeFile env))
                                         (fun _ =>
                                            Pipeline.ret
                                              ("/uploads/generated/"
                                               +:+ sessionId +:+ "/"
                                               +:+ nodeId +:+ ".png"))
                                 end))))))
       (fun message =>
          Pipeline.bind (Pipeline.stop h)
            (fun _ =>
               Pipeline.throw ("Image generation failed: " +:+ message))))
    (fun _ => running hs) (running hs).
Proof.
  set (A := running (hs ++ [h])). set (J := running hs).
  apply (hoare_try_catch _ _ _ (fun w => A w \/ J w)).
  - apply (hoare_bind _ _ (fun _ => A)).
    { apply hoare_keeps; [apply running_await|done|by left]. }
    intros _. apply (hoare_bind _ _ (fun _ => A)).
    { apply hoare_keeps; [apply running_emit|done|by left]. }
    intros _. apply (hoare_bind _ _ (fun _ => A)).
    { apply hoare_keeps; [apply running_await|done|by left]. }
    intros response. apply (hoare_bind _ _ (fun _ => J)).
    { intros w Hw. rewrite stop_spec.
      pose proof (stop_running w (or_introl Hw)) as H.
      by rewrite stop_spec in H. }
    intros _. apply (hoare_bind _ _ (fun _ => J)).
    { apply hoare_keeps; [apply running_emit|done|by right]. }
    intros _. destruct response as [[|b64 ?]|];
      try (apply hoare_throw; by right).
    destruct (negb _); [apply hoare_throw; by right|].
    apply (hoare_bind _ _ (fun _ => J)).
    { apply hoare_keeps; [apply running_await|done|by right]. }
    intros _. by apply hoare_ret.
  - intros e. apply (hoare_bind _ _ (fun _ => J)).
    { intros w Hw. rewrite stop_spec.
      pose proof (stop_running w Hw) as H. by rewrite stop_spec in H. }
    intros _. by apply hoare_throw.
Qed.

End TickerStops.

(** X19: [generateImage] never leaves its ticker running: whether it
    returns or throws, and whatever the external calls do, the interval
    timers running afterwards are exactly those that ran before. *)
Theorem generateImage_stops_ticker
    (persisted : list Session.t) (env : Pipeline.JobEnv)
    (sessionId nodeId directionId : string) (pkg : GatedPackage.t)
    (w : Pipeline.World) :
  Forall (fun h => (h < Pipeline.nextHandle w)%nat) (handles w) ->
  handles (Pipeline.generateImage persisted env sessionId nodeId directionId
             pkg w).2
  = handles w.
Proof.
  intros Hlt. unfold Pipeline.generateImage, Pipeline.bind at 1.
  rewrite start_spec. set (w1 := Pipeline.with_tickers _ _ _).
  assert (Hfresh : Pipeline.nextHandle w ∉ handles w).
  { intros Hin. apply (proj1 (Forall_forall _ _) Hlt) in Hin. lia. }
  assert (Hw1 : running (handles w ++ [Pipeline.nextHandle w]) w1).
  { unfold running, handles. subst w1. cbn. by rewrite map_app. }
  pose proof (generateImage_body_stops persisted (handles w)
                (Pipeline.nextHandle w) Hfresh env sessionId nodeId
                directionId pkg w1 Hw1) as H.
  by destruct (Pipeline.try_catch _ _ w1) as [[url|message] w2].
Qed.

Lemma generateImage_stops_ticker_witness :
  handles (Pipeline.generateImage [] Sample.image_succeeds "s-1" "n-1"
             "dir-1" Sample.gated Sample.one_enqueued).2 = [].
Proof.
  apply (generateImage_stops_ticker [] Sample.image_succeeds "s-1" "n-1"
           "dir-1" Sample.gated Sample.one_enqueued).
  constructor.
Defined.

(** X20: [generateVideo] stops its ticker whenever the API key is
    configured, whether it returns or throws.  Without a key it throws
    before its [try] block, and the ticker it has just started for the node
    keeps running: one more interval timer than before, from 40 towards
    90. *)
Theorem generateVideo_ticker
    (persisted : list Session.t) (env : Pipeline.JobEnv)
    (sessionId nodeId directionId : string) (pkg : GatedPackage.t)
    (w : Pipeline.World) :
  Forall (fun h => (h < Pipeline.nextHandle w)%nat) (handles w) ->
  let r := Pipeline.generateVideo persisted env sessionId nodeId directionId
             pkg w in
  (Pipeline.truthy (Pipeline.OPENAI_API_KEY env) = true ->
   handles r.2 = handles w) /\
  (Pipeline.truthy (Pipeline.OPENAI_API_KEY env) = false ->
   r = (Thrown "OPENAI_API_KEY is not configured",
        Pipeline.with_tickers
          (Pipeline.tickers w
           ++ [Pipeline.mkTicker (Pipeline.nextHandle w) sessionId nodeId
                 directionId (Num.of_Z 40) (Num.of_Z 90) (Num.of_Z 1)])
          (S (Pipeline.nextHandle w)) w)).
Proof.
  intros Hlt r. subst r. unfold Pipeline.generateVideo.
  assert (Hfresh : Pipeline.nextHandle w ∉ handles w).
  { intros Hin. apply (proj1 (Forall_forall _ _) Hlt) in Hin. lia. }
  split; intros Hkey; unfold Pipeline.bind at 1; rewrite start_spec, Hkey;
    cbn [negb]; [|done].
  set (w1 := Pipeline.with_tickers _ _ _).
  set (h := Pipeline.nextHandle w) in *.
  set (A := running (handles w ++ [h])). set (J := running (handles w)).
  assert (Hw1 : A w1).
  { unfold A, running, handles. subst w1. cbn. by rewrite map_app. }
  assert (Hstop : forall x, A x \/ J x -> J (Pipeline.stop h x).2)
    by (intros x; by apply stop_running).
  match goal with
  | |- context [Pipeline.try_catch ?m ?k w1] =>
      assert (H : hoare A (Pipeline.try_catch m k) (fun _ => J) J)
  end.
  { apply (hoare_try_catch _ _ _ (fun x => A x \/ J x)).
    - apply (hoare_bind _ _ (fun _ => A)).
      { apply hoare_keeps; [apply running_await|done|by left]. }
      intros _. apply (hoare_bind _ _ (fun _ => A)).
      { apply hoare_keeps; [apply running_emit|done|by left]. }
      intros _. apply (hoare_bind _ _ (fun _ => A)).
      { apply hoare_keeps; [apply running_await|done|by left]. }
      intros createResponse. apply (hoare_bind _ _ (fun _ => A)).
      { destruct (negb _); [apply hoare_throw; by left|by apply hoare_ret]. }
      intros _. apply (hoare_bind _ _ (fun _ => A)).
      { apply hoare_of_outcome; [done|by left]. }
      intros jobId. apply (hoare_bind _ _ (fun _ => A)).
      { apply hoare_keeps; [apply running_emit|done|by left]. }
      intros _. apply (hoare_bind _ _ (fun _ => A)).
      { apply hoare_keeps; [apply running_poll|done|by left]. }
      intros [url|]; [|apply hoare_throw; by left].
      apply (hoare_bind _ _ (fun _ => J)).
      { intros x Hx. rewrite stop_spec.
        pose proof (Hstop x (or_introl Hx)) as H. by rewrite stop_spec in H. }
      intros _. apply (hoare_bind _ _ (fun _ => J)).
      { apply hoare_keeps; [apply running_emit|done|by right]. }
      intros _. apply (hoare_bind _ _ (fun _ => J)).
      { apply hoare_keeps; [apply running_await|done|by right]. }
      intros videoResponse.
      destruct (negb _); [apply hoare_throw; by right|].
      apply (hoare_bind _ _ (fun _ => J)).
      { apply hoare_of_outcome; [done|by right]. }
      intros _. apply (hoare_bind _ _ (fun _ => J)).
      { apply hoare_keeps; [apply running_await|done|by right]. }
      intros _. by apply hoare_ret.
    - intros e. apply (hoare_bind _ _ (fun _ => J)).
      { intros x Hx. rewrite stop_spec.
        pose proof (Hstop x Hx) as H. by rewrite stop_spec in H. }
      intros _. by apply hoare_throw. }
  specialize (H w1 Hw1).
  by destruct (Pipeline.try_catch _ _ w1) as [[url|message] w2].
Qed.

Lemma generateVideo_ticker_witness :
  handles (Pipeline.generateVideo [] Sample.image_succeeds "s-1" "n-1"
             "dir-1" Sample.gated Sample.one_enqueued).2 = [0%nat].
Proof.
  destruct (generateVideo_ticker [] Sample.image_succeeds "s-1" "n-1"
              "dir-1" Sample.gated Sample.one_enqueued) as [_ H].
  - constructor.
  - rewrite H; reflexivity.
Defined.

(** ** The outcome of a job *)

Section JobOutcome.
Variable persisted : list Session.t.
Variables (sessionId nodeId : string).

Local Abbreviation here := (present sessionId nodeId).

Lemma present_store_get s : keeps here (Pipeline.store_get persisted s).
Proof.
  intros w [Hinit Hn]. rewrite store_get_spec. cbn [snd].
  unfold present. cbn [Pipeline.store Pipeline.with_store].
  by rewrite loaded_id.
Qed.

Lemma present_getNode s n : keeps here (Pipeline.store_getNode persisted s n).
Proof.
  intros w [Hinit Hn]. rewrite store_getNode_spec. cbn [snd].
  unfold present. cbn [Pipeline.store Pipeline.with_store].
  by rewrite loaded_id.
Qed.

Lemma present_updateNode s n u :
  NodePatch.id u = None ->
  keeps here (Pipeline.store_updateNode persisted s n u).
Proof.
  intros Hid w [Hinit [n1 Hn1]]. rewrite store_updateNode_spec. cbn [snd].
  unfold present. cbn [Pipeline.store Pipeline.with_store].
  destruct (node_at_updateNode persisted (Pipeline.now w) s n u
              (Pipeline.store w) sessionId nodeId n1 Hinit Hid Hn1)
    as [-> ->].
  split; [done|by eexists].
Qed.

Lemma present_emit s t p : keeps here (Pipeline.emitSessionEvent s t p).
Proof.
  intros w Hw. unfold Pipeline.emitSessionEvent.
  by destruct (Events.emitSessionEvent _ _ _ _ _).
Qed.

Lemma present_fire t : keeps here (Pipeline.fire persisted t).
Proof.
  unfold Pipeline.fire. destruct (Num.ltb _ _); [|apply keeps_ret].
  apply keeps_bind; [by intros w Hw|intros _].
  apply keeps_bind; [by apply present_updateNode|intros _].
  apply present_emit.
Qed.

Lemma present_await {A} (c : Pipeline.call A) :
  keeps here (Pipeline.await persisted c).
Proof.
  apply keeps_await; [by intros w Hw|]. intros t w Hw _.
  by apply present_fire.
Qed.

Lemma present_generate env directionId pkg m :
  keeps here
    (match m with
     | MediaType.image =>
         Pipeline.generateImage persisted env sessionId nodeId directionId pkg
     | MediaType.video =>
         Pipeline.generateVideo persisted env sessionId nodeId directionId pkg
     end).
Proof.
  destruct m; [apply keeps_generateImage|apply keeps_generateVideo];
    try (by intros; apply present_emit);
    try (by intros w Hw);
    try (by intros t w Hw _; apply present_fire);
    try (by intros ? ? ? ? ? w Hw);
    by intros ? w Hw.
Qed.

Lemma hoare_true {A} (m : Pipeline.P A) :
  hoare (fun _ => True) m (fun _ _ => True) (fun _ => True).
Proof. intros w _. by destruct (m w) as [[?|?] ?]. Qed.

Lemma hoare_and {A} (P1 P2 : Pipeline.World -> Prop) (m : Pipeline.P A)
    (Q1 Q2 : A -> Pipeline.World -> Prop) (E1 E2 : Pipeline.World -> Prop) :
  hoare P1 m Q1 E1 -> hoare P2 m Q2 E2 ->
  hoare (fun w => P1 w /\ P2 w) m (fun a w => Q1 a w /\ Q2 a w)
    (fun w => E1 w /\ E2 w).
Proof.
  intros H1 H2 w [Hw1 Hw2]. specialize (H1 w Hw1). specialize (H2 w Hw2).
  by destruct (m w) as [[?|?] ?].
Qed.

Ltac any := apply (hoare_bind _ _ (fun _ _ => True));
            [apply hoare_true|intros ?].

(** The URL that a generator returns. *)
Lemma generate_url env directionId pkg m :
  hoare (fun _ => True)
    (match m with
     | MediaType.image =>
         Pipeline.generateImage persisted env sessionId nodeId directionId pkg
     | MediaType.video =>
         Pipeline.generateVideo persisted env sessionId nodeId directionId pkg
     end)
    (fun url _ => url = output_path sessionId nodeId m) (fun _ => True).
Proof.
  destruct m.
  - unfold Pipeline.generateImage. any.
    apply (hoare_try_catch _ _ _ (fun _ => True)).
    + any. any. any. any. any.
      match goal with |- context [match ?r with _ => _ end] =>
        destruct r as [[|b64 ?]|] end; try by apply hoare_throw.
      destruct (negb _); [by apply hoare_throw|]. any. by apply hoare_ret.
    + intros e. any. by apply hoare_throw.
  - unfold Pipeline.generateVideo. any.
    destruct (negb _); [by apply hoare_throw|].
    apply (hoare_try_catch _ _ _ (fun _ => True)).
    + any. any. any. any. any. any.
      apply (hoare_bind _ _ (fun _ _ => True)); [apply hoare_true|].
      intros [url|]; [|by apply hoare_throw]. any. any.
      apply (hoare_bind _ _ (fun _ _ => True)); [apply hoare_true|].
      intros videoResponse. destruct (negb _); [by apply hoare_throw|].
      any. any. by apply hoare_ret.
    + intros e. any. by apply hoare_throw.
Qed.

Ltac stay lemma :=
  apply (hoare_bind _ _ (fun _ => here));
  [apply hoare_keeps; [by apply lemma|done|done]|intros ?].

Lemma processJob_outcome env job :
  GenerationJob.sessionId job = sessionId ->
  GenerationJob.nodeId job = nodeId ->
  hoare here (Pipeline.processJob persisted env job)
    (fun _ w =>
       completed sessionId nodeId
         (output_path sessionId nodeId (GenerationJob.mediaType job)) w /\
       announced sessionId nodeId (GenerationJob.directionId job)
         (output_path sessionId nodeId (GenerationJob.mediaType job)) w)
    here.
Proof.
  intros Hs Hn. unfold Pipeline.processJob. rewrite Hs, Hn.
  apply (hoare_bind _ _ (fun _ => here)).
  { apply hoare_keeps; [apply present_store_get|done|done]. }
  intros [session|]; [|by apply hoare_throw].
  destruct (SessionStore.find_direction _ _); [|by apply hoare_throw].
  stay (present_updateNode sessionId nodeId Pipeline.generating_patch).
  stay present_emit.
  apply (hoare_bind _ _ (fun _ => here)).
  { destruct (GenerationJob.parentNodeId job) as [parent|];
      [|by apply hoare_ret].
    destruct (Pipeline.truthy _); [|by apply hoare_ret].
    apply hoare_keeps; [apply present_getNode|done|done]. }
  intros parentNode. stay present_emit.
  apply (hoare_bind _ _ (fun _ => here)).
  { apply hoare_keeps; [apply present_await|done|done]. }
  intros promptPackage.
  destruct (PromptPackage.needsRevision promptPackage);
    [by apply hoare_throw|].
  stay present_emit.
  apply (hoare_bind _ _ (fun _ => here)).
  { apply hoare_keeps; [apply present_await|done|done]. }
  intros gatedPackage. destruct (negb _); [by apply hoare_throw|].
  stay (present_updateNode sessionId nodeId
          (Pipeline.prompt_patch gatedPackage)).
  stay present_emit.
  apply (hoare_bind _ _
           (fun url w =>
              here w /\
              url = output_path sessionId nodeId
                      (GenerationJob.mediaType job))).
  { intros w Hw.
    pose proof (present_generate env (GenerationJob.directionId job)
                  gatedPackage (GenerationJob.mediaType job) w Hw) as H1.
    pose proof (generate_url env (GenerationJob.directionId job)
                  gatedPackage (GenerationJob.mediaType job) w I) as H2.
    destruct (GenerationJob.mediaType job);
      match goal with |- context [?m w] =>
        destruct (m w) as [[url|e] w2] end; cbn [snd] in *;
      cbv beta iota in *; first [by split|done]. }
  intros outputUrl.
  apply (hoare_bind _ _
           (fun _ w =>
              here w /\
              outputUrl = output_path sessionId nodeId
                            (GenerationJob.mediaType job))).
  { intros w [Hw Hurl].
    pose proof (present_emit sessionId Events.generation_progress
                  (Events.Progress nodeId (GenerationJob.directionId job)
                     (Num.of_Z 95) Events.saving "Saving...") w Hw) as H.
    unfold Pipeline.emitProgress.
    rewrite emitSessionEvent_returns in H |- * by done. by split. }
  intros _.
  apply (hoare_bind _ _
           (fun _ w =>
              completed sessionId nodeId
                (output_path sessionId nodeId (GenerationJob.mediaType job))
                w /\
              outputUrl = output_path sessionId nodeId
                            (GenerationJob.mediaType job))).
  { intros w [[Hinit [n1 Hn1]] ->]. rewrite store_updateNode_spec.
    split; [|done].
    unfold completed. cbn [Pipeline.store Pipeline.with_store].
    destruct (node_at_updateNode persisted (Pipeline.now w) sessionId nodeId
                (Pipeline.complete_patch
                   (output_path sessionId nodeId
                      (GenerationJob.mediaType job)) (Pipeline.now w))
                (Pipeline.store w) sessionId nodeId n1 Hinit eq_refl Hn1)
      as [Hnode _].
    rewrite decide_True in Hnode by done.
    eexists _, (Pipeline.now w). split; [exact Hnode|]. done. }
  intros _ w [Hdone ->]. unfold Pipeline.emitComplete.
  rewrite emitSessionEvent_returns by done. split.
  - exact Hdone.
  - unfold announced. cbn [Pipeline.bus Pipeline.with_bus].
    eexists _, _, _.
    rewrite (observed_emitted _ _ _ Events.generation_complete) by done.
    reflexivity.
Qed.

End JobOutcome.

(** X21: a job whose node is in the store and whose [processJob] call
    returns leaves the node complete, with progress 100, a completion time,
    and as output and thumbnail the public URL of the file the generator
    saved ([.png] for an image, [.mp4] for a video); the last event on the
    stream is [generation_complete] with that URL. *)
Theorem processJob_success
    (persisted : list Session.t) (env : Pipeline.JobEnv)
    (job : GenerationJob.t) (w w' : Pipeline.World) :
  let sessionId := GenerationJob.sessionId job in
  let nodeId := GenerationJob.nodeId job in
  let url := output_path sessionId nodeId (GenerationJob.mediaType job) in
  present sessionId nodeId w ->
  Pipeline.processJob persisted env job w = (Returned tt, w') ->
  completed sessionId nodeId url w' /\
  announced sessionId nodeId (GenerationJob.directionId job) url w'.
Proof.
  intros sessionId nodeId url Hw Hjob.
  pose proof (processJob_outcome persisted sessionId nodeId env job
                eq_refl eq_refl w Hw) as H.
  by rewrite Hjob in H.
Qed.

Lemma processJob_success_witness :
  completed "s-1" "n-1" "/uploads/generated/s-1/n-1.png"
    (Pipeline.processJob [] Sample.image_succeeds Sample.taken_job
       Sample.one_enqueued).2.
Proof.
  apply (processJob_success [] Sample.image_succeeds Sample.taken_job
           Sample.one_enqueued).
  - split; [reflexivity|]. vm_compute. by eexists.
  - vm_compute. reflexivity.
Defined.

(** X22: a job whose node is in the store and whose [processJob] call
    throws has its node set to status [error] with the message of the
    exception by the worker loop, whether or not the ['error'] event can
    be emitted afterwards. *)
Theorem failed_job_marks_node
    (persisted : list Session.t) (env : Pipeline.JobEnv) (i : nat)
    (w w1 : Pipeline.World) (job : GenerationJob.t) (message : string) :
  let sessionId := GenerationJob.sessionId job in
  let nodeId := GenerationJob.nodeId job in
  Pipeline.workers w !! i = Some job ->
  present sessionId nodeId w ->
  Pipeline.processJob persisted env job w = (Thrown message, w1) ->
  exists n,
    node_at sessionId nodeId
      (Pipeline.store (Pipeline.worker_step persisted env i w)) = Some n /\
    GenerationNode.status n = NodeStatus.error /\
    GenerationNode.error n = Some message.
Proof.
  intros sessionId nodeId Hi Hw Hjob.
  pose proof (processJob_outcome persisted sessionId nodeId env job
                eq_refl eq_refl w Hw) as H.
  rewrite Hjob in H. destruct H as [Hinit [n1 Hn1]].
  unfold Pipeline.worker_step. rewrite Hi, Hjob.
  cbn [GenerationJob.sessionId GenerationJob.nodeId
       GenerationJob.with_status].
  fold sessionId nodeId.
  unfold Pipeline.bind. rewrite store_updateNode_spec.
  cbn [Pipeline.store Pipeline.with_finished Pipeline.now Pipeline.clock].
  fold (Pipeline.now w1).
  destruct (node_at_updateNode persisted (Pipeline.now w1) sessionId nodeId
              (Pipeline.error_patch message) (Pipeline.store w1)
              sessionId nodeId n1 Hinit eq_refl Hn1) as [Hnode _].
  rewrite decide_True in Hnode by done.
  set (w2 := Pipeline.with_store _ _).
  assert (Hstore : forall x, Pipeline.store (Pipeline.take_next i x)
                             = Pipeline.store x).
  { intros x. unfold Pipeline.take_next. by destruct (Pipeline.jobQueue x). }
  exists (NodePatch.merge n1 (Pipeline.error_patch message)).
  split; [|done].
  unfold Pipeline.emitError, Pipeline.emitSessionEvent.
  destruct (Events.emitSessionEvent _ _ _ _ _) as [[[]|e] b'];
    [rewrite Hstore|]; exact Hnode.
Qed.

Lemma failed_job_marks_node_witness :
  exists n,
    node_at "s-1" "n-1"
      (Pipeline.store
         (Pipeline.worker_step [] Sample.needs_revision 0
            Sample.one_enqueued)) = Some n /\
    GenerationNode.status n = NodeStatus.error /\
    GenerationNode.error n
    = Some "Prompt composition failed: subject unclear; no style".
Proof.
  apply (failed_job_marks_node [] Sample.needs_revision 0 Sample.one_enqueued
           (Pipeline.processJob [] Sample.needs_revision Sample.taken_job
              Sample.one_enqueued).2
           Sample.taken_job).
  - reflexivity.
  - split; [reflexivity|]. vm_compute. by eexists.
  - vm_compute. reflexivity.
Defined.

(* ================================================================== *)
(** * The session routes *)
(* ================================================================== *)

(** ** [[...new Set(urls)]] *)

Lemma JsSet_add_fold (urls acc : list string) :
  NoDup acc ->
  let r := fold_left (fun s u => JsSet.add u s) urls acc in
  NoDup r /\
  (forall u, u ∈ r <-> u ∈ acc \/ u ∈ urls) /\
  (exists added, r = acc ++ added /\ (length added <= length urls)%nat).
Proof.
  revert acc. induction urls as [|u urls IH]; intros acc Hacc; cbn.
  { split; [done|]. split.
    - intros x. split; [by left|]. intros [H|H]; [done|]. by inversion H.
    - exists []. by rewrite app_nil_r. }
  assert (Hadd : NoDup (JsSet.add u acc)).
  { unfold JsSet.add, JsSet.has. case_bool_decide; [done|].
    apply NoDup_app. split; [done|]. split; [|apply NoDup_singleton].
    intros x Hx Hx'. apply list_elem_of_singleton in Hx'. by subst. }
  destruct (IH _ Hadd) as (Hnd & Hin & added & Heq & Hlen).
  split; [done|]. split.
  - intros x. rewrite Hin, JsSet_elem_add, elem_of_cons. tauto.
  - assert (Hcase : JsSet.add u acc = acc \/ JsSet.add u acc = acc ++ [u]).
    { unfold JsSet.add. destruct (JsSet.has u acc); auto. }
    destruct Hcase as [E|E]; rewrite E in Heq |- *.
    + exists added. split; [done|lia].
    + exists (u :: added). split; [by rewrite Heq, <- app_assoc|cbn; lia].
Qed.

Lemma JsSet_add_fold_fresh (urls acc : list string) :
  NoDup (acc ++ urls) ->
  fold_left (fun s u => JsSet.add u s) urls acc = acc ++ urls.
Proof.
  revert acc. induction urls as [|u urls IH]; intros acc Hnd; cbn.
  { by rewrite app_nil_r. }
  assert (Hu : u ∉ acc).
  { apply NoDup_app in Hnd as (_ & Hd & _). intros Hin.
    apply (Hd u Hin). by left. }
  unfold JsSet.add at 2, JsSet.has. rewrite bool_decide_eq_false_2 by done.
  rewrite IH; rewrite <- app_assoc; [done|]. exact Hnd.
Qed.

Lemma distinct_spec (old urls : list string) :
  let all := Routes.distinct (old ++ urls) in
  NoDup all /\
  (forall u, u ∈ all <-> u ∈ old \/ u ∈ urls) /\
  (NoDup old -> exists added, all = old ++ added) /\
  (length all <= length old + length urls)%nat.
Proof.
  intros all. subst all. unfold Routes.distinct.
  destruct (JsSet_add_fold (old ++ urls) [] NoDup_nil_2)
    as (Hnd & Hin & added & Heq & Hlen).
  split; [done|]. split.
  { intros u. rewrite Hin, elem_of_app, elem_of_nil. tauto. }
  split.
  - intros Hold. rewrite fold_left_app.
    rewrite (JsSet_add_fold_fresh old []) by done. cbn [app].
    destruct (JsSet_add_fold urls old Hold) as (_ & _ & added' & -> & _).
    by exists added'.
  - rewrite Heq. cbn [app]. rewrite length_app in Hlen. lia.
Qed.

(** ** The references of a session *)

Section ReferenceRoutes.
Variable persisted : list Session.t.
Local Abbreviation loaded := (loaded persisted).

Lemma store_setReferences_spec sessionId urls w session :
  JsMap.get sessionId (SessionStore.sessions (Pipeline.store w))
  = Some session ->
  SessionStore.initialized (Pipeline.store w) = true ->
  let s' :=
    SessionPatch.merge (Pipeline.now w) session
      (SessionPatch.mk None None
         (Some (if (0 <? length urls)%nat
                then SessionState.references_uploaded
                else Session.state session))
         (Some urls) None None None None None None) in
  Routes.store_setReferences persisted sessionId urls w
  = (Returned (Some s'),
     Pipeline.with_store (updated_store sessionId s' (Pipeline.store w)) w).
Proof.
  intros Hget Hinit s'. unfold Routes.store_setReferences, Pipeline.store_call.
  by rewrite setReferences_spec, loaded_id, Hget.
Qed.

(** What a route finds after its first [get]. *)
Lemma after_get sessionId w :
  let w1 := Pipeline.with_store (loaded (Pipeline.store w)) w in
  SessionStore.initialized (Pipeline.store w1) = true /\
  JsMap.get sessionId (SessionStore.sessions (Pipeline.store w1))
  = JsMap.get sessionId (SessionStore.sessions (loaded (Pipeline.store w))) /\
  Pipeline.now w1 = Pipeline.now w.
Proof. cbn. split; [apply loaded_initialized|done]. Qed.

Lemma GET_references_spec sessionId w session :
  JsMap.get sessionId (SessionStore.sessions (Pipeline.store w))
  = Some session ->
  SessionStore.initialized (Pipeline.store w) = true ->
  (Routes.GET_references persisted sessionId w).1
  = Routes.mkResponse 200
      (Routes.References (Session.referenceUrls session)
         (length (Session.referenceUrls session))).
Proof.
  intros Hget Hinit. unfold Routes.GET_references, Routes.route, Pipeline.bind.
  by rewrite store_get_spec, loaded_id, Hget.
Qed.

End ReferenceRoutes.

(** X23: [POST .../references] for a session the store holds stores the
    former references followed by the new ones, each URL once: the stored
    list has no duplicate, holds exactly the URLs of the former list and of
    the request, extends a former list without duplicates at its end, and
    [GET .../references] returns it afterwards.  [addedCount] is the number
    of URLs sent, so [totalCount] is at most the former count plus
    [addedCount].  The state becomes [references_uploaded] unless the list
    is empty. *)
Theorem POST_references_merges
    (persisted : list Session.t) (sessionId : string) (urls : list string)
    (w : Pipeline.World) (session : Session.t) :
  JsMap.get sessionId
    (SessionStore.sessions (loaded persisted (Pipeline.store w)))
  = Some session ->
  let r := Routes.POST_references persisted sessionId (Some urls) w in
  let all := Routes.distinct (Session.referenceUrls session ++ urls) in
  (exists updated,
     r.1 = Routes.mkResponse 200
             (Routes.ReferencesAdded (Some updated) (length urls)
                (length all)) /\
     Session.referenceUrls updated = all /\
     Session.state updated
     = match all with
       | [] => Session.state session
       | _ :: _ => SessionState.references_uploaded
       end /\
     (Routes.GET_references persisted sessionId r.2).1
     = Routes.mkResponse 200 (Routes.References all (length all))) /\
  NoDup all /\
  (forall u, u ∈ all <-> u ∈ Session.referenceUrls session \/ u ∈ urls) /\
  (NoDup (Session.referenceUrls session) ->
   exists added, all = Session.referenceUrls session ++ added) /\
  (length all <= length (Session.referenceUrls session) + length urls)%nat.
Proof.
  intros Hget r all. split; [|apply distinct_spec].
  subst r. unfold Routes.POST_references, Routes.route, Pipeline.bind.
  rewrite store_get_spec, Hget. fold all.
  destruct (after_get persisted sessionId w) as (Hinit & Hget1 & _).
  rewrite Hget in Hget1.
  rewrite (store_setReferences_spec persisted sessionId all _ session)
    by done.
  cbn [fst snd Routes.respond Pipeline.ret].
  eexists. split; [reflexivity|]. split; [reflexivity|]. split.
  { cbn [SessionPatch.merge Session.state SessionPatch.state default from_option].
    by destruct all. }
  match goal with
  | |- (Routes.GET_references _ _
          (Pipeline.with_store (updated_store _ ?s' _) ?w1)).1 = _ =>
      rewrite (GET_references_spec persisted sessionId _ s')
  end; [reflexivity| |done].
  cbn [Pipeline.store Pipeline.with_store]. unfold updated_store.
  cbn [SessionStore.sessions]. apply JsMap_get_set_eq.
Qed.

Lemma POST_references_merges_witness :
  exists updated,
    (Routes.POST_references [] "s-1"
       (Some ["https://example.com/b.png"; "https://example.com/a.png";
              "https://example.com/b.png"])
       (Sample.world_of Sample.planned)).1
    = Routes.mkResponse 200 (Routes.ReferencesAdded (Some updated) 3 2) /\
    Session.referenceUrls updated
    = ["https://example.com/a.png"; "https://example.com/b.png"].
Proof.
  destruct (POST_references_merges [] "s-1"
              ["https://example.com/b.png"; "https://example.com/a.png";
               "https://example.com/b.png"]
              (Sample.world_of Sample.planned) Sample.planned)
    as [(updated & Hr & Hurls & _) _]; [reflexivity|].
  exists updated. split; [exact Hr|exact Hurls].
Defined.

(** X24: [DELETE .../references] for a session the store holds removes
    every occurrence of the URL named and keeps the other references in
    their order; a request that names no URL, or the empty string, removes
    all references.  The state is left as it was when no reference
    remains, and [GET .../references] returns the remaining list
    afterwards. *)
Theorem DELETE_references_removes
    (persisted : list Session.t) (sessionId : string) (url : option string)
    (w : Pipeline.World) (session : Session.t) :
  JsMap.get sessionId
    (SessionStore.sessions (loaded persisted (Pipeline.store w)))
  = Some session ->
  let r := Routes.DELETE_references persisted sessionId url w in
  exists updated,
    r.1 = Routes.mkResponse 200
            (Routes.ReferencesRemoved (Some updated)
               (length (Session.referenceUrls updated))) /\
    (forall u, url = Some u -> u <> "" ->
       Session.referenceUrls updated
       = filter (fun u' => u' <> u) (Session.referenceUrls session) /\
       u ∉ Session.referenceUrls updated) /\
    (url = None \/ url = Some "" -> Session.referenceUrls updated = []) /\
    Session.state updated
    = match Session.referenceUrls updated with
      | [] => Session.state session
      | _ :: _ => SessionState.references_uploaded
      end /\
    (Routes.GET_references persisted sessionId r.2).1
    = Routes.mkResponse 200
        (Routes.References (Session.referenceUrls updated)
           (length (Session.referenceUrls updated))).
Proof.
  intros Hget r. subst r.
  unfold Routes.DELETE_references, Routes.route, Pipeline.bind.
  rewrite store_get_spec, Hget.
  set (urls := if Pipeline.truthy url then _ else _).
  destruct (after_get persisted sessionId w) as (Hinit & Hget1 & _).
  rewrite Hget in Hget1.
  rewrite (store_setReferences_spec persisted sessionId urls _ session)
    by done.
  cbn [fst snd Routes.respond Pipeline.ret].
  match goal with
  | |- context [Routes.ReferencesRemoved (Some ?s') _] => exists s'
  end.
  split; [reflexivity|].
  cbn [SessionPatch.merge Session.state Session.referenceUrls
       SessionPatch.state SessionPatch.referenceUrls default from_option].
  split.
  { intros u -> Hu. subst urls. unfold Pipeline.truthy.
    rewrite bool_decide_eq_false_2 by done. cbn [negb default from_option].
    unfold id. split; [done|]. rewrite list_elem_of_filter. tauto. }
  split.
  { intros [->| ->]; subst urls; [done|]. unfold Pipeline.truthy.
    by rewrite bool_decide_eq_true_2. }
  split; [by destruct urls|].
  match goal with
  | |- (Routes.GET_references _ _
          (Pipeline.with_store (updated_store _ ?s' _) ?w1)).1 = _ =>
      rewrite (GET_references_spec persisted sessionId _ s')
  end; [reflexivity| |done].
  cbn [Pipeline.store Pipeline.with_store]. unfold updated_store.
  cbn [SessionStore.sessions]. apply JsMap_get_set_eq.
Qed.

Lemma DELETE_references_removes_witness :
  exists updated,
    (Routes.DELETE_references [] "s-1" None
       (Sample.world_of Sample.planned)).1
    = Routes.mkResponse 200 (Routes.ReferencesRemoved (Some updated) 0) /\
    Session.state updated = SessionState.directions_planned.
Proof.
  destruct (DELETE_references_removes [] "s-1" None
              (Sample.world_of Sample.planned) Sample.planned)
    as (updated & Hr & _ & Hall & Hstate & _); [reflexivity|].
  exists updated. rewrite Hall in Hr, Hstate by (by left).
  split; [exact Hr|exact Hstate].
Defined.

(** ** The analysis of a session *)

Ltac same_fields :=
  unfold same_but_nodes, analysed in *;
  cbn [SessionPatch.merge Session.id Session.mode Session.state
       Session.referenceUrls Session.caption Session.salienceProfile
       Session.directions Session.preferences Session.createdAt
       SessionPatch.id SessionPatch.mode SessionPatch.state
       SessionPatch.referenceUrls SessionPatch.caption
       SessionPatch.salienceProfile SessionPatch.directions
       SessionPatch.preferences SessionPatch.createdAt
       SessionStore.directions_patch default from_option id] in *;
  unfold id in *.

Lemma without_nodes_patched nodeId updates ds :
  map without_nodes (patched_directions nodeId updates ds)
  = map without_nodes ds.
Proof. unfold patched_directions. by rewrite map_map. Qed.

Section AnalyzeRoute.
Variable persisted : list Session.t.
Variable sessionId : string.
Local Abbreviation loaded := (loaded persisted).

Lemma holds_store_other s (w : Pipeline.World) st :
  holds sessionId s w ->
  SessionStore.initialized st = true ->
  JsMap.get sessionId (SessionStore.sessions st)
  = JsMap.get sessionId (SessionStore.sessions (Pipeline.store w)) ->
  holds sessionId s (Pipeline.with_store st w).
Proof.
  intros (_ & s' & Hs' & Hsame) Hinit Hget. split; [done|].
  exists s'. cbn [Pipeline.store Pipeline.with_store]. by rewrite Hget.
Qed.

Lemma holds_updateNode s s0 n u :
  keeps (holds sessionId s) (Pipeline.store_updateNode persisted s0 n u).
Proof.
  intros w Hw. pose proof Hw as (Hinit & s' & Hs' & Hsame).
  rewrite store_updateNode_spec. cbn [snd].
  rewrite updateNode_spec, loaded_id by done.
  destruct (JsMap.get s0 (SessionStore.sessions (Pipeline.store w)))
    as [x|] eqn:Hx; cbn [snd]; [|by apply holds_store_other].
  destruct (decide (s0 = sessionId)) as [->|Hne].
  - split; [done|]. eexists.
    cbn [Pipeline.store Pipeline.with_store]. unfold updated_store.
    cbn [SessionStore.sessions]. split; [apply JsMap_get_set_eq|].
    rewrite Hs' in Hx. injection Hx as <-.
    same_fields. rewrite without_nodes_patched. tauto.
  - apply holds_store_other; [done..|].
    unfold updated_store. cbn [SessionStore.sessions].
    by rewrite JsMap_get_set_ne.
Qed.

Lemma holds_fire s t : keeps (holds sessionId s) (Pipeline.fire persisted t).
Proof.
  unfold Pipeline.fire. destruct (Num.ltb _ _); [|apply keeps_ret].
  apply keeps_bind; [by intros w Hw|intros _].
  apply keeps_bind; [apply holds_updateNode|intros _].
  intros w Hw. unfold Pipeline.emitProgress, Pipeline.emitSessionEvent.
  by destruct (Events.emitSessionEvent _ _ _ _ _).
Qed.

Lemma holds_sleep s n : keeps (holds sessionId s) (Pipeline.sleep persisted n).
Proof.
  apply keeps_sleep; [by intros w Hw|]. intros t w Hw _. by apply holds_fire.
Qed.

Lemma await_returned {A} n (a : A) w :
  Pipeline.await persisted (n, Returned a) w
  = (Returned a, (Pipeline.sleep persisted n w).2).
Proof. done. Qed.

Lemma await_thrown {A} n message w :
  Pipeline.await (A := A) persisted (n, Thrown message) w
  = (Thrown message, (Pipeline.sleep persisted n w).2).
Proof. done. Qed.

(** A call of [update] on the session. *)
Lemma holds_update s updates w :
  holds sessionId s w ->
  exists s',
    same_but_nodes s s' /\
    Pipeline.store_call
      (fun t => SessionStore.update persisted t sessionId updates) w
    = (Returned (Some (SessionPatch.merge (Pipeline.now w) s' updates)),
       Pipeline.with_store
         (updated_store sessionId
            (SessionPatch.merge (Pipeline.now w) s' updates)
            (Pipeline.store w)) w).
Proof.
  intros (Hinit & s' & Hs' & Hsame). exists s'. split; [done|].
  unfold Pipeline.store_call. by rewrite update_spec, loaded_id, Hs'.
Qed.

Lemma holds_updated s s' w :
  SessionStore.initialized (Pipeline.store w) = true ->
  same_but_nodes s s' ->
  holds sessionId s
    (Pipeline.with_store (updated_store sessionId s' (Pipeline.store w)) w).
Proof.
  intros Hinit Hsame. split; [done|]. exists s'. split; [|done].
  cbn [Pipeline.store Pipeline.with_store]. unfold updated_store.
  cbn [SessionStore.sessions]. apply JsMap_get_set_eq.
Qed.

Lemma clamp_range (n : number) :
  (Num.of_Z 3 <= Routes.clamp n)%Q /\ (Routes.clamp n <= Num.of_Z 8)%Q /\
  ((Num.of_Z 3 <= n)%Q -> (n <= Num.of_Z 8)%Q -> (Routes.clamp n == n)%Q).
Proof.
  assert (Hle : forall a b, Qle_bool a b = false -> (b <= a)%Q).
  { intros a b E. apply Qlt_le_weak, Qnot_le_lt. intros H.
    apply Qle_bool_iff in H. congruence. }
  unfold Routes.clamp, Routes.max, Num.min, Num.leb.
  destruct (Qle_bool n (Num.of_Z 3)) eqn:E3.
  - change (Qle_bool (Num.of_Z 3) (Num.of_Z 8)) with true. cbv iota.
    split; [apply Qle_refl|]. split; [done|].
    intros H3 _. apply Qle_bool_iff in E3. by apply Qle_antisym.
  - apply Hle in E3. destruct (Qle_bool n (Num.of_Z 8)) eqn:E8.
    + apply Qle_bool_iff in E8. split; [done|]. split; [done|]. reflexivity.
    + apply Hle in E8. split; [done|]. split; [apply Qle_refl|].
      intros _ H8. by apply Qle_antisym.
Qed.

Lemma analyze_outcome env numDirections force w session :
  JsMap.get sessionId (SessionStore.sessions (loaded (Pipeline.store w)))
  = Some session ->
  Session.referenceUrls session <> [] ->
  not_cached session force ->
  let r := Routes.POST_analyze persisted env sessionId numDirections force w in
  let failed message kept :=
    r.1 = Routes.mkResponse 500 (Routes.ErrorBody message) /\
    holds sessionId
      (analysed session SessionState.error kept (Session.directions session))
      r.2 in
  match
    (Routes.extractSalience env (Session.referenceUrls session)
       (Session.caption session) (Session.mode session)
       (PreferenceState.weights (Session.preferences session))).2
  with
  | Thrown message => failed message (Session.salienceProfile session)
  | Returned profile =>
      match
        (Routes.planDirections env profile
           (Routes.clamp (default (Num.of_Z 6) numDirections))
           (Session.mode session)).2
      with
      | Thrown message => failed message (Some profile)
      | Returned directions =>
          exists updated,
            r.1 = Routes.mkResponse 200
                    (Routes.Analyzed (Some updated) profile directions) /\
            same_but_nodes
              (analysed session SessionState.directions_planned
                 (Some profile) directions)
              updated /\
            Session.directions updated = directions /\
            SessionStore.initialized (Pipeline.store r.2) = true /\
            JsMap.get sessionId (SessionStore.sessions (Pipeline.store r.2))
            = Some updated
      end
  end.
Proof.
  intros Hget Hrefs Hfresh r failed.
  assert (Hr : r = Routes.POST_analyze persisted env sessionId numDirections
                     force w) by done.
  clearbody r. subst failed. cbv beta.
  unfold Routes.POST_analyze, Routes.route in Hr.
  unfold Pipeline.bind at 1 in Hr. rewrite store_get_spec, Hget in Hr.
  assert ((length (Session.referenceUrls session) =? 0)%nat = false) as E1.
  { apply Nat.eqb_neq. by destruct (Session.referenceUrls session). }
  assert (bool_decide (is_Some (Session.salienceProfile session))
          && (0 <? length (Session.directions session))%nat
          && negb (default false force) = false) as E2.
  { destruct Hfresh as [-> | [-> | ->]]; [done| |].
    - by rewrite andb_false_r.
    - by rewrite andb_false_r. }
  rewrite E1, E2 in Hr. clear E1 E2.
  set (w1 := Pipeline.with_store _ w) in Hr.
  assert (H1 : holds sessionId
                 (analysed session (Session.state session)
                    (Session.salienceProfile session)
                    (Session.directions session)) w1).
  { split; [apply loaded_initialized|]. exists session. split; [done|].
    same_fields. tauto. }
  clearbody w1.
  unfold Pipeline.bind at 1 in Hr.
  unfold Pipeline.store_setState, SessionStore.setState in Hr.
  destruct (holds_update _
              (SessionPatch.mk None None (Some SessionState.analyzing) None
                 None None None None None None) w1 H1)
    as (s1 & Hsame1 & Heq).
  rewrite Heq in Hr. clear Heq.
  set (w2 := Pipeline.with_store _ w1) in Hr.
  assert (H2 : holds sessionId
                 (analysed session SessionState.analyzing
                    (Session.salienceProfile session)
                    (Session.directions session)) w2).
  { apply holds_updated; [apply H1|]. same_fields. tauto. }
  clearbody w2. clear H1 Hsame1 s1 w1.
  unfold Pipeline.try_catch in Hr. unfold Pipeline.bind at 1 in Hr.
  destruct (Routes.extractSalience env _ _ _ _) as [n1 [profile|message]];
    cbn [snd].
  2:{ rewrite await_thrown in Hr.
      apply (holds_sleep _ n1) in H2.
      set (w3 := (Pipeline.sleep persisted n1 w2).2) in *. clearbody w3.
      unfold Pipeline.bind in Hr.
      destruct (holds_update _
                  (SessionPatch.mk None None (Some SessionState.error) None
                     None None None None None None) w3 H2)
        as (s3 & Hsame3 & Heq).
      rewrite Heq in Hr. subst r. cbn [fst snd Pipeline.throw].
      split; [done|].
      apply holds_updated; [apply H2|]. same_fields. tauto. }
  rewrite await_returned in Hr.
  apply (holds_sleep _ n1) in H2.
  set (w3 := (Pipeline.sleep persisted n1 w2).2) in *. clearbody w3.
  unfold Pipeline.bind at 1 in Hr.
  unfold Routes.store_setSalienceProfile, SessionStore.setSalienceProfile
    in Hr.
  destruct (holds_update _
              (SessionPatch.mk None None None None None (Some (Some profile))
                 None None None None) w3 H2)
    as (s3 & Hsame3 & Heq).
  rewrite Heq in Hr. clear Heq.
  set (w4 := Pipeline.with_store _ w3) in Hr.
  assert (H4 : holds sessionId
                 (analysed session SessionState.analyzing (Some profile)
                    (Session.directions session)) w4).
  { apply holds_updated; [apply H2|]. same_fields. tauto. }
  clearbody w4. clear H2 Hsame3 s3.
  unfold Pipeline.bind at 1 in Hr.
  destruct (Routes.planDirections env _ _ _) as [n2 [directions|message]];
    cbn [snd].
  2:{ rewrite await_thrown in Hr.
      apply (holds_sleep _ n2) in H4.
      set (w5 := (Pipeline.sleep persisted n2 w4).2) in *. clearbody w5.
      unfold Pipeline.bind in Hr.
      destruct (holds_update _
                  (SessionPatch.mk None None (Some SessionState.error) None
                     None None None None None None) w5 H4)
        as (s5 & Hsame5 & Heq).
      rewrite Heq in Hr. subst r. cbn [fst snd Pipeline.throw].
      split; [done|].
      apply holds_updated; [apply H4|]. same_fields. tauto. }
  rewrite await_returned in Hr.
  apply (holds_sleep _ n2) in H4.
  set (w5 := (Pipeline.sleep persisted n2 w4).2) in *. clearbody w5.
  unfold Pipeline.bind in Hr.
  unfold Routes.store_setDirections, SessionStore.setDirections in Hr.
  destruct (holds_update _
              (SessionPatch.mk None None
                 (Some SessionState.directions_planned) None None None
                 (Some directions) None None None) w5 H4)
    as (s5 & Hsame5 & Heq).
  rewrite Heq in Hr. subst r. cbn [fst snd Routes.respond Pipeline.ret].
  eexists. split; [reflexivity|]. split; [same_fields; tauto|].
  split; [done|]. split; [apply H4|].
  cbn [Pipeline.store Pipeline.with_store]. unfold updated_store.
  cbn [SessionStore.sessions]. apply JsMap_get_set_eq.
Qed.

End AnalyzeRoute.

(** X25: [POST .../analyze] for a session with references that is not
    answered from the store, when both agents answer: the response carries
    the profile and the directions of the agents, and the session it
    returns is the stored one, in state [directions_planned] with that
    profile and those directions and with its references unchanged,
    whatever the progress timers of running jobs wrote meanwhile.  The
    planner is asked for [numDirections] directions (6 by default) brought
    into the range from 3 to 8. *)
Theorem POST_analyze_success
    (persisted : list Session.t) (env : Routes.AnalyzeEnv)
    (sessionId : string) (numDirections : option number)
    (force : option bool) (w : Pipeline.World) (session : Session.t)
    (n1 n2 : nat) (profile : SalienceProfile.t)
    (directions : list Direction.t) :
  let n := Routes.clamp (default (Num.of_Z 6) numDirections) in
  JsMap.get sessionId
    (SessionStore.sessions (loaded persisted (Pipeline.store w)))
  = Some session ->
  Session.referenceUrls session <> [] ->
  not_cached session force ->
  Routes.extractSalience env (Session.referenceUrls session)
    (Session.caption session) (Session.mode session)
    (PreferenceState.weights (Session.preferences session))
  = (n1, Returned profile) ->
  Routes.planDirections env profile n (Session.mode session)
  = (n2, Returned directions) ->
  let r := Routes.POST_analyze persisted env sessionId numDirections force w in
  (exists updated,
     r.1 = Routes.mkResponse 200
             (Routes.Analyzed (Some updated) profile directions) /\
     Session.state updated = SessionState.directions_planned /\
     Session.salienceProfile updated = Some profile /\
     Session.directions updated = directions /\
     Session.referenceUrls updated = Session.referenceUrls session /\
     (Routes.GET_session persisted sessionId r.2).1
     = Routes.mkResponse 200 (Routes.Details updated)) /\
  (Num.of_Z 3 <= n)%Q /\ (n <= Num.of_Z 8)%Q /\
  (forall k, numDirections = Some k ->
     (Num.of_Z 3 <= k)%Q -> (k <= Num.of_Z 8)%Q -> (n == k)%Q).
Proof.
  intros n Hget Hrefs Hfresh Hext Hplan r.
  pose proof (analyze_outcome persisted sessionId env numDirections force w
                session Hget Hrefs Hfresh) as H.
  cbv zeta in H. fold n in H. rewrite Hext in H. cbn [snd] in H.
  rewrite Hplan in H. cbn [snd] in H. fold r in H.
  destruct H as (updated & Hr & Hsame & Hdirs & Hinit & Hstored).
  split.
  - exists updated. split; [done|]. same_fields.
    split; [tauto|]. split; [tauto|]. split; [done|]. split; [tauto|].
    unfold Routes.GET_session, Routes.route, Pipeline.bind.
    by rewrite store_get_spec, loaded_id, Hstored.
  - destruct (clamp_range (default (Num.of_Z 6) numDirections))
      as (H3 & H8 & Hsame').
    split; [done|]. split; [done|]. intros k -> Hk3 Hk8. by apply Hsame'.
Qed.

Lemma POST_analyze_success_witness :
  exists updated,
    (Routes.POST_analyze []
       (sample_agents (Returned [Sample.direction "dir-1" []])) "s-1"
       (Some (Num.of_Z 12)) None (Sample.world_of sample_uploaded)).1
    = Routes.mkResponse 200
        (Routes.Analyzed (Some updated) Sample.profile
           [Sample.direction "dir-1" []]) /\
    Session.state updated = SessionState.directions_planned.
Proof.
  destruct (POST_analyze_success []
              (sample_agents (Returned [Sample.direction "dir-1" []])) "s-1"
              (Some (Num.of_Z 12)) None (Sample.world_of sample_uploaded)
              sample_uploaded 1 2 Sample.profile
              [Sample.direction "dir-1" []])
    as [(updated & Hr & Hstate & _) _];
    [reflexivity|done|by left|reflexivity|reflexivity|].
  exists updated. split; [exact Hr|exact Hstate].
Defined.

(** X26: after an analysis that succeeded with at least one direction, a
    further [POST .../analyze] that does not set [force] answers with the
    stored session, marked as cached, whatever the agents would answer, and
    leaves the store as it is. *)
Theorem POST_analyze_again_cached
    (persisted : list Session.t) (env : Routes.AnalyzeEnv)
    (sessionId : string) (numDirections : option number)
    (force : option bool) (w : Pipeline.World) (session : Session.t)
    (n1 n2 : nat) (profile : SalienceProfile.t)
    (directions : list Direction.t) :
  JsMap.get sessionId
    (SessionStore.sessions (loaded persisted (Pipeline.store w)))
  = Some session ->
  Session.referenceUrls session <> [] ->
  not_cached session force ->
  Routes.extractSalience env (Session.referenceUrls session)
    (Session.caption session) (Session.mode session)
    (PreferenceState.weights (Session.preferences session))
  = (n1, Returned profile) ->
  Routes.planDirections env profile
    (Routes.clamp (default (Num.of_Z 6) numDirections)) (Session.mode session)
  = (n2, Returned directions) ->
  directions <> [] ->
  let r := Routes.POST_analyze persisted env sessionId numDirections force w in
  exists updated,
    r.1 = Routes.mkResponse 200
            (Routes.Analyzed (Some updated) profile directions) /\
    forall env' numDirections' force',
      force' = None \/ force' = Some false ->
      let r' :=
        Routes.POST_analyze persisted env' sessionId numDirections' force'
          r.2 in
      r'.1 = Routes.mkResponse 200 (Routes.Cached updated) /\
      Pipeline.store r'.2 = Pipeline.store r.2.
Proof.
  intros Hget Hrefs Hfresh Hext Hplan Hdirs r.
  pose proof (analyze_outcome persisted sessionId env numDirections force w
                session Hget Hrefs Hfresh) as H.
  cbv zeta in H. rewrite Hext in H. cbn [snd] in H.
  rewrite Hplan in H. cbn [snd] in H. fold r in H.
  destruct H as (updated & Hr & Hsame & Hds & Hinit & Hstored).
  exists updated. split; [done|].
  intros env' numDirections' force' Hforce r'.
  assert (Heq : r' = (Routes.mkResponse 200 (Routes.Cached updated),
                      Pipeline.with_store (Pipeline.store r.2) r.2));
    [|by rewrite Heq].
  subst r'. unfold Routes.POST_analyze, Routes.route.
  unfold Pipeline.bind at 1.
  rewrite store_get_spec, loaded_id, Hstored by done.
  destruct Hsame as (_ & _ & _ & Hu & _ & Hp & _).
  unfold analysed in Hu, Hp.
  cbn [Session.referenceUrls Session.salienceProfile] in Hu, Hp.
  rewrite Hu, Hp, Hds.
  assert ((length (Session.referenceUrls session) =? 0)%nat = false) as ->.
  { apply Nat.eqb_neq. by destruct (Session.referenceUrls session). }
  assert (bool_decide (is_Some (Some profile))
          && (0 <? length directions)%nat
          && negb (default false force') = true) as ->.
  { rewrite bool_decide_eq_true_2 by by eexists.
    destruct directions; [done|]. by destruct Hforce as [-> | ->]. }
  done.
Qed.

Lemma POST_analyze_again_cached_witness :
  exists updated,
    (Routes.POST_analyze []
       (sample_agents (Thrown "not called")) "s-1" None None
       (Routes.POST_analyze []
          (sample_agents (Returned [Sample.direction "dir-1" []])) "s-1"
          None None (Sample.world_of sample_uploaded)).2).1
    = Routes.mkResponse 200 (Routes.Cached updated).
Proof.
  destruct (POST_analyze_again_cached []
              (sample_agents (Returned [Sample.direction "dir-1" []])) "s-1"
              None None (Sample.world_of sample_uploaded)
              sample_uploaded 1 2 Sample.profile
              [Sample.direction "dir-1" []])
    as (updated & _ & H);
    [reflexivity|done|by left|reflexivity|reflexivity|done|].
  exists updated.
  apply (H (sample_agents (Thrown "not called")) None None). by left.
Defined.

(** X27: when an agent throws, [POST .../analyze] answers 500 with the
    message of the exception and leaves the session in state [error].  A
    failure of the extraction leaves the stored profile as it was; a
    failure of the planner leaves the new profile stored beside the former
    directions. *)
Theorem POST_analyze_failure
    (persisted : list Session.t) (env : Routes.AnalyzeEnv)
    (sessionId : string) (numDirections : option number)
    (force : option bool) (w : Pipeline.World) (session : Session.t)
    (message : string) :
  JsMap.get sessionId
    (SessionStore.sessions (loaded persisted (Pipeline.store w)))
  = Some session ->
  Session.referenceUrls session <> [] ->
  not_cached session force ->
  let r := Routes.POST_analyze persisted env sessionId numDirections force w in
  let extraction :=
    Routes.extractSalience env (Session.referenceUrls session)
      (Session.caption session) (Session.mode session)
      (PreferenceState.weights (Session.preferences session)) in
  let failed kept :=
    r.1 = Routes.mkResponse 500 (Routes.ErrorBody message) /\
    exists stored,
      JsMap.get sessionId (SessionStore.sessions (Pipeline.store r.2))
      = Some stored /\
      Session.state stored = SessionState.error /\
      Session.salienceProfile stored = kept /\
      map Direction.id (Session.directions stored)
      = map Direction.id (Session.directions session) /\
      Session.referenceUrls stored = Session.referenceUrls session in
  (extraction.2 = Thrown message -> failed (Session.salienceProfile session))
  /\
  (forall profile,
     extraction.2 = Returned profile ->
     (Routes.planDirections env profile
        (Routes.clamp (default (Num.of_Z 6) numDirections))
        (Session.mode session)).2 = Thrown message ->
     failed (Some profile)).
Proof.
  intros Hget Hrefs Hfresh r extraction failed.
  pose proof (analyze_outcome persisted sessionId env numDirections force w
                session Hget Hrefs Hfresh) as H.
  cbv zeta in H. fold extraction r in H.
  assert (Hfailed : forall kept,
            r.1 = Routes.mkResponse 500 (Routes.ErrorBody message) /\
            holds sessionId
              (analysed session SessionState.error kept
                 (Session.directions session)) r.2 ->
            failed kept).
  { intros kept [Hr (_ & stored & Hstored & Hsame)]. split; [done|].
    exists stored. split; [done|]. same_fields.
    destruct Hsame as (_ & _ & ? & ? & _ & ? & _ & _ & Hds).
    split; [done|]. split; [done|]. split; [|done].
    apply (f_equal (map Direction.id)) in Hds.
    by rewrite !map_map in Hds. }
  split.
  - intros E. rewrite E in H. by apply Hfailed.
  - intros profile E1 E2. rewrite E1, E2 in H. by apply Hfailed.
Qed.

Lemma POST_analyze_failure_witness :
  (Routes.POST_analyze [] (sample_agents (Thrown "Direction planning failed: x"))
     "s-1" None None (Sample.world_of sample_uploaded)).1
  = Routes.mkResponse 500 (Routes.ErrorBody "Direction planning failed: x").
Proof.
  destruct (POST_analyze_failure []
              (sample_agents (Thrown "Direction planning failed: x")) "s-1"
              None None (Sample.world_of sample_uploaded) sample_uploaded
              "Direction planning failed: x")
    as [_ H]; [reflexivity|done|by left|].
  destruct (H Sample.profile) as [Hr _]; [reflexivity|reflexivity|].
  exact Hr.
Defined.

(** ** Creating and deleting sessions *)

Lemma valid_mode_includes (name : string) :
  is_Some (Routes.valid_mode name) <-> name ∈ Routes.VALID_MODES.
Proof.
  unfold Routes.valid_mode, Routes.VALID_MODES.
  rewrite !elem_of_cons, elem_of_nil.
  repeat case_bool_decide; split; intros Hx; try (by eexists); try tauto.
  by destruct Hx.
Qed.

(** X28: [POST /api/salience/session] answers 200 exactly when the request
    names one of the five modes, and 400 otherwise, without touching the
    store.  The session created has the id drawn, the mode named, the
    caption of the request or the empty string, and state [initializing];
    [GET /api/salience/session/[sessionId]] returns it afterwards. *)
Theorem POST_session_validates
    (persisted : list Session.t) (uuid : string) (mode caption : option string)
    (w : Pipeline.World) :
  let r := Routes.POST_session persisted uuid mode caption w in
  let valid := exists name, mode = Some name /\ name ∈ Routes.VALID_MODES in
  (valid ->
   exists session,
     r.1 = Routes.mkResponse 200 (Routes.Created uuid session) /\
     Session.id session = uuid /\
     (forall name, mode = Some name ->
        Routes.valid_mode name = Some (Session.mode session)) /\
     Session.caption session = default "" caption /\
     Session.state session = SessionState.initializing /\
     (Routes.GET_session persisted uuid r.2).1
     = Routes.mkResponse 200 (Routes.Details session)) /\
  (~ valid ->
   r = (Routes.mkResponse 400 (Routes.InvalidMode Routes.VALID_MODES), w)).
Proof.
  intros r valid. subst r valid. unfold Routes.POST_session, Routes.route.
  split.
  - intros (name & -> & Hname). apply valid_mode_includes in Hname as [m Hm].
    assert (Pipeline.truthy (Some name) = true) as ->.
    { unfold Pipeline.truthy. rewrite bool_decide_eq_false_2; [done|].
      by intros ->. }
    cbn [negb]. rewrite Hm. unfold Pipeline.bind, Routes.store_create.
    unfold Pipeline.store_call. rewrite create_spec.
    cbn [fst snd Routes.respond Pipeline.ret Session.id].
    eexists. split; [reflexivity|]. split; [done|]. split.
    { intros ? [= <-]. exact Hm. }
    split; [done|]. split; [done|].
    unfold Routes.GET_session, Routes.route, Pipeline.bind.
    rewrite store_get_spec.
    cbn [Pipeline.store Pipeline.with_store].
    rewrite loaded_id
      by (apply updated_store_initialized, loaded_initialized).
    unfold updated_store. cbn [SessionStore.sessions].
    by rewrite JsMap_get_set_eq.
  - intros Hinvalid. destruct mode as [name|]; [|done].
    destruct (Pipeline.truthy (Some name)); cbn [negb]; [|done].
    destruct (Routes.valid_mode name) as [m|] eqn:Hm; [|done].
    destruct Hinvalid. exists name. split; [done|].
    apply valid_mode_includes. by eexists.
Qed.


Lemma JsMap_get_delete_ne {K V : Type} `{EqDecision K}
    (m : list (K * V)) (k k' : K) :
  k' <> k -> JsMap.get k' (JsMap.delete k m) = JsMap.get k' m.
Proof.
  intros Hne. unfold JsMap.delete. induction m as [|[k0 v0] m IH]; [done|].
  cbn. destruct (decide (k0 <> k)) as [H0|H0]; simpl.
  - destruct (decide (k0 = k')); [done|apply IH].
  - destruct (decide (k0 = k')) as [->|]; [|apply IH]. by destruct H0.
Qed.

Section UnknownSession.
Variable persisted : list Session.t.
Variable sessionId : string.

(** Every route of a session answers 404 for an id that the store does not
    hold, without a call of an agent. *)
Lemma unknown_session_404 (w : Pipeline.World) :
  SessionStore.initialized (Pipeline.store w) = true ->
  JsMap.get sessionId (SessionStore.sessions (Pipeline.store w)) = None ->
  (Routes.GET_session persisted sessionId w).1 = not_found /\
  (forall unlink_ok disk,
     (Routes.DELETE_session persisted unlink_ok sessionId w disk).1.1
     = not_found) /\
  (forall urls,
     (Routes.POST_references persisted sessionId (Some urls) w).1
     = not_found) /\
  (Routes.GET_references persisted sessionId w).1 = not_found /\
  (forall url,
     (Routes.DELETE_references persisted sessionId url w).1 = not_found) /\
  (forall env numDirections force,
     (Routes.POST_analyze persisted env sessionId numDirections force w).1
     = not_found) /\
  (Routes.GET_analyze persisted sessionId w).1 = not_found /\
  (Routes.GET_generations persisted sessionId w).1 = not_found.
Proof.
  intros Hinit Hnone.
  assert (Hget : Pipeline.store_get persisted sessionId w
                 = (Returned None,
                    Pipeline.with_store (Pipeline.store w) w)).
  { by rewrite store_get_spec, loaded_id, Hnone. }
  split.
  { unfold Routes.GET_session, Routes.route, Pipeline.bind. by rewrite Hget. }
  split.
  { intros unlink_ok disk. unfold Routes.DELETE_session, SessionStore.delete.
    rewrite ensureInitialized_spec, loaded_id by done.
    unfold JsMap.has. by rewrite Hnone. }
  split.
  { intros urls. unfold Routes.POST_references, Routes.route, Pipeline.bind.
    by rewrite Hget. }
  split.
  { unfold Routes.GET_references, Routes.route, Pipeline.bind.
    by rewrite Hget. }
  split.
  { intros url. unfold Routes.DELETE_references, Routes.route, Pipeline.bind.
    by rewrite Hget. }
  split.
  { intros env numDirections force.
    unfold Routes.POST_analyze, Routes.route. unfold Pipeline.bind at 1.
    by rewrite Hget. }
  split.
  { unfold Routes.GET_analyze, Routes.route, Pipeline.bind. by rewrite Hget. }
  unfold Routes.GET_generations, Routes.route, Pipeline.bind. by rewrite Hget.
Qed.

End UnknownSession.

(** X29: [DELETE /api/salience/session/[sessionId]] for a session the store
    holds answers 200, whether or not the file could be removed, and from
    then on every route of that session answers 404 [Session not found];
    the sessions under other ids are found as before. *)
Theorem DELETE_session_then_404
    (persisted : list Session.t) (unlink_ok : bool) (sessionId : string)
    (w : Pipeline.World) (disk : SessionStore.Disk) (session : Session.t) :
  JsMap.get sessionId
    (SessionStore.sessions (loaded persisted (Pipeline.store w)))
  = Some session ->
  let r := Routes.DELETE_session persisted unlink_ok sessionId w disk in
  let w' := r.1.2 in
  r.1.1 = Routes.mkResponse 200 Routes.Deleted /\
  (Routes.GET_session persisted sessionId w').1 = not_found /\
  (forall unlink_ok' disk',
     (Routes.DELETE_session persisted unlink_ok' sessionId w' disk').1.1
     = not_found) /\
  (forall urls,
     (Routes.POST_references persisted sessionId (Some urls) w').1
     = not_found) /\
  (Routes.GET_references persisted sessionId w').1 = not_found /\
  (forall url,
     (Routes.DELETE_references persisted sessionId url w').1 = not_found) /\
  (forall env numDirections force,
     (Routes.POST_analyze persisted env sessionId numDirections force w').1
     = not_found) /\
  (Routes.GET_analyze persisted sessionId w').1 = not_found /\
  (Routes.GET_generations persisted sessionId w').1 = not_found /\
  (forall other, other <> sessionId ->
     (Routes.GET_session persisted other w').1
     = (Routes.GET_session persisted other w).1).
Proof.
  intros Hget r w'. subst w' r.
  unfold Routes.DELETE_session, SessionStore.delete.
  rewrite ensureInitialized_spec. unfold JsMap.has. rewrite Hget.
  cbn [negb fst snd].
  set (st := SessionStore.mkStore _ _ _).
  assert (Hinit : SessionStore.initialized st = true)
    by apply loaded_initialized.
  split; [done|].
  pose proof (unknown_session_404 persisted sessionId
                (Pipeline.with_store st w) Hinit
                (JsMap_get_delete_eq _ _)) as H.
  destruct H as (H1 & H2 & H3 & H4 & H5 & H6 & H7 & H8).
  do 8 (split; [assumption|]).
  intros other Hne. unfold Routes.GET_session, Routes.route, Pipeline.bind.
  rewrite !store_get_spec. cbn [Pipeline.store Pipeline.with_store].
  rewrite (loaded_id _ st) by done. subst st. cbn [SessionStore.sessions].
  assert (JsMap.get other
            (JsMap.delete sessionId
               (SessionStore.sessions (loaded persisted (Pipeline.store w))))
          = JsMap.get other
              (SessionStore.sessions (loaded persisted (Pipeline.store w))))
    as ->; [|by destruct (JsMap.get other _)].
  by apply JsMap_get_delete_ne.
Qed.

Lemma DELETE_session_then_404_witness :
  (Routes.GET_session [] "s-1"
     (Routes.DELETE_session [] false "s-1" (Sample.world_of Sample.planned)
        ∅).1.2).1
  = not_found.
Proof.
  destruct (DELETE_session_then_404 [] false "s-1"
              (Sample.world_of Sample.planned) ∅ Sample.planned)
    as (_ & H & _); [reflexivity|].
  exact H.
Defined.
